(** * Budget normalizer: the monetary string parser [parseMoney]

    A shallow embedding of [parseMoney] as it is written in
    [parse_money.js] (the standalone script) and in [n8n_parse_money.js]
    (the workflow node), together with the few JavaScript built-ins the
    function relies on, and the properties of the parser stated against
    that embedding.

    Strings are JavaScript strings: sequences of UTF-16 code units.
    Numbers are JavaScript Numbers restricted to the values this program can
    produce: integer-valued doubles, the infinities and NaN. *)

From Stdlib Require Import ZArith NArith List Bool Lia String Ascii.
Import ListNotations.

Local Open Scope Z_scope.

(** ** JavaScript built-ins used by the parser *)

Module JS.

(** A UTF-16 code unit and a JavaScript string. *)
Definition codeunit := N.
Definition jsstring := list codeunit.

(** Reads a literal of this file (UTF-8 bytes) as a JavaScript string
    (UTF-16 code units); a code point above U+FFFF becomes a surrogate
    pair. *)
Fixpoint utf16 (s : string) : jsstring :=
  match s with
  | EmptyString => []
  | String a r =>
    let b0 := N_of_ascii a in
    if (b0 <? 128)%N then b0 :: utf16 r
    else
      match r with
      | EmptyString => []
      | String a1 r1 =>
        let b1 := (N_of_ascii a1 - 128)%N in
        if (b0 <? 224)%N then ((b0 - 192) * 64 + b1)%N :: utf16 r1
        else
          match r1 with
          | EmptyString => []
          | String a2 r2 =>
            let b2 := (N_of_ascii a2 - 128)%N in
            if (b0 <? 240)%N
            then ((b0 - 224) * 4096 + b1 * 64 + b2)%N :: utf16 r2
            else
              match r2 with
              | EmptyString => []
              | String a3 r3 =>
                let b3 := (N_of_ascii a3 - 128)%N in
                let cp := ((b0 - 240) * 262144 + b1 * 4096 + b2 * 64 + b3
                           - 65536)%N in
                (55296 + cp / 1024)%N :: (56320 + cp mod 1024)%N :: utf16 r3
              end
          end
      end
  end.

(** Named code units. *)
Definition DOT : codeunit := 46%N.      (* '.' *)
Definition COMMA : codeunit := 44%N.    (* ',' *)
Definition MINUS : codeunit := 45%N.    (* '-' *)
Definition PLUS : codeunit := 43%N.     (* '+' *)
Definition LPAREN : codeunit := 40%N.   (* '(' *)
Definition RPAREN : codeunit := 41%N.   (* ')' *)
Definition ZERO : codeunit := 48%N.     (* '0' *)

(** [\s] of a regular expression and the characters [String.prototype.trim]
    strips: WhiteSpace and LineTerminator of ECMAScript. *)
Definition isWhiteSpace (c : codeunit) : bool :=
  ((9 <=? c) && (c <=? 13) || (c =? 32) || (c =? 160) || (c =? 5760)
   || (8192 <=? c) && (c <=? 8202) || (c =? 8232) || (c =? 8233)
   || (c =? 8239) || (c =? 8287) || (c =? 12288) || (c =? 65279))%N.

(** [\d]: the ASCII digits only. *)
Definition isDigit (c : codeunit) : bool := ((48 <=? c) && (c <=? 57))%N.

(** [[A-Z]] under the [i] flag (no [u] flag): the ASCII letters of both
    cases; a code unit of 128 or more never folds to an ASCII letter. *)
Definition isLetter (c : codeunit) : bool :=
  ((65 <=? c) && (c <=? 90) || (97 <=? c) && (c <=? 122))%N.

Fixpoint takeWhile (p : codeunit -> bool) (s : jsstring) : jsstring :=
  match s with
  | [] => []
  | c :: r => if p c then c :: takeWhile p r else []
  end.

Fixpoint dropWhile (p : codeunit -> bool) (s : jsstring) : jsstring :=
  match s with
  | [] => []
  | c :: r => if p c then dropWhile p r else s
  end.

(** [String.prototype.trimStart], [trimEnd] and [trim]. *)
Definition trimStart (s : jsstring) : jsstring := dropWhile isWhiteSpace s.
Definition trimEnd (s : jsstring) : jsstring :=
  rev (dropWhile isWhiteSpace (rev s)).
Definition trim (s : jsstring) : jsstring := trimEnd (trimStart s).

(** [s.includes(c)] for a one-character search string. *)
Definition includes (c : codeunit) (s : jsstring) : bool :=
  existsb (N.eqb c) s.

(** [s.lastIndexOf(c)] for a one-character search string: the index of
    the last occurrence, [-1] when there is none. *)
Fixpoint lastIndexOfFrom (c : codeunit) (s : jsstring) (i found : Z) : Z :=
  match s with
  | [] => found
  | x :: r => lastIndexOfFrom c r (i + 1) (if (x =? c)%N then i else found)
  end.

Definition lastIndexOf (c : codeunit) (s : jsstring) : Z :=
  lastIndexOfFrom c s 0 (-1).

(** [s.substring(i)]; a negative index counts as 0. *)
Definition substring (s : jsstring) (i : Z) : jsstring := skipn (Z.to_nat i) s.

(** [s.substring(0, n)]. *)
Definition substringTo (s : jsstring) (n : nat) : jsstring := firstn n s.

(** [s.length]. *)
Definition strLength (s : jsstring) : Z := Z.of_nat (List.length s).

(** [s.split(sep)] for a one-character separator: never the empty array. *)
Fixpoint split (sep : codeunit) (s : jsstring) : list jsstring :=
  match s with
  | [] => [[]]
  | c :: r =>
    if (c =? sep)%N then [] :: split sep r
    else match split sep r with
         | p :: ps => (c :: p) :: ps
         | [] => [[c]]
         end
  end.

(** [parts.join('')]. *)
Definition join (parts : list jsstring) : jsstring := List.concat parts.

(** [s.replace(/c/g, '')] for a single (escaped) character [c], and more
    generally for a character class: every match is deleted. *)
Definition removeAll (p : codeunit -> bool) (s : jsstring) : jsstring :=
  filter (fun c => negb (p c)) s.

(** [/^\d*$/.test(s)]. *)
Definition allDigits (s : jsstring) : bool := forallb isDigit s.

(** *** Numbers *)

(** The Numbers the parser can produce: a finite double whose value is the
    integer [z], an infinity, or NaN.  [Fin 0] stands for both zeros
    ([0 === -0] in JavaScript). *)
Inductive number : Type :=
| Fin (z : Z)
| Inf (negative : bool)
| NaN.

(** Rounds a non-negative integer to the nearest integer with a 53-bit
    significand, ties to even (the exponent is not bounded here). *)
Definition roundTiesToEven (z : Z) : Z :=
  let e := Z.log2 z - 52 in
  if e <=? 0 then z
  else
    let q := z / 2 ^ e in
    let r := z mod 2 ^ e in
    let half := 2 ^ (e - 1) in
    let q' := if r <? half then q
              else if half <? r then q + 1
              else if Z.even q then q else q + 1 in
    q' * 2 ^ e.

(** The Number value for a mathematical integer: rounded to a double,
    an infinity from [2^1024] on. *)
Definition toNumber (z : Z) : number :=
  let m := roundTiesToEven (Z.abs z) in
  if 2 ^ 1024 <=? m then Inf (z <? 0) else Fin (Z.sgn z * m).

(** Unary minus. *)
Definition neg (n : number) : number :=
  match n with
  | Fin z => Fin (- z)
  | Inf b => Inf (negb b)
  | NaN => NaN
  end.

(** [n + k] for an integer [k]. *)
Definition add (n : number) (k : Z) : number :=
  match n with
  | Fin z => toNumber (z + k)
  | _ => n
  end.

(** [n >= k] for an integer [k]; false on NaN. *)
Definition geq (n : number) (k : Z) : bool :=
  match n with
  | Fin z => k <=? z
  | Inf b => negb b
  | NaN => false
  end.

(** The value of a digit in a radix up to 36, if the code unit is one. *)
Definition digitValue (c : codeunit) : option Z :=
  if isDigit c then Some (Z.of_N c - 48)
  else if ((97 <=? c) && (c <=? 122))%N then Some (Z.of_N c - 87)
  else if ((65 <=? c) && (c <=? 90))%N then Some (Z.of_N c - 55)
  else None.

Definition isRadixDigit (R : Z) (c : codeunit) : bool :=
  match digitValue c with
  | Some d => d <? R
  | None => false
  end.

(** The integer written by a string of radix-[R] digits. *)
Fixpoint radixValue (R : Z) (acc : Z) (s : jsstring) : Z :=
  match s with
  | [] => acc
  | c :: r =>
    radixValue R (acc * R + match digitValue c with Some d => d | None => 0 end) r
  end.

(** [parseInt(s)] with no radix argument: leading white space is skipped,
    a sign is read, a [0x] prefix selects radix 16, the longest prefix of
    digits is converted, and NaN is returned when there is none.  The
    digits are converted exactly and then rounded to a double (beyond 20
    significant digits ECMAScript also allows an approximation; engines
    round the exact value). *)
Definition parseInt (input : jsstring) : number :=
  let S0 := trimStart input in
  let negative := match S0 with c :: _ => (c =? MINUS)%N | [] => false end in
  let S1 := match S0 with
            | c :: r => if ((c =? PLUS) || (c =? MINUS))%N then r else S0
            | [] => S0
            end in
  let '(R, S2) :=
    match S1 with
    | z :: x :: r =>
      if ((z =? ZERO) && ((x =? 120) || (x =? 88)))%N then (16, r) else (10, S1)
    | _ => (10, S1)
    end in
  match takeWhile (isRadixDigit R) S2 with
  | [] => NaN
  | ds => let n := toNumber (radixValue R 0 ds) in
          if negative then neg n else n
  end.

(** The decimal digits of a non-negative integer, most significant first. *)
Fixpoint digitsFuel (fuel : nat) (z : Z) (acc : jsstring) : jsstring :=
  let acc' := Z.to_N (48 + z mod 10) :: acc in
  match fuel with
  | O => acc'
  | S fuel' => if z <? 10 then acc' else digitsFuel fuel' (z / 10) acc'
  end.

Definition digits (z : Z) : jsstring :=
  digitsFuel (Z.to_nat (Z.log2 z)) z [].

(** The decimal integer with the fewest significant digits whose Number
    value is the double [x] (the digits [Number.prototype.toString] prints
    for it); [p] is the number of low digits tried as zeros.  Of two
    candidates of one length the closer is taken, the even one on a tie. *)
Fixpoint shortestFrom (p : nat) (x : Z) : Z :=
  let u := 10 ^ Z.of_nat p in
  let lo := x / u * u in
  let hi := lo + u in
  let okLo := match toNumber lo with Fin y => y =? x | _ => false end in
  let okHi := match toNumber hi with Fin y => y =? x | _ => false end in
  if okLo && okHi then
    if x - lo <? hi - x then lo
    else if hi - x <? x - lo then hi
    else if Z.even (lo / u) then lo else hi
  else if okLo then lo
  else if okHi then hi
  else match p with
       | O => x
       | S p' => shortestFrom p' x
       end.

Definition shortest (x : Z) : Z :=
  shortestFrom (List.length (digits x) - 1) x.

Definition str_e_plus : jsstring := Eval cbv in utf16 "e+".
Definition str_Infinity : jsstring := Eval cbv in utf16 "Infinity".
Definition str_NaN : jsstring := Eval cbv in utf16 "NaN".

(** The text of a non-negative decimal integer [v] as [toString] lays it
    out: plain digits up to 21 of them, exponential notation beyond (the
    first digit, then the others up to the last non-zero one after a
    point, then the exponent). *)
Definition render (v : Z) : jsstring :=
  let ds := digits v in
  let n := strLength ds in
  if n <=? 21 then ds
  else
    match ds with
    | [] => []
    | d :: rest =>
      d :: match rev (dropWhile (N.eqb ZERO) (rev rest)) with
           | [] => []
           | fraction => DOT :: fraction
           end
        ++ str_e_plus ++ digits (n - 1)
    end.

(** [n.toString()]. *)
Definition numberToString (n : number) : jsstring :=
  match n with
  | NaN => str_NaN
  | Inf b => (if b then [MINUS] else []) ++ str_Infinity
  | Fin z => (if z <? 0 then [MINUS] else []) ++ render (shortest (Z.abs z))
  end.

(** [s.padStart(n, c)] for a one-character pad string. *)
Definition padStart (n : nat) (c : codeunit) (s : jsstring) : jsstring :=
  repeat c (n - List.length s) ++ s.

(** [s[0]] as far as [parseInt] can tell: the first character, and a text
    with no digit ([undefined]) when there is none. *)
Definition first (s : jsstring) : jsstring := firstn 1 s.

(** [!s] for a string: true on the empty string only. *)
Definition isEmpty (s : jsstring) : bool :=
  match s with [] => true | _ => false end.

End JS.

(** ** Arguments and results of [parseMoney] *)

Module Outcome.
Import JS.

(** The argument of [parseMoney]: a string, or a value of another type. *)
Inductive value : Type :=
| VString (s : jsstring)
| VOther.

(** The errors [parseMoney] throws, by their message; the last two carry
    the original [moneyString]. *)
Inductive error : Type :=
| InputMustBeString                          (* 'Input must be a string' *)
| EmptyMoneyString                           (* 'Empty money string' *)
| InvalidIntegerPart (moneyString : jsstring)
    (* `Invalid characters in integer part: ${moneyString}` *)
| InvalidDecimalPart (moneyString : jsstring).
    (* `Invalid characters in decimal part: ${moneyString}` *)

Inductive outcome : Type :=
| Return (n : number)
| Throw (e : error).

(** The failure kinds of the specification. *)
Inductive errorKind : Type := EmptyInput | InvalidCharacters.

Definition kindOf (e : error) : errorKind :=
  match e with
  | InputMustBeString | EmptyMoneyString => EmptyInput
  | InvalidIntegerPart _ | InvalidDecimalPart _ => InvalidCharacters
  end.

End Outcome.

(** ** [parseMoney] of the standalone script ([parse_money.js]) *)

Module ParseMoney.
Import JS Outcome.

(** The character class of the regular expression of line 36, in the order
    of the source (some symbols are listed twice). *)
Definition currencySymbols : jsstring :=
  [ 36; 8364; 163; 165; 8377; 8381; 8369; 8361; 8362; 8372; 8358; 82; 114;
    8360; 8373; 8370; 8376; 8378; 8380; 8382; 8383; 162; 3647; 8353; 8354;
    8355; 8356; 8357; 8359; 8360; 8362; 8363; 8365; 8366; 8367; 8368; 8369;
    8370; 8371; 8372; 8373; 8374; 8375; 8376; 8377; 8378; 8379; 8380; 8381;
    8382; 8383; 65020; 65129; 65284; 65504; 65505; 65509; 65510 ]%N.

Definition isCurrencySymbol (c : codeunit) : bool :=
  existsb (N.eqb c) currencySymbols.

(** Line 36, [trimmed.replace(/^[...]/g, '')]: the pattern is anchored, so
    at most the first character goes. *)
Definition withoutCurrency (trimmed : jsstring) : jsstring :=
  match trimmed with
  | c :: r => if isCurrencySymbol c then r else trimmed
  | [] => []
  end.

(** Line 39, [.replace(/^[A-Z]{3}\s*/i, '')]. *)
Definition removeLeadingCode (s : jsstring) : jsstring :=
  match s with
  | a :: b :: c :: r =>
    if isLetter a && isLetter b && isLetter c then trimStart r else s
  | _ => s
  end.

(** Line 39, [.replace(/\s*[A-Z]{3}$/i, '')]: the leftmost match takes the
    last three letters and all the white space before them. *)
Definition removeTrailingCode (s : jsstring) : jsstring :=
  match rev s with
  | c :: b :: a :: r =>
    if isLetter a && isLetter b && isLetter c
    then rev (dropWhile isWhiteSpace r) else s
  | _ => s
  end.

(** Lines 36-42: from [trimmed] to [cleanedText]. *)
Definition cleanText (trimmed : jsstring) : jsstring :=
  let withoutCurrency := withoutCurrency trimmed in
  let withoutCode := removeTrailingCode (removeLeadingCode withoutCurrency) in
  trim withoutCode.

(** Lines 46-89: [(decimalSeparator, thousandSeparator)], [None] for
    [null]. *)
Definition separators (cleanedText : jsstring)
  : option codeunit * option codeunit :=
  let lastDotIndex := lastIndexOf DOT cleanedText in
  let lastCommaIndex := lastIndexOf COMMA cleanedText in
  if lastCommaIndex >? lastDotIndex then (Some COMMA, Some DOT)
  else if lastDotIndex >? lastCommaIndex then (Some DOT, Some COMMA)
  else if (lastDotIndex =? -1) && (lastCommaIndex =? -1) then (None, None)
  else if negb (lastDotIndex =? -1) && (lastCommaIndex =? -1) then
    let afterLastDot := substring cleanedText (lastDotIndex + 1) in
    if strLength afterLastDot =? 2 then (Some DOT, Some COMMA)
    else if strLength afterLastDot =? 3 then (None, Some DOT)
    else (Some DOT, Some COMMA)
  else if negb (lastCommaIndex =? -1) && (lastDotIndex =? -1) then
    let afterLastComma := substring cleanedText (lastCommaIndex + 1) in
    if strLength afterLastComma =? 2 then (Some COMMA, Some DOT)
    else if strLength afterLastComma =? 3 then (None, Some COMMA)
    else (Some DOT, Some COMMA)
  else (Some DOT, Some COMMA).

Definition str_0 : jsstring := Eval cbv in utf16 "0".
Definition str_00 : jsstring := Eval cbv in utf16 "00".

(** Lines 91-101: [(integerPart, decimalPart)] as split. *)
Definition splitAmount (cleanedText : jsstring)
  (decimalSeparator : option codeunit) : jsstring * jsstring :=
  match decimalSeparator with
  | Some sep =>
    if includes sep cleanedText then
      let parts := split sep cleanedText in
      (hd [] parts, join (tl parts))
    else (cleanedText, str_00)
  | None => (cleanedText, str_00)
  end.

(** Lines 104-106. *)
Definition removeThousands (thousandSeparator : option codeunit)
  (integerPart : jsstring) : jsstring :=
  match thousandSeparator with
  | Some sep => removeAll (N.eqb sep) integerPart
  | None => integerPart
  end.

(** The class [[-\(\)]] of line 114. *)
Definition isSignMark (c : codeunit) : bool :=
  ((c =? MINUS) || (c =? LPAREN) || (c =? RPAREN))%N.

(** Lines 46-114: [(integerPart, decimalPart, isNegative)] once the text is
    split and the separators, white space and sign marks are removed. *)
Definition amountParts (cleanedText : jsstring) : jsstring * jsstring * bool :=
  let '(decimalSeparator, thousandSeparator) := separators cleanedText in
  let '(integerPart, decimalPart) := splitAmount cleanedText decimalSeparator in
  let integerPart := removeThousands thousandSeparator integerPart in
  let integerPart := removeAll isWhiteSpace integerPart in
  let decimalPart := removeAll isWhiteSpace decimalPart in
  let isNegative := includes MINUS integerPart || includes LPAREN integerPart in
  let integerPart := removeAll isSignMark integerPart in
  (integerPart, decimalPart, isNegative).

(** Lines 125-149: the integer part defaults to "0" and the decimal part
    is brought to two digits. *)
Definition normalizeParts (integerPart decimalPart : jsstring)
  : jsstring * jsstring :=
  let integerPart := if isEmpty integerPart then str_0 else integerPart in
  if isEmpty decimalPart then (integerPart, str_00)
  else if strLength decimalPart =? 1 then (integerPart, decimalPart ++ str_0)
  else if strLength decimalPart >? 2 then
    let extraDigits := substring decimalPart 2 in
    let decimalPart := substringTo decimalPart 2 in
    if geq (parseInt (first extraDigits)) 5 then
      let decimalValue := add (parseInt decimalPart) 1 in
      if geq decimalValue 100
      then (numberToString (add (parseInt integerPart) 1), str_00)
      else (integerPart, padStart 2 ZERO (numberToString decimalValue))
    else (integerPart, decimalPart)
  else (integerPart, decimalPart).

(** Lines 22-155. *)
Definition parseMoney (moneyString : value) : outcome :=
  match moneyString with
  | VOther => Throw InputMustBeString
  | VString input =>
    let trimmed := trim input in
    if isEmpty trimmed then Throw EmptyMoneyString
    else
      let cleanedText := cleanText trimmed in
      let '(integerPart, decimalPart, isNegative) := amountParts cleanedText in
      if negb (allDigits integerPart) then Throw (InvalidIntegerPart input)
      else if negb (allDigits decimalPart) then Throw (InvalidDecimalPart input)
      else
        let '(integerPart, decimalPart) :=
          normalizeParts integerPart decimalPart in
        let result := parseInt (integerPart ++ decimalPart) in
        Return (if isNegative then neg result else result)
  end.

End ParseMoney.

(** ** [parseMoney] of the workflow node ([n8n_parse_money.js]) *)

Module N8n.
Import JS Outcome.

(** The character class of the regular expression of line 31. *)
Definition currencyClass (c : codeunit) : bool :=
  existsb (N.eqb c)
    [ 36; 8364; 163; 165; 8377; 8381; 8369; 8361; 8362; 8372; 8358; 82; 114;
      8360; 8373; 8370; 8376; 8378; 8380; 8382; 8383; 162; 3647; 8353; 8354;
      8355; 8356; 8357; 8359; 8360; 8362; 8363; 8365; 8366; 8367; 8368; 8369;
      8370; 8371; 8372; 8373; 8374; 8375; 8376; 8377; 8378; 8379; 8380; 8381;
      8382; 8383; 65020; 65129; 65284; 65504; 65505; 65509; 65510 ]%N.

(** Lines 18-149, statement by statement. *)
Definition parseMoney (moneyString : value) : outcome :=
  match moneyString with
  | VOther => Throw InputMustBeString
  | VString input =>
    let trimmed := trim input in
    if isEmpty trimmed then Throw EmptyMoneyString
    else
      (* lines 31-37 *)
      let withoutCurrency :=
        match trimmed with
        | c :: r => if currencyClass c then r else trimmed
        | [] => []
        end in
      let withoutLeading :=
        match withoutCurrency with
        | a :: b :: c :: r =>
          if isLetter a && isLetter b && isLetter c then trimStart r
          else withoutCurrency
        | _ => withoutCurrency
        end in
      let withoutCode :=
        match rev withoutLeading with
        | c :: b :: a :: r =>
          if isLetter a && isLetter b && isLetter c
          then rev (dropWhile isWhiteSpace r) else withoutLeading
        | _ => withoutLeading
        end in
      let cleanedText := trim withoutCode in
      (* lines 40-83 *)
      let lastDotIndex := lastIndexOf DOT cleanedText in
      let lastCommaIndex := lastIndexOf COMMA cleanedText in
      let '(decimalSeparator, thousandSeparator) :=
        if lastCommaIndex >? lastDotIndex then (Some COMMA, Some DOT)
        else if lastDotIndex >? lastCommaIndex then (Some DOT, Some COMMA)
        else if (lastDotIndex =? -1) && (lastCommaIndex =? -1)
        then (None, None)
        else if negb (lastDotIndex =? -1) && (lastCommaIndex =? -1) then
          let afterLastDot := substring cleanedText (lastDotIndex + 1) in
          if strLength afterLastDot =? 2 then (Some DOT, Some COMMA)
          else if strLength afterLastDot =? 3 then (None, Some DOT)
          else (Some DOT, Some COMMA)
        else if negb (lastCommaIndex =? -1) && (lastDotIndex =? -1) then
          let afterLastComma := substring cleanedText (lastCommaIndex + 1) in
          if strLength afterLastComma =? 2 then (Some COMMA, Some DOT)
          else if strLength afterLastComma =? 3 then (None, Some COMMA)
          else (Some DOT, Some COMMA)
        else (Some DOT, Some COMMA) in
      (* lines 85-95 *)
      let '(integerPart, decimalPart) :=
        match decimalSeparator with
        | Some sep =>
          if includes sep cleanedText then
            let parts := split sep cleanedText in
            (hd [] parts, join (tl parts))
          else (cleanedText, utf16 "00")
        | None => (cleanedText, utf16 "00")
        end in
      (* lines 98-108 *)
      let integerPart :=
        match thousandSeparator with
        | Some sep => removeAll (N.eqb sep) integerPart
        | None => integerPart
        end in
      let integerPart := removeAll isWhiteSpace integerPart in
      let decimalPart := removeAll isWhiteSpace decimalPart in
      let isNegative :=
        includes MINUS integerPart || includes LPAREN integerPart in
      let integerPart :=
        removeAll (fun c => (c =? MINUS) || (c =? LPAREN) || (c =? RPAREN))%N
          integerPart in
      (* lines 111-117 *)
      if negb (allDigits integerPart) then Throw (InvalidIntegerPart input)
      else if negb (allDigits decimalPart)
      then Throw (InvalidDecimalPart input)
      else
        (* lines 120-143 *)
        let integerPart :=
          if isEmpty integerPart then utf16 "0" else integerPart in
        let '(integerPart, decimalPart) :=
          if isEmpty decimalPart then (integerPart, utf16 "00")
          else if strLength decimalPart =? 1
          then (integerPart, decimalPart ++ utf16 "0")
          else if strLength decimalPart >? 2 then
            let extraDigits := substring decimalPart 2 in
            let decimalPart := substringTo decimalPart 2 in
            if geq (parseInt (first extraDigits)) 5 then
              let decimalValue := add (parseInt decimalPart) 1 in
              if geq decimalValue 100
              then (numberToString (add (parseInt integerPart) 1), utf16 "00")
              else (integerPart,
                    padStart 2 ZERO (numberToString decimalValue))
            else (integerPart, decimalPart)
          else (integerPart, decimalPart) in
        (* lines 146-148 *)
        let result := parseInt (integerPart ++ decimalPart) in
        Return (if isNegative then neg result else result)
  end.

End N8n.

(** ** Numbers with a fractional part *)

Module Doubles.
Import JS.

(** A double in general: [m * 2^e] for integers [m] and [e], an infinity,
    or NaN.  [number] above is the case of an integer value. *)
Inductive double : Type :=
| Dyadic (m e : Z)
| DInf (negative : bool)
| DNaN.

(** [n / d] rounded to the nearest integer, ties to even. *)
Definition roundRatio (n d : Z) : Z :=
  let q := n / d in
  let r := n mod d in
  if 2 * r <? d then q
  else if d <? 2 * r then q + 1
  else if Z.even q then q else q + 1.

(** [a / (b * 2^e)] as a fraction of integers. *)
Definition scaled (a b e : Z) : Z * Z :=
  if e <? 0 then (a * 2 ^ (- e), b) else (a, b * 2 ^ e).

(** The double nearest to the quotient [a / b] of positive integers, as a
    significand of at most 53 bits and an exponent (not below that of the
    subnormal numbers). *)
Definition nearest (a b : Z) : Z * Z :=
  let e0 := Z.log2 a - Z.log2 b - 53 in
  let '(n0, d0) := scaled a b e0 in
  let e1 := if 2 ^ 53 <=? n0 / d0 then e0 + 1 else e0 in
  let e := Z.max e1 (-1074) in
  let '(n, d) := scaled a b e in
  (roundRatio n d, e).

(** The double for the quotient of an integer by a positive integer. *)
Definition ratio (a b : Z) : double :=
  if a =? 0 then Dyadic 0 0
  else
    let '(m, e) := nearest (Z.abs a) b in
    if (0 <=? e) && (2 ^ 1024 <=? m * 2 ^ e) then DInf (a <? 0)
    else Dyadic (Z.sgn a * m) e.

(** [n / k] for a positive integer [k]. *)
Definition divide (n : number) (k : Z) : double :=
  match n with
  | Fin z => ratio z k
  | Inf b => DInf b
  | NaN => DNaN
  end.

(** [n % k] for a positive integer [k]: exact, with the sign of [n]. *)
Definition remainder (n : number) (k : Z) : number :=
  match n with
  | Fin z => Fin (Z.rem z k)
  | _ => NaN
  end.

(** [Math.abs]. *)
Definition abs (n : number) : number :=
  match n with
  | Fin z => Fin (Z.abs z)
  | Inf _ => Inf false
  | NaN => NaN
  end.

(** [n < 0]. *)
Definition negativeNumber (n : number) : bool :=
  match n with
  | Fin z => z <? 0
  | Inf b => b
  | NaN => false
  end.

(** [Math.floor]. *)
Definition floor (x : double) : number :=
  match x with
  | Dyadic m e => Fin (if e <? 0 then m / 2 ^ (- e) else m * 2 ^ e)
  | DInf b => Inf b
  | DNaN => NaN
  end.

(** [Math.round]: the nearest integer, a tie going up. *)
Definition round (x : double) : number :=
  match x with
  | Dyadic m e =>
      Fin (if e <? 0 then (m + 2 ^ (- e - 1)) / 2 ^ (- e) else m * 2 ^ e)
  | DInf b => Inf b
  | DNaN => NaN
  end.

Definition isNaN (x : double) : bool :=
  match x with
  | DNaN => true
  | _ => false
  end.

(** [- x]. *)
Definition negate (x : double) : double :=
  match x with
  | Dyadic m e => Dyadic (- m) e
  | DInf b => DInf (negb b)
  | DNaN => DNaN
  end.

(** The double for [m * 10^e10]. *)
Definition decimal (m e10 : Z) : double :=
  if e10 <? 0 then ratio m (10 ^ (- e10)) else ratio (m * 10 ^ e10) 1.

(** A leading sign and what follows it. *)
Definition signOf (s : jsstring) : bool * jsstring :=
  match s with
  | c :: r =>
      if (c =? MINUS)%N then (true, r)
      else if (c =? PLUS)%N then (false, r)
      else (false, s)
  | [] => (false, s)
  end.

Fixpoint startsWith (prefix s : jsstring) : bool :=
  match prefix, s with
  | [], _ => true
  | p :: prefix', c :: s' => (p =? c)%N && startsWith prefix' s'
  | _ :: _, [] => false
  end.

(** The value of an exponent part at the head of [rest]: 'e' or 'E', an
    optional sign and at least one digit; 0 when there is none. *)
Definition exponentOf (rest : jsstring) : Z :=
  match rest with
  | c :: r =>
      if ((c =? 101) || (c =? 69))%N then
        let '(negative, r) := signOf r in
        let digits := takeWhile isDigit r in
        if isEmpty digits then 0
        else if negative then - radixValue 10 0 digits
        else radixValue 10 0 digits
      else 0
  | [] => 0
  end.

(** [parseFloat]: leading white space is skipped, then the longest prefix
    that is a decimal literal is read (an optional sign, then "Infinity", or
    digits with an optional fraction, or a fraction alone, and an optional
    exponent); NaN when there is none.  The value is the double nearest to
    the literal, whatever the number of its digits. *)
Definition parseFloat (s : jsstring) : double :=
  let '(negative, s) := signOf (trimStart s) in
  let magnitude :=
    if startsWith str_Infinity s then DInf false
    else
      let whole := takeWhile isDigit s in
      let rest := dropWhile isDigit s in
      let '(fraction, rest) :=
        match rest with
        | c :: r =>
            if (c =? DOT)%N then (takeWhile isDigit r, dropWhile isDigit r)
            else ([], rest)
        | [] => ([], rest)
        end in
      if isEmpty whole && isEmpty fraction then DNaN
      else decimal (radixValue 10 0 (whole ++ fraction))
                   (exponentOf rest - strLength fraction) in
  if negative then negate magnitude else magnitude.

End Doubles.

(** ** The decimal rendering of a parsed value *)

Module Display.
Import JS Outcome Doubles.

(** [error.message] of the errors [parseMoney] throws. *)
Definition message (e : error) : jsstring :=
  match e with
  | InputMustBeString => utf16 "Input must be a string"
  | EmptyMoneyString => utf16 "Empty money string"
  | InvalidIntegerPart moneyString =>
      utf16 "Invalid characters in integer part: " ++ moneyString
  | InvalidDecimalPart moneyString =>
      utf16 "Invalid characters in decimal part: " ++ moneyString
  end.

(** The rendering of [parsedValue] as units and hundredths: lines 173-176
    of [n8n_parse_money.js], and lines 218-221 of the standalone script. *)
Definition formatted (parsedValue : number) : jsstring :=
  let dollars := floor (divide (abs parsedValue) 100) in
  let cents := remainder (abs parsedValue) 100 in
  let sign := if negativeNumber parsedValue then [MINUS] else [] in
  sign ++ numberToString dollars ++ [DOT]
       ++ padStart 2 ZERO (numberToString cents).

End Display.

(** ** The workflow node around [parseMoney] ([n8n_parse_money.js]) *)

Module Node.
Import JS Outcome Doubles Display.

(** The values an item of the workflow holds.  An object is the list of
    its bindings, in the order of its keys. *)
#[warnings="-register-all"]
Inductive json : Type :=
| JUndefined
| JNull
| JBoolean (b : bool)
| JNumber (x : double)
| JString (s : jsstring)
| JArray (items : list json)
| JObject (fields : list (jsstring * json)).

Definition object : Type := list (jsstring * json).

Fixpoint sameString (a b : jsstring) : bool :=
  match a, b with
  | [], [] => true
  | x :: a', y :: b' => (x =? y)%N && sameString a' b'
  | _, _ => false
  end.

(** [o[key]], [undefined] for a key the object does not have. *)
Fixpoint get (key : jsstring) (o : object) : json :=
  match o with
  | [] => JUndefined
  | (k, v) :: rest => if sameString k key then v else get key rest
  end.

(** [o[key] = v]: the binding of [key] is replaced where it stands, a new
    key is added last. *)
Fixpoint set (key : jsstring) (v : json) (o : object) : object :=
  match o with
  | [] => [(key, v)]
  | (k, x) :: rest =>
      if sameString k key then (k, v) :: rest else (k, x) :: set key v rest
  end.

(** [v.key] of a value that is neither [undefined] nor [null]: only an
    object has properties of its own. *)
Definition property (v : json) (key : jsstring) : json :=
  match v with
  | JObject fields => get key fields
  | _ => JUndefined
  end.

(** [v?.key]. *)
Definition optionalProperty (v : json) (key : jsstring) : json :=
  match v with
  | JUndefined | JNull => JUndefined
  | _ => property v key
  end.

(** The truth value of [v] in a condition. *)
Definition truthy (v : json) : bool :=
  match v with
  | JUndefined | JNull => false
  | JBoolean b => b
  | JNumber (Dyadic m _) => negb (m =? 0)
  | JNumber (DInf _) => true
  | JNumber DNaN => false
  | JString s => negb (isEmpty s)
  | JArray _ | JObject _ => true
  end.

(** The value as an argument of [parseMoney]. *)
Definition argument (v : json) : value :=
  match v with
  | JString s => VString s
  | _ => VOther
  end.

Definition ofNumber (n : number) : double :=
  match n with
  | Fin z => Dyadic z 0
  | Inf b => DInf b
  | NaN => DNaN
  end.

Definition Answers : jsstring := utf16 "Answers".
Definition Budget : jsstring := utf16 "Budget".
Definition budgetOriginal : jsstring := utf16 "budgetOriginal".
Definition budgetParsed : jsstring := utf16 "budgetParsed".
Definition budgetFormatted : jsstring := utf16 "budgetFormatted".
Definition parseError : jsstring := utf16 "parseError".
Definition missingOrEmpty : jsstring :=
  utf16 "Budget field is missing or empty".

(** The code of the node, lines 151-188: from the item [inputData] to the
    item it returns. *)
Definition run (inputData : object) : object :=
  let budgetString := optionalProperty (get Answers inputData) Budget in
  let output :=
    set parseError JNull
      (set budgetFormatted JNull
        (set budgetParsed JNull
          (set budgetOriginal budgetString inputData))) in
  if truthy budgetString then
    match N8n.parseMoney (argument budgetString) with
    | Return parsedValue =>
        let formatted := formatted parsedValue in
        let output := set budgetParsed (JNumber (ofNumber parsedValue)) output in
        set budgetFormatted (JString formatted) output
    | Throw error => set parseError (JString (message error)) output
    end
  else set parseError (JString missingOrEmpty) output.

End Node.

(** ** The line handler of the standalone script *)

Module Console.
Import JS.

Definition NEWLINE : codeunit := 10%N.

(** What a line handler does to the terminal, call by call. *)
Inductive call : Type :=
| ConsoleLog (text : jsstring)     (* [console.log(text)] *)
| Prompt.                          (* [rl.prompt()]: the prompt is written *)

End Console.

Module Interactive.
Import JS Outcome Doubles Display Console.

(** The handler of a line of input, lines 209-228 of [parse_money.js]: its
    calls of [console.log] and of [rl.prompt], in order.  The prompt is
    "Money value: " (line 206). *)
Definition onLine (userInput : jsstring) : list call :=
  let trimmedInput := trim userInput in
  (if negb (isEmpty trimmedInput) then
     match ParseMoney.parseMoney (VString trimmedInput) with
     | Return result =>
         [ ConsoleLog (utf16 "  → Parsed value: " ++ numberToString result ++
                       utf16 " (in minor units/cents)");
           ConsoleLog (utf16 "  → Equivalent:   " ++ formatted result ++
                       [NEWLINE]) ]
     | Throw error =>
         [ ConsoleLog (utf16 "  ✗ Error: " ++ message error ++ [NEWLINE]) ]
     end
   else [])
  ++ [Prompt].

End Interactive.

(** ** [parseBudget] ([parse_budget.js], and the second node of
    [n8n_parse_money.js]) *)

Module ParseBudget.
Import JS Outcome Doubles.

(** The errors [parseBudget] throws, by their message. *)
Inductive failure : Type :=
| InvalidBudgetString                (* 'Invalid budget string' *)
| CouldNotParseBudgetValue.          (* 'Could not parse budget value' *)

Inductive result : Type :=
| Value (n : number)
| Failure (e : failure).

(** The characters [/[^\d.,-]/g] leaves. *)
Definition kept (c : codeunit) : bool :=
  isDigit c || (c =? DOT)%N || (c =? COMMA)%N || (c =? MINUS)%N.

(** [s.replace(c, d)] for one-character strings: the first [c] only. *)
Fixpoint replaceFirst (c d : codeunit) (s : jsstring) : jsstring :=
  match s with
  | [] => []
  | x :: r => if (x =? c)%N then d :: r else x :: replaceFirst c d r
  end.

Definition parseBudget (budgetString : value) : result :=
  match budgetString with
  | VOther => Failure InvalidBudgetString
  | VString budgetString =>
    if isEmpty (trim budgetString) then Failure InvalidBudgetString
    else
      let cleaned := filter kept budgetString in
      let lastDot := lastIndexOf DOT cleaned in
      let lastComma := lastIndexOf COMMA cleaned in
      let cleaned :=
        if lastDot <? lastComma then
          let afterComma := substring cleaned (lastComma + 1) in
          if strLength afterComma <=? 2 then
            replaceFirst COMMA DOT (removeAll (N.eqb DOT) cleaned)
          else removeAll (N.eqb COMMA) cleaned
        else if lastComma <? lastDot then
          let afterDot := substring cleaned (lastDot + 1) in
          if strLength afterDot <=? 2 then removeAll (N.eqb COMMA) cleaned
          else removeAll (N.eqb DOT) cleaned
        else if negb (lastComma =? -1) then
          let afterComma := substring cleaned (lastComma + 1) in
          if strLength afterComma <=? 2 then replaceFirst COMMA DOT cleaned
          else removeAll (N.eqb COMMA) cleaned
        else if negb (lastDot =? -1) then
          let afterDot := substring cleaned (lastDot + 1) in
          if 2 <? strLength afterDot then removeAll (N.eqb DOT) cleaned
          else cleaned
        else cleaned in
      let value := parseFloat cleaned in
      if isNaN value then Failure CouldNotParseBudgetValue
      else Value (round value)
  end.

(** [error.message] of the errors [parseBudget] throws. *)
Definition message (e : failure) : jsstring :=
  match e with
  | InvalidBudgetString => utf16 "Invalid budget string"
  | CouldNotParseBudgetValue => utf16 "Could not parse budget value"
  end.

End ParseBudget.

(** ** The workflow node around [parseBudget] (the second script of
    [n8n_parse_money.js]) *)

Module BudgetNode.
Import JS Outcome Doubles Node ParseBudget.

Definition budget_int : jsstring := utf16 "budget_int".

(** The code of the node, lines 257-277: from the item [inputData] to the
    item it returns. *)
Definition run (inputData : object) : object :=
  let budgetString := optionalProperty (get Answers inputData) Budget in
  let output := set parseError JNull (set budget_int JNull inputData) in
  if truthy budgetString then
    match parseBudget (argument budgetString) with
    | Value n => set budget_int (JNumber (ofNumber n)) output
    | Failure error => set parseError (JString (message error)) output
    end
  else set parseError (JString missingOrEmpty) output.

End BudgetNode.

(** ** The line handler of [parse_budget.js] *)

Module BudgetInteractive.
Import JS Outcome Doubles ParseBudget Console.

(** The handler of a line of input, lines 134-147: its calls of
    [console.log] and of [rl.prompt], in order.  The prompt is
    "Budget value: " (line 131). *)
Definition onLine (userInput : jsstring) : list call :=
  let trimmedInput := trim userInput in
  (if negb (isEmpty trimmedInput) then
     match parseBudget (VString trimmedInput) with
     | Value result =>
         [ ConsoleLog (utf16 "  → Parsed value: " ++ numberToString result ++
                       [NEWLINE]) ]
     | Failure error =>
         [ ConsoleLog (utf16 "  ✗ Error: " ++ message error ++ [NEWLINE]) ]
     end
   else [])
  ++ [Prompt].

End BudgetInteractive.

(** * Vocabulary of the statements *)

Import JS Outcome ParseMoney.

(** What [trim] leaves starts and ends with a character that is not white
    space, when it leaves anything. *)
Definition solid (s : jsstring) : Prop :=
  (exists c r, s = c :: r /\ isWhiteSpace c = false) /\
  (exists r c, s = r ++ [c] /\ isWhiteSpace c = false).

(** The integer a string of decimal digits writes. *)
Definition digitsValue (s : jsstring) : Z := radixValue 10 0 s.

(** A decimal numeral: an optional '-', digits, and optionally a '.'
    followed by digits. *)
Record numeral : Type := {
  negative : bool;
  whole : jsstring;
  fraction : option jsstring
}.

Definition fractionDigits (d : numeral) : jsstring :=
  match fraction d with Some f => f | None => [] end.

(** The string that writes the numeral. *)
Definition text (d : numeral) : jsstring :=
  (if negative d then [MINUS] else []) ++ whole d ++
  match fraction d with Some f => DOT :: f | None => [] end.

(** Valid: at least one digit before the point, digits only, at most two
    of them after the point. *)
Definition wellFormed (d : numeral) : Prop :=
  whole d <> [] /\ allDigits (whole d) = true /\
  allDigits (fractionDigits d) = true /\
  (List.length (fractionDigits d) <= 2)%nat.

(** A hundred times the numeral: an integer, as it has at most two
    fractional digits. *)
Definition hundredfold (d : numeral) : Z :=
  (if negative d then -1 else 1) *
  (digitsValue (whole d) * 100 +
   digitsValue (fractionDigits d) * 10 ^ (2 - strLength (fractionDigits d))).

(** A character that no cleaning step touches at either end of a text. *)
Definition plain (c : codeunit) : Prop :=
  isWhiteSpace c = false /\ isLetter c = false /\ isCurrencySymbol c = false.

(** The integer part and the decimal part of an input once it is cleaned
    and split and the separators, white space and sign marks are gone
    (the values tested on lines 117 and 121). *)
Definition integerPartOf (input : jsstring) : jsstring :=
  fst (fst (amountParts (cleanText (trim input)))).

Definition decimalPartOf (input : jsstring) : jsstring :=
  snd (fst (amountParts (cleanText (trim input)))).

(** [parseMoney] fails on [v] with an error of kind [k]. *)
Definition failsWith (v : value) (k : errorKind) : Prop :=
  exists e, parseMoney v = Throw e /\ kindOf e = k.

(** The argument is not a string, or is empty once trimmed. *)
Definition blank (v : value) : Prop :=
  match v with
  | VOther => True
  | VString s => trim s = []
  end.

(** The argument is a string, not blank, whose integer part or decimal
    part keeps a character that is not a digit. *)
Definition leftover (v : value) : Prop :=
  match v with
  | VOther => False
  | VString s =>
    trim s <> [] /\
    (allDigits (integerPartOf s) = false \/ allDigits (decimalPartOf s) = false)
  end.

(** The text begins with three letters (a currency code). *)
Definition leadingCode (t : jsstring) : bool :=
  match t with
  | a :: b :: c :: _ => isLetter a && isLetter b && isLetter c
  | _ => false
  end.

(** The text begins with a recognised currency symbol or with a code. *)
Definition leadingSymbolOrCode (t : jsstring) : bool :=
  match t with
  | c :: _ => isCurrencySymbol c || leadingCode t
  | [] => false
  end.

(** No character of the string is '-', '(' or ')'. *)
Definition unsigned (s : jsstring) : Prop :=
  forall c, In c s -> isSignMark c = false.

(** An amount text with no amount: a currency symbol alone, a three-letter
    code alone that does not begin with a currency symbol, or a symbol,
    white space and a code. *)
Inductive currencyOnly : jsstring -> Prop :=
| SymbolOnly sym :
    isCurrencySymbol sym = true -> currencyOnly [sym]
| CodeOnly a b c :
    isLetter a && isLetter b && isLetter c = true ->
    isCurrencySymbol a = false -> currencyOnly [a; b; c]
| SymbolThenCode sym w a b c :
    isCurrencySymbol sym = true -> forallb isWhiteSpace w = true ->
    isLetter a && isLetter b && isLetter c = true ->
    currencyOnly (sym :: w ++ [a; b; c]).

(** An outcome without the input text that an error carries: what two
    runs on different inputs can have in common. *)
Definition verdict (o : outcome) : outcome :=
  match o with
  | Throw (InvalidIntegerPart _) => Throw (InvalidIntegerPart [])
  | Throw (InvalidDecimalPart _) => Throw (InvalidDecimalPart [])
  | _ => o
  end.

(** '.' for ',' and ',' for '.'. *)
Definition swapSeparator (c : codeunit) : codeunit :=
  if (c =? DOT)%N then COMMA else if (c =? COMMA)%N then DOT else c.

Definition exchange (s : jsstring) : jsstring := map swapSeparator s.

(** A character of the integer part of a grouped amount: a digit, a comma
    or white space. *)
Definition groupChar (c : codeunit) : bool :=
  isDigit c || (c =? COMMA)%N || isWhiteSpace c.

(** What may stand before the amount: nothing, a currency symbol, a code
    that does not begin with a currency symbol, or a symbol directly
    followed by a code; white space may follow. *)
Inductive decorationBefore : jsstring -> Prop :=
| BeforeNothing : decorationBefore []
| BeforeSymbol sym w :
    isCurrencySymbol sym = true -> forallb isWhiteSpace w = true ->
    decorationBefore (sym :: w)
| BeforeCode a b c w :
    isLetter a && isLetter b && isLetter c = true ->
    isCurrencySymbol a = false -> forallb isWhiteSpace w = true ->
    decorationBefore ([a; b; c] ++ w)
| BeforeSymbolCode sym a b c w :
    isCurrencySymbol sym = true ->
    isLetter a && isLetter b && isLetter c = true ->
    forallb isWhiteSpace w = true ->
    decorationBefore (sym :: [a; b; c] ++ w).

(** What may stand after the amount: nothing, or white space and a code. *)
Inductive decorationAfter : jsstring -> Prop :=
| AfterNothing : decorationAfter []
| AfterCode w a b c :
    forallb isWhiteSpace w = true ->
    isLetter a && isLetter b && isLetter c = true ->
    decorationAfter (w ++ [a; b; c]).

(** A text that begins and ends with a character that is neither white
    space, nor a letter, nor a currency symbol. *)
Definition plainEnds (t : jsstring) : Prop :=
  (exists x r, t = x :: r /\ plain x) /\ (exists r y, t = r ++ [y] /\ plain y).

(** [n / d] rounded to the nearest integer, a half going up. *)
Definition halfUp (n d : Z) : Z := (2 * n + d) / (2 * d).

(** A digit or a comma. *)
Definition digitOrComma (c : codeunit) : bool := isDigit c || (c =? COMMA)%N.

(** A digit or the given separator. *)
Definition digitOr (sep c : codeunit) : bool := isDigit c || (c =? sep)%N.

(** An optional '-' before a text. *)
Definition signed (negative : bool) (t : jsstring) : jsstring :=
  (if negative then [MINUS] else []) ++ t.

(** What lines 34-71 of [parse_budget.js] make of the kept characters: the
    text handed to [parseFloat]. *)
Definition resolved (cleaned : jsstring) : jsstring :=
  let lastDot := lastIndexOf DOT cleaned in
  let lastComma := lastIndexOf COMMA cleaned in
  if lastDot <? lastComma then
    let afterComma := substring cleaned (lastComma + 1) in
    if strLength afterComma <=? 2 then
      ParseBudget.replaceFirst COMMA DOT (removeAll (N.eqb DOT) cleaned)
    else removeAll (N.eqb COMMA) cleaned
  else if lastComma <? lastDot then
    let afterDot := substring cleaned (lastDot + 1) in
    if strLength afterDot <=? 2 then removeAll (N.eqb COMMA) cleaned
    else removeAll (N.eqb DOT) cleaned
  else if negb (lastComma =? -1) then
    let afterComma := substring cleaned (lastComma + 1) in
    if strLength afterComma <=? 2 then
      ParseBudget.replaceFirst COMMA DOT cleaned
    else removeAll (N.eqb COMMA) cleaned
  else if negb (lastDot =? -1) then
    let afterDot := substring cleaned (lastDot + 1) in
    if 2 <? strLength afterDot then removeAll (N.eqb DOT) cleaned
    else cleaned
  else cleaned.

(** One of '.', ',' and '-'. *)
Definition mark (c : codeunit) : bool :=
  (c =? DOT)%N || (c =? COMMA)%N || (c =? MINUS)%N.

(** The keys the workflow node writes. *)
Definition reserved (key : jsstring) : bool :=
  Node.sameString Node.budgetOriginal key ||
  Node.sameString Node.budgetParsed key ||
  Node.sameString Node.budgetFormatted key ||
  Node.sameString Node.parseError key.

(** * Properties *)

(** ** Literals *)

(** The literals of this file are read as the code units JavaScript sees. *)
Lemma utf16_examples :
  utf16 "$1,5" = [36; 49; 44; 53]%N /\
  utf16 "€£¥₹" = [8364; 163; 165; 8377]%N /\
  forallb isCurrencySymbol (utf16 "$€£¥₹₽₱₩₪₴₦Rr﷼﹩＄￠￡￥￦") = true.
Proof. repeat split; vm_compute; reflexivity. Qed.

(** ** Code units *)

Ltac bool_hyps :=
  repeat match goal with
  | H : andb _ _ = true |- _ => apply andb_true_iff in H; destruct H
  | H : orb _ _ = true |- _ => apply orb_true_iff in H; destruct H
  | H : orb _ _ = false |- _ => apply orb_false_iff in H; destruct H
  | H : andb _ _ = false |- _ => apply andb_false_iff in H; destruct H
  | H : negb _ = true |- _ => apply negb_true_iff in H
  | H : negb _ = false |- _ => apply negb_false_iff in H
  | H : N.leb _ _ = true |- _ => apply N.leb_le in H
  | H : N.leb _ _ = false |- _ => apply N.leb_gt in H
  | H : N.eqb _ _ = true |- _ => apply N.eqb_eq in H
  | H : N.eqb _ _ = false |- _ => apply N.eqb_neq in H
  | H : false = true |- _ => discriminate H
  | H : true = false |- _ => discriminate H
  end.

(** Decides a boolean fact about a code unit from range facts on it. *)
Ltac char_false :=
  match goal with
  | |- ?b = false =>
    let E := fresh "E" in
    destruct b eqn:E; [exfalso; bool_hyps; try lia | reflexivity]
  end.

Section CodeUnits.

Variable c : codeunit.
Hypothesis digit : isDigit c = true.

Lemma digit_not_space : isWhiteSpace c = false.
Proof. unfold isDigit, isWhiteSpace in *. bool_hyps. char_false. Qed.

Lemma digit_not_letter : isLetter c = false.
Proof. unfold isDigit, isLetter in *. bool_hyps. char_false. Qed.

Lemma digit_not_sign : ParseMoney.isSignMark c = false.
Proof.
  unfold isDigit, ParseMoney.isSignMark, MINUS, LPAREN, RPAREN in *.
  bool_hyps. char_false.
Qed.

Lemma digit_not_currency : ParseMoney.isCurrencySymbol c = false.
Proof.
  unfold isDigit, ParseMoney.isCurrencySymbol, ParseMoney.currencySymbols in *.
  cbn [existsb]. bool_hyps. char_false.
Qed.

Lemma digit_not_dot : (DOT =? c)%N = false.
Proof. unfold isDigit, DOT in *. bool_hyps. char_false. Qed.

Lemma digit_not_comma : (COMMA =? c)%N = false.
Proof. unfold isDigit, COMMA in *. bool_hyps. char_false. Qed.

Lemma digit_not_minus : (MINUS =? c)%N = false.
Proof. unfold isDigit, MINUS in *. bool_hyps. char_false. Qed.

Lemma digit_not_lparen : (LPAREN =? c)%N = false.
Proof. unfold isDigit, LPAREN in *. bool_hyps. char_false. Qed.

Lemma digit_value : digitValue c = Some (Z.of_N c - 48).
Proof. unfold digitValue. now rewrite digit. Qed.

Lemma digit_range : 0 <= Z.of_N c - 48 <= 9.
Proof. unfold isDigit in *. bool_hyps. lia. Qed.

Lemma digit_radix10 : isRadixDigit 10 c = true.
Proof.
  unfold isRadixDigit. rewrite digit_value.
  apply Z.ltb_lt. pose proof digit_range. lia.
Qed.

End CodeUnits.

(** ** Prefixes, suffixes and trimming *)

Lemma takeWhile_dropWhile p s : takeWhile p s ++ dropWhile p s = s.
Proof.
  induction s as [|x r IH]; cbn; [reflexivity|].
  destruct (p x); cbn; [now rewrite IH | reflexivity].
Qed.

Lemma takeWhile_all p s : forallb p s = true -> takeWhile p s = s.
Proof.
  induction s as [|x r IH]; cbn; [reflexivity|].
  intros H. apply andb_true_iff in H as [Hx Hr]. now rewrite Hx, IH.
Qed.

Lemma takeWhile_forallb p s : forallb p (takeWhile p s) = true.
Proof.
  induction s as [|x r IH]; cbn; [reflexivity|].
  destruct (p x) eqn:E; cbn; [now rewrite E | reflexivity].
Qed.

Lemma dropWhile_all p s : forallb p s = true -> dropWhile p s = [].
Proof.
  induction s as [|x r IH]; cbn; [reflexivity|].
  intros H. apply andb_true_iff in H as [Hx Hr]. now rewrite Hx, IH.
Qed.

Lemma dropWhile_app p a b :
  forallb p a = true -> dropWhile p (a ++ b) = dropWhile p b.
Proof.
  induction a as [|x r IH]; cbn; [reflexivity|].
  intros H. apply andb_true_iff in H as [Hx Hr]. now rewrite Hx, IH.
Qed.

Lemma dropWhile_head p x r : p x = false -> dropWhile p (x :: r) = x :: r.
Proof. intros H. cbn. now rewrite H. Qed.

Lemma trimEnd_nil : trimEnd [] = [].
Proof. reflexivity. Qed.

Lemma trimEnd_snoc s c :
  isWhiteSpace c = false -> trimEnd (s ++ [c]) = s ++ [c].
Proof.
  intros H. unfold trimEnd. rewrite rev_app_distr. cbn. rewrite H.
  cbn. now rewrite rev_involutive.
Qed.

Lemma trimEnd_snoc_space s c :
  isWhiteSpace c = true -> trimEnd (s ++ [c]) = trimEnd s.
Proof.
  intros H. unfold trimEnd. rewrite rev_app_distr. cbn. now rewrite H.
Qed.

Lemma trimEnd_app a b : trimEnd b <> [] -> trimEnd (a ++ b) = a ++ trimEnd b.
Proof.
  induction b as [|c b IH] using rev_ind; intros H.
  - now contradiction H.
  - destruct (isWhiteSpace c) eqn:E.
    + rewrite trimEnd_snoc_space in H |- * by assumption.
      rewrite app_assoc, trimEnd_snoc_space by assumption. now apply IH.
    + rewrite app_assoc, !trimEnd_snoc by assumption.
      now rewrite app_assoc.
Qed.

Lemma forallb_reverse (p : codeunit -> bool) s :
  forallb p (rev s) = forallb p s.
Proof.
  induction s as [|x r IH]; cbn; [reflexivity|].
  rewrite forallb_app, IH. cbn. rewrite andb_true_r. apply andb_comm.
Qed.

Lemma trimEnd_spaces w : forallb isWhiteSpace w = true -> trimEnd w = [].
Proof.
  intros H. unfold trimEnd. rewrite dropWhile_all; [reflexivity|].
  now rewrite forallb_reverse.
Qed.

Lemma trimEnd_solid s : solid s -> trimEnd s = s.
Proof. intros [_ (r & c & -> & H)]. now apply trimEnd_snoc. Qed.

Lemma trimStart_solid s : solid s -> trimStart s = s.
Proof. intros [(c & r & -> & H) _]. now apply dropWhile_head. Qed.

Lemma trim_solid s : solid s -> trim s = s.
Proof.
  intros H. unfold trim. rewrite trimStart_solid by assumption.
  now apply trimEnd_solid.
Qed.

Lemma trimEnd_head c r :
  isWhiteSpace c = false -> exists r', trimEnd (c :: r) = c :: r'.
Proof.
  intros H. induction r as [|x r IH] using rev_ind.
  - exists []. now apply (trimEnd_snoc []).
  - destruct (isWhiteSpace x) eqn:E.
    + rewrite app_comm_cons, trimEnd_snoc_space by assumption. exact IH.
    + rewrite app_comm_cons, trimEnd_snoc by assumption. now exists (r ++ [x]).
Qed.

Lemma trimEnd_last s :
  trimEnd s <> [] ->
  exists r c, trimEnd s = r ++ [c] /\ isWhiteSpace c = false.
Proof.
  induction s as [|x s IH] using rev_ind; intros H.
  - now contradiction H.
  - destruct (isWhiteSpace x) eqn:E.
    + rewrite trimEnd_snoc_space in H |- * by assumption. now apply IH.
    + rewrite trimEnd_snoc by assumption. now exists s, x.
Qed.

Lemma trimEnd_solid_head c r :
  isWhiteSpace c = false -> solid (trimEnd (c :: r)).
Proof.
  intros H. split.
  - destruct (trimEnd_head c r H) as [r' E]. now exists c, r'.
  - apply trimEnd_last. destruct (trimEnd_head c r H) as [r' E].
    now rewrite E.
Qed.

Lemma trimStart_head s :
  trimStart s <> [] ->
  exists c r, trimStart s = c :: r /\ isWhiteSpace c = false.
Proof.
  unfold trimStart. induction s as [|x s IH]; cbn; intros H.
  - now contradiction H.
  - destruct (isWhiteSpace x) eqn:E; [now apply IH | now exists x, s].
Qed.

(** A non-empty [trim s] is solid. *)
Lemma trim_is_solid s : trim s <> [] -> solid (trim s).
Proof.
  unfold trim. intros H.
  destruct (trimStart s) as [|c r] eqn:E; [now contradiction H|].
  destruct (trimStart_head s) as (c' & r' & E' & Hc); [now rewrite E|].
  rewrite E in E'. injection E' as <- <-. now apply trimEnd_solid_head.
Qed.

(** ** Searching and splitting *)

Lemma lastIndexOfFrom_shift c s : forall i found,
  lastIndexOfFrom c s i found =
  if lastIndexOf c s <? 0 then found else i + lastIndexOf c s.
Proof.
  unfold lastIndexOf.
  induction s as [|x r IH]; intros i found; cbn; [reflexivity|].
  rewrite (IH (i + 1)), (IH 1).
  destruct (lastIndexOfFrom c r 0 (-1) <? 0) eqn:E.
  - destruct (x =? c)%N; cbn; f_equal; lia.
  - apply Z.ltb_ge in E.
    destruct (1 + lastIndexOfFrom c r 0 (-1) <? 0) eqn:E'; [|lia].
    apply Z.ltb_lt in E'. lia.
Qed.

Lemma lastIndexOf_cons c x r :
  lastIndexOf c (x :: r) =
  if lastIndexOf c r <? 0 then (if (x =? c)%N then 0 else -1)
  else 1 + lastIndexOf c r.
Proof.
  unfold lastIndexOf at 1. cbn. now rewrite lastIndexOfFrom_shift.
Qed.

Lemma lastIndexOf_bounds c s : -1 <= lastIndexOf c s < strLength s.
Proof.
  unfold strLength. induction s as [|x r IH].
  - cbn. lia.
  - rewrite lastIndexOf_cons. cbn [List.length].
    destruct (lastIndexOf c r <? 0) eqn:E; [destruct (x =? c)%N|]; lia.
Qed.

(** [lastIndexOf] is [-1] exactly when the character does not occur. *)
Lemma lastIndexOf_absent c s :
  lastIndexOf c s = -1 <-> includes c s = false.
Proof.
  induction s as [|x r IH]; [now cbn|].
  rewrite lastIndexOf_cons. pose proof (lastIndexOf_bounds c r).
  change (includes c (x :: r)) with ((c =? x)%N || includes c r).
  rewrite (N.eqb_sym c x).
  destruct (lastIndexOf c r <? 0) eqn:E.
  - apply Z.ltb_lt in E. assert (E' : lastIndexOf c r = -1) by lia.
    apply IH in E'. rewrite E'.
    destruct (x =? c)%N; cbn; split; intros; try reflexivity; discriminate.
  - apply Z.ltb_ge in E. destruct (includes c r) eqn:I.
    + rewrite orb_true_r. split; intros; [lia | discriminate].
    + assert (lastIndexOf c r = -1) by now apply IH. lia.
Qed.

Lemma lastIndexOf_present c s :
  includes c s = true -> 0 <= lastIndexOf c s.
Proof.
  intros H. pose proof (lastIndexOf_bounds c s).
  destruct (Z.eq_dec (lastIndexOf c s) (-1)) as [E|E]; [|lia].
  apply lastIndexOf_absent in E. congruence.
Qed.

(** At a found index the string holds the character, and no later position
    does. *)
Lemma lastIndexOf_spec c s :
  0 <= lastIndexOf c s ->
  nth_error s (Z.to_nat (lastIndexOf c s)) = Some c /\
  includes c (substring s (lastIndexOf c s + 1)) = false.
Proof.
  unfold substring. induction s as [|x r IH]; [cbn; lia|].
  rewrite lastIndexOf_cons. pose proof (lastIndexOf_bounds c r).
  destruct (lastIndexOf c r <? 0) eqn:E.
  - apply Z.ltb_lt in E. assert (E' : lastIndexOf c r = -1) by lia.
    apply lastIndexOf_absent in E'.
    destruct (x =? c)%N eqn:X; [|lia]. intros _.
    apply N.eqb_eq in X. subst x. now cbn.
  - apply Z.ltb_ge in E. intros _. destruct (IH E) as [IH1 IH2].
    replace (Z.to_nat (1 + lastIndexOf c r))
      with (S (Z.to_nat (lastIndexOf c r))) by lia.
    replace (Z.to_nat (1 + lastIndexOf c r + 1))
      with (S (Z.to_nat (lastIndexOf c r + 1))) by lia.
    now cbn.
Qed.

(** Two different characters are never last found at one index. *)
Lemma lastIndexOf_distinct c d s :
  c <> d -> lastIndexOf c s = lastIndexOf d s -> lastIndexOf c s = -1.
Proof.
  intros N E. pose proof (lastIndexOf_bounds c s).
  destruct (Z.eq_dec (lastIndexOf c s) (-1)) as [|F]; [assumption|].
  assert (P : 0 <= lastIndexOf c s) by lia.
  destruct (lastIndexOf_spec c s P) as [Hc _].
  rewrite E in P. destruct (lastIndexOf_spec d s P) as [Hd _].
  rewrite <- E in Hd. congruence.
Qed.

Lemma lastIndexOf_app c p s :
  includes c p = false ->
  lastIndexOf c (p ++ s) =
  if lastIndexOf c s <? 0 then -1 else strLength p + lastIndexOf c s.
Proof.
  unfold strLength. induction p as [|x p IH]; intros H.
  - cbn [app List.length]. pose proof (lastIndexOf_bounds c s).
    destruct (lastIndexOf c s <? 0) eqn:E; [apply Z.ltb_lt in E|]; lia.
  - cbn in H. apply orb_false_iff in H as [Hx Hp].
    cbn [app]. rewrite lastIndexOf_cons, (IH Hp).
    rewrite N.eqb_sym in Hx. rewrite Hx.
    pose proof (lastIndexOf_bounds c s).
    destruct (lastIndexOf c s <? 0) eqn:E; [reflexivity|].
    apply Z.ltb_ge in E. cbn [List.length].
    destruct (Z.of_nat (List.length p) + lastIndexOf c s <? 0) eqn:E';
      [apply Z.ltb_lt in E'|]; lia.
Qed.

Lemma includes_app c a b : includes c (a ++ b) = includes c a || includes c b.
Proof. apply existsb_app. Qed.

Lemma includes_false_forall c s :
  includes c s = false <-> forall x, In x s -> (c =? x)%N = false.
Proof.
  induction s as [|y r IH]; cbn.
  - split; [intros _ x [] | reflexivity].
  - rewrite orb_false_iff, IH. split.
    + intros [Hy Hr] x [<-|Hx]; auto.
    + intros H. split; [apply H; now left | intros x Hx; apply H; now right].
Qed.

Lemma includes_digits c s :
  isDigit c = false -> allDigits s = true -> includes c s = false.
Proof.
  intros Hc Hs. apply includes_false_forall. intros x Hx.
  unfold allDigits in Hs. rewrite forallb_forall in Hs.
  destruct (c =? x)%N eqn:E; [|reflexivity].
  apply N.eqb_eq in E. subst x. rewrite (Hs c Hx) in Hc. discriminate.
Qed.

(** The separator roles depend only on which of the two last indices is the
    larger: the two "only one kind" branches of lines 65-89 are never
    reached, because an absent character has index [-1], below any found
    index. *)
Lemma separators_by_order s :
  ParseMoney.separators s =
  if lastIndexOf COMMA s >? lastIndexOf DOT s then (Some COMMA, Some DOT)
  else if lastIndexOf DOT s >? lastIndexOf COMMA s then (Some DOT, Some COMMA)
  else (None, None).
Proof.
  unfold ParseMoney.separators.
  destruct (lastIndexOf COMMA s >? lastIndexOf DOT s) eqn:E1; [reflexivity|].
  destruct (lastIndexOf DOT s >? lastIndexOf COMMA s) eqn:E2; [reflexivity|].
  assert (E : lastIndexOf DOT s = lastIndexOf COMMA s) by lia.
  assert (D : lastIndexOf DOT s = -1)
    by (apply (lastIndexOf_distinct DOT COMMA); [discriminate | assumption]).
  rewrite <- E, D. reflexivity.
Qed.

Lemma split_absent sep s : includes sep s = false -> split sep s = [s].
Proof.
  induction s as [|x r IH]; cbn; [reflexivity|].
  intros H. apply orb_false_iff in H as [Hx Hr].
  rewrite N.eqb_sym in Hx. now rewrite Hx, IH.
Qed.

Lemma split_app sep p s :
  includes sep p = false ->
  split sep (p ++ s) = (p ++ hd [] (split sep s)) :: tl (split sep s).
Proof.
  induction p as [|x p IH]; intros H.
  - cbn [app]. destruct s as [|y r]; [reflexivity|]. cbn.
    destruct (y =? sep)%N; [reflexivity|]. now destruct (split sep r).
  - cbn in H. apply orb_false_iff in H as [Hx Hp]. rewrite N.eqb_sym in Hx.
    cbn. now rewrite Hx, (IH Hp).
Qed.

Lemma split_at sep p r :
  includes sep p = false -> split sep (p ++ sep :: r) = p :: split sep r.
Proof.
  intros H. rewrite split_app by assumption. cbn.
  now rewrite N.eqb_refl, app_nil_r.
Qed.

Lemma removeAll_app p a b :
  removeAll p (a ++ b) = removeAll p a ++ removeAll p b.
Proof. apply filter_app. Qed.

Lemma removeAll_none p s :
  (forall x, In x s -> p x = false) -> removeAll p s = s.
Proof.
  unfold removeAll. induction s as [|x r IH]; cbn; intros H; [reflexivity|].
  rewrite (H x) by now left. cbn. f_equal. apply IH. intros; apply H; now right.
Qed.

Lemma removeAll_all p s : forallb p s = true -> removeAll p s = [].
Proof.
  unfold removeAll. induction s as [|x r IH]; cbn; [reflexivity|].
  intros H. apply andb_true_iff in H as [Hx Hr]. rewrite Hx. cbn. now apply IH.
Qed.

Lemma removeAll_subset p s x : In x (removeAll p s) -> In x s.
Proof. unfold removeAll. intros H. now apply filter_In in H. Qed.

Lemma removeAll_digits p s :
  (forall x, isDigit x = true -> p x = false) ->
  allDigits s = true -> removeAll p s = s.
Proof.
  intros Hp Hs. apply removeAll_none. intros x Hx. apply Hp.
  unfold allDigits in Hs. rewrite forallb_forall in Hs. auto.
Qed.

(** ** Numbers *)

Lemma radixValue_app R acc a b :
  radixValue R acc (a ++ b) = radixValue R (radixValue R acc a) b.
Proof. revert acc. induction a as [|x a IH]; intros acc; cbn; auto. Qed.

Lemma radixValue_acc R acc s :
  radixValue R acc s = acc * R ^ strLength s + radixValue R 0 s.
Proof.
  unfold strLength. revert acc.
  induction s as [|x r IH]; intros acc.
  - cbn. lia.
  - cbn [radixValue List.length]. rewrite IH, (IH (0 * R + _)).
    rewrite Nat2Z.inj_succ, Z.pow_succ_r by lia. ring.
Qed.

Lemma digitsValue_app a b :
  digitsValue (a ++ b) = digitsValue a * 10 ^ strLength b + digitsValue b.
Proof.
  unfold digitsValue. now rewrite radixValue_app, radixValue_acc.
Qed.

Lemma digitsValue_bounds s :
  allDigits s = true -> 0 <= digitsValue s < 10 ^ strLength s.
Proof.
  unfold digitsValue, strLength, allDigits.
  induction s as [|x r IH]; intros H.
  - cbn. lia.
  - cbn in H. apply andb_true_iff in H as [Hx Hr].
    cbn [radixValue List.length]. rewrite radixValue_acc.
    rewrite (digit_value x Hx). pose proof (digit_range x Hx).
    specialize (IH Hr). unfold strLength.
    rewrite Nat2Z.inj_succ, Z.pow_succ_r by lia.
    assert (0 < 10 ^ Z.of_nat (List.length r)) by (apply Z.pow_pos_nonneg; lia).
    nia.
Qed.

Lemma allDigits_app a b : allDigits (a ++ b) = allDigits a && allDigits b.
Proof. apply forallb_app. Qed.

(** On a non-empty string of decimal digits [parseInt] reads all of it. *)
Lemma parseInt_digits s :
  allDigits s = true -> s <> [] -> parseInt s = toNumber (digitsValue s).
Proof.
  intros H Hne. destruct s as [|c r]; [now contradiction Hne|].
  pose proof H as H'. cbn in H'. apply andb_true_iff in H' as [Hc Hr].
  unfold parseInt, trimStart. rewrite dropWhile_head by now apply digit_not_space.
  assert (M : (c =? MINUS)%N = false)
    by (rewrite N.eqb_sym; now apply digit_not_minus).
  assert (P : (c =? PLUS)%N = false)
    by (unfold isDigit, PLUS in *; bool_hyps; char_false).
  rewrite M, P. cbn [orb].
  assert (T : takeWhile (isRadixDigit 10) (c :: r) = c :: r).
  { apply takeWhile_all. apply forallb_forall. intros x Hx.
    apply digit_radix10. unfold allDigits in H.
    rewrite forallb_forall in H. auto. }
  destruct r as [|x r'].
  - now rewrite T.
  - assert (X : ((x =? 120) || (x =? 88))%N = false).
    { cbn in Hr. apply andb_true_iff in Hr as [Hx _].
      unfold isDigit in Hx. bool_hyps. char_false. }
    rewrite X, andb_false_r. now rewrite T.
Qed.

Lemma roundTiesToEven_small z : 0 <= z < 2 ^ 53 -> roundTiesToEven z = z.
Proof.
  intros H. unfold roundTiesToEven.
  assert (L : Z.log2 z - 52 <= 0).
  { destruct (Z.eq_dec z 0) as [->|N]; [cbn; lia|].
    assert (Z.log2 z < 53) by (apply Z.log2_lt_pow2; lia). lia. }
  apply Z.leb_le in L. now rewrite L.
Qed.

Section Rounding.

Variable z : Z.
Hypothesis large : 2 ^ 53 <= z.

Let e := Z.log2 z - 52.

Lemma rounding_exponent : 0 < e.
Proof.
  subst e. assert (53 <= Z.log2 z); [|lia].
  apply Z.log2_le_pow2; lia.
Qed.

Lemma rounding_quotient : 2 ^ 52 <= z / 2 ^ e < 2 ^ 53.
Proof.
  pose proof rounding_exponent as He.
  assert (P : 0 < z) by lia.
  destruct (Z.log2_spec z P) as [Lo Hi].
  assert (E : Z.log2 z = e + 52) by (subst e; lia).
  rewrite E in Lo. replace (Z.succ (Z.log2 z)) with (e + 53) in Hi by lia.
  rewrite Z.pow_add_r in Lo, Hi by lia.
  assert (0 < 2 ^ e) by (apply Z.pow_pos_nonneg; lia).
  split.
  - apply Z.div_le_lower_bound; lia.
  - apply Z.div_lt_upper_bound; lia.
Qed.

Lemma roundTiesToEven_large :
  2 ^ 53 <= roundTiesToEven z <= 2 * z.
Proof.
  pose proof rounding_exponent as He. pose proof rounding_quotient as Hq.
  unfold roundTiesToEven. fold e.
  destruct (e <=? 0) eqn:E; [apply Z.leb_le in E; lia|].
  assert (P : 0 < 2 ^ e) by (apply Z.pow_pos_nonneg; lia).
  assert (T : 2 <= 2 ^ e).
  { replace e with (1 + (e - 1)) by lia. rewrite Z.pow_add_r by lia.
    assert (0 < 2 ^ (e - 1)) by (apply Z.pow_pos_nonneg; lia). lia. }
  pose proof (Z.div_mod z (2 ^ e) ltac:(lia)) as DM.
  pose proof (Z.mod_pos_bound z (2 ^ e) P) as MB.
  set (q := z / 2 ^ e) in *. set (r := z mod 2 ^ e) in *.
  assert (Q : forall q', q <= q' <= q + 1 ->
                         2 ^ 53 <= q' * 2 ^ e <= 2 * z).
  { intros q' Hq'. change (2 ^ 53) with (2 ^ 52 * 2). split; nia. }
  destruct (r <? 2 ^ (e - 1)); [apply Q; lia|].
  destruct (2 ^ (e - 1) <? r); [apply Q; lia|].
  destruct (Z.even q); apply Q; lia.
Qed.

End Rounding.

(** Integers up to [2^53] in magnitude are Numbers as they are. *)
Lemma toNumber_exact z : Z.abs z <= 2 ^ 53 -> toNumber z = Fin z.
Proof.
  intros H. unfold toNumber.
  assert (R : roundTiesToEven (Z.abs z) = Z.abs z).
  { destruct (Z.eq_dec (Z.abs z) (2 ^ 53)) as [->|N]; [now vm_compute|].
    apply roundTiesToEven_small. lia. }
  rewrite R.
  destruct (2 ^ 1024 <=? Z.abs z) eqn:E.
  - apply Z.leb_le in E. assert (2 ^ 53 < 2 ^ 1024) by now vm_compute. lia.
  - now rewrite Z.mul_comm, Z.abs_sgn.
Qed.

(** Below [2^1023] the conversion does not overflow. *)
Lemma toNumber_finite z :
  Z.abs z < 2 ^ 1023 -> exists y, toNumber z = Fin y.
Proof.
  intros H. unfold toNumber.
  assert (R : roundTiesToEven (Z.abs z) < 2 ^ 1024).
  { change (2 ^ 1024) with (2 * 2 ^ 1023).
    destruct (Z_lt_le_dec (Z.abs z) (2 ^ 53)) as [S|L].
    - rewrite roundTiesToEven_small by lia. lia.
    - pose proof (roundTiesToEven_large _ L). lia. }
  apply Z.ltb_lt in R. rewrite Z.ltb_antisym in R.
  apply negb_true_iff in R. rewrite R. eauto.
Qed.

(** A value from [2^53] on never converts to a smaller double. *)
Lemma toNumber_large z y : 2 ^ 53 <= z -> toNumber z = Fin y -> 2 ^ 53 <= y.
Proof.
  intros L. unfold toNumber. rewrite Z.abs_eq by lia.
  pose proof (roundTiesToEven_large _ L).
  destruct (2 ^ 1024 <=? _); [discriminate|]. intros [= <-].
  rewrite Z.sgn_pos by lia. lia.
Qed.

Lemma toNumber_opp z : toNumber (- z) = neg (toNumber z).
Proof.
  unfold toNumber. rewrite Z.abs_opp, Z.sgn_opp.
  destruct (2 ^ 1024 <=? roundTiesToEven (Z.abs z)) eqn:E; cbn [neg].
  - f_equal. apply Z.leb_le in E.
    destruct (Z.eq_dec z 0) as [->|N]; [now vm_compute in E|].
    destruct (z <? 0) eqn:A, (- z <? 0) eqn:B; try reflexivity; lia.
  - f_equal. ring.
Qed.

(** ** Printing numbers *)

Lemma digit_char k :
  0 <= k <= 9 ->
  isDigit (Z.to_N (48 + k)) = true /\ Z.of_N (Z.to_N (48 + k)) - 48 = k.
Proof.
  intros H. split; [|lia]. unfold isDigit.
  apply andb_true_iff. split; apply N.leb_le; lia.
Qed.

Lemma digitsFuel_spec fuel : forall z acc,
  0 <= z < 2 ^ (Z.of_nat fuel + 1) ->
  exists ds, digitsFuel fuel z acc = ds ++ acc /\ allDigits ds = true /\
             ds <> [] /\ digitsValue ds = z.
Proof.
  assert (One : forall z acc, 0 <= z < 10 ->
    exists ds, Z.to_N (48 + z mod 10) :: acc = ds ++ acc /\
               allDigits ds = true /\ ds <> [] /\ digitsValue ds = z).
  { intros z acc Hz. exists [Z.to_N (48 + z mod 10)].
    rewrite Z.mod_small by lia. destruct (digit_char z) as [D V]; [lia|].
    repeat split;
      [unfold allDigits; cbn [forallb]; now rewrite D | discriminate |].
    unfold digitsValue. cbn [radixValue]. unfold digitValue. rewrite D. lia. }
  induction fuel as [|fuel IH]; intros z acc Hz.
  - cbn [digitsFuel]. apply One. cbn in Hz. lia.
  - cbn [digitsFuel]. destruct (z <? 10) eqn:E.
    + apply One. apply Z.ltb_lt in E. lia.
    + apply Z.ltb_ge in E.
      destruct (IH (z / 10) (Z.to_N (48 + z mod 10) :: acc))
        as (ds & E1 & D1 & N1 & V1).
      { split; [apply Z.div_pos; lia|]. apply Z.div_lt_upper_bound; [lia|].
        replace (Z.of_nat (S fuel) + 1) with (Z.succ (Z.of_nat fuel + 1)) in Hz
          by lia.
        rewrite Z.pow_succ_r in Hz by lia. lia. }
      exists (ds ++ [Z.to_N (48 + z mod 10)]).
      pose proof (Z.mod_pos_bound z 10 ltac:(lia)) as MB.
      destruct (digit_char (z mod 10)) as [D V]; [lia|].
      repeat split.
      * now rewrite E1, <- app_assoc.
      * rewrite allDigits_app, D1. unfold allDigits. cbn [forallb andb].
        now rewrite D.
      * now destruct ds.
      * rewrite digitsValue_app, V1. unfold digitsValue, strLength.
        cbn [radixValue List.length]. unfold digitValue. rewrite D.
        pose proof (Z.div_mod z 10 ltac:(lia)). lia.
Qed.

Lemma digits_spec z :
  0 <= z ->
  allDigits (digits z) = true /\ digits z <> [] /\ digitsValue (digits z) = z.
Proof.
  intros H. unfold digits.
  destruct (digitsFuel_spec (Z.to_nat (Z.log2 z)) z []) as (ds & E & D & N & V).
  - split; [assumption|]. pose proof (Z.log2_nonneg z).
    rewrite Z2Nat.id by assumption.
    destruct (Z.eq_dec z 0) as [->|P]; [now cbn|].
    pose proof (Z.log2_spec z ltac:(lia)). lia.
  - rewrite E, app_nil_r. auto.
Qed.

Lemma digitsFuel_length fuel : forall z acc k,
  0 <= z < 10 ^ Z.of_nat (S k) ->
  (List.length (digitsFuel fuel z acc) <= S k + List.length acc)%nat.
Proof.
  induction fuel as [|fuel IH]; intros z acc k Hz; cbn [digitsFuel].
  - cbn. lia.
  - destruct (z <? 10) eqn:E; [cbn; lia|]. apply Z.ltb_ge in E.
    destruct k as [|k]; [cbn in Hz; lia|].
    specialize (IH (z / 10) (Z.to_N (48 + z mod 10) :: acc) k).
    cbn [List.length] in IH. etransitivity; [apply IH|lia].
    split; [apply Z.div_pos; lia|]. apply Z.div_lt_upper_bound; [lia|].
    rewrite (Nat2Z.inj_succ (S k)), Z.pow_succ_r in Hz by lia. lia.
Qed.

Lemma digits_length z k :
  0 <= z < 10 ^ Z.of_nat (S k) -> (List.length (digits z) <= S k)%nat.
Proof.
  intros H. unfold digits.
  pose proof (digitsFuel_length (Z.to_nat (Z.log2 z)) z [] k H) as L.
  cbn [List.length] in L. lia.
Qed.

(** Up to [2^53] the shortest digits of a double are its own. *)
Lemma shortestFrom_small x : 0 <= x < 2 ^ 53 -> forall p, shortestFrom p x = x.
Proof.
  intros Hx. induction p as [|p IH]; cbn [shortestFrom].
  all: set (u := 10 ^ Z.of_nat _);
    assert (U : 0 < u) by (apply Z.pow_pos_nonneg; lia);
    pose proof (Z.div_mod x u ltac:(lia)) as DM;
    pose proof (Z.mod_pos_bound x u U) as MB;
    assert (Q : 0 <= x / u) by (apply Z.div_pos; lia);
    set (lo := x / u * u); assert (Lo : 0 <= lo <= x) by (subst lo; nia);
    assert (Hi : x < lo + u) by (subst lo; nia);
    rewrite (toNumber_exact lo) by lia;
    assert (F : match toNumber (lo + u) with
                | Fin y => y =? x | _ => false end = false)
      by (destruct (Z_le_gt_dec (lo + u) (2 ^ 53)) as [S|L];
          [ rewrite toNumber_exact by lia; apply Z.eqb_neq; lia
          | destruct (toNumber (lo + u)) as [y| |] eqn:T; try reflexivity;
            apply Z.eqb_neq;
            pose proof (toNumber_large (lo + u) y ltac:(lia) T); lia ]);
    rewrite F, andb_false_r;
    (destruct (lo =? x) eqn:E; [apply Z.eqb_eq in E; exact E|]).
  - reflexivity.
  - exact IH.
Qed.

Lemma shortest_small x : 0 <= x <= 2 ^ 53 -> shortest x = x.
Proof.
  intros H. destruct (Z.eq_dec x (2 ^ 53)) as [->|N]; [now vm_compute|].
  apply shortestFrom_small. lia.
Qed.

Lemma numberToString_small x :
  0 <= x <= 2 ^ 53 -> numberToString (Fin x) = digits x.
Proof.
  intros H. unfold numberToString.
  destruct (x <? 0) eqn:E; [apply Z.ltb_lt in E; lia|].
  rewrite Z.abs_eq, shortest_small by lia. cbn [app]. unfold render.
  assert (L : (List.length (digits x) <= 16)%nat).
  { apply digits_length. change (10 ^ Z.of_nat 16) with 10000000000000000.
    change (2 ^ 53) with 9007199254740992 in H. lia. }
  unfold strLength.
  destruct (Z.of_nat (List.length (digits x)) <=? 21) eqn:B; [reflexivity|].
  apply Z.leb_gt in B. lia.
Qed.

Lemma digitsValue_zeros k : digitsValue (repeat ZERO k) = 0.
Proof.
  unfold digitsValue. induction k as [|k IH]; [reflexivity|].
  cbn [repeat radixValue]. exact IH.
Qed.

Lemma allDigits_zeros k : allDigits (repeat ZERO k) = true.
Proof. induction k as [|k IH]; [reflexivity | exact IH]. Qed.

(** A value below 100 padded to two places: two digits that write it. *)
Lemma padStart_two v :
  0 <= v < 100 ->
  let s := padStart 2 ZERO (digits v) in
  List.length s = 2%nat /\ allDigits s = true /\ digitsValue s = v.
Proof.
  intros H s. subst s. unfold padStart.
  destruct (digits_spec v) as (D & N & V); [lia|].
  pose proof (digits_length v 1 ltac:(cbn; lia)) as L.
  assert (1 <= List.length (digits v))%nat
    by (destruct (digits v); [now contradiction N | cbn; lia]).
  repeat split.
  - rewrite length_app, repeat_length. lia.
  - now rewrite allDigits_app, allDigits_zeros, D.
  - now rewrite digitsValue_app, digitsValue_zeros, V.
Qed.

(** * The claims *)

(** ** End-to-end scenarios *)

(** C2.  End-to-end inputs: "$1,234.56" gives 123456, "₹1,23,456.78" gives
    12345678, "£10,000,000.00" gives 1000000000 and the empty string fails
    with EmptyInput; but "¥1,234" gives 123, not 123400: with no '.' in the
    text the comma is taken as the decimal separator, "234" is cut to two
    digits and the third digit does not round up. *)
Theorem end_to_end_scenarios :
  parseMoney (VString (utf16 "$1,234.56")) = Return (Fin 123456) /\
  parseMoney (VString (utf16 "₹1,23,456.78")) = Return (Fin 12345678) /\
  parseMoney (VString (utf16 "£10,000,000.00")) = Return (Fin 1000000000) /\
  parseMoney (VString (utf16 "")) = Throw EmptyMoneyString /\
  kindOf EmptyMoneyString = EmptyInput /\
  separators (utf16 "1,234") = (Some COMMA, Some DOT) /\
  parseMoney (VString (utf16 "¥1,234")) = Return (Fin 123).
Proof. repeat split; vm_compute; reflexivity. Qed.

(** C8.  The parenthesized negative with a decimal part is rejected: the
    closing parenthesis stays in the decimal part (only the integer part
    is stripped of sign marks), so "$(500.25)" and "($500.25)" throw, while
    "$-500.25" gives -50025; without a decimal part "$(500)" gives -50000. *)
Theorem parenthesized_negative_rejected :
  parseMoney (VString (utf16 "$(500.25)"))
    = Throw (InvalidDecimalPart (utf16 "$(500.25)")) /\
  amountParts (utf16 "(500.25)") = (utf16 "500", utf16 "25)", true) /\
  parseMoney (VString (utf16 "($500.25)"))
    = Throw (InvalidIntegerPart (utf16 "($500.25)")) /\
  parseMoney (VString (utf16 "$-500.25")) = Return (Fin (-50025)) /\
  parseMoney (VString (utf16 "$(500)")) = Return (Fin (-50000)).
Proof. repeat split; vm_compute; reflexivity. Qed.

(** ** The two copies of [parseMoney] *)

(** The workflow-node copy, written with the steps of the standalone one. *)
Lemma n8n_parseMoney_steps input :
  N8n.parseMoney (VString input) =
  let trimmed := trim input in
  if isEmpty trimmed then Throw EmptyMoneyString
  else
    let cleanedText := cleanText trimmed in
    let '(decimalSeparator, thousandSeparator) := separators cleanedText in
    let '(integerPart, decimalPart) :=
      splitAmount cleanedText decimalSeparator in
    let integerPart := removeThousands thousandSeparator integerPart in
    let integerPart := removeAll isWhiteSpace integerPart in
    let decimalPart := removeAll isWhiteSpace decimalPart in
    let isNegative :=
      includes MINUS integerPart || includes LPAREN integerPart in
    let integerPart := removeAll isSignMark integerPart in
    if negb (allDigits integerPart) then Throw (InvalidIntegerPart input)
    else if negb (allDigits decimalPart) then Throw (InvalidDecimalPart input)
    else
      let '(integerPart, decimalPart) :=
        normalizeParts integerPart decimalPart in
      let result := parseInt (integerPart ++ decimalPart) in
      Return (if isNegative then neg result else result).
Proof. reflexivity. Qed.

(** C9.  On every argument the [parseMoney] of [n8n_parse_money.js] and the
    [parseMoney] of the standalone script give the same outcome: the same
    number, or the same error with the same message. *)
Theorem n8n_parseMoney_same (v : value) :
  N8n.parseMoney v = ParseMoney.parseMoney v.
Proof.
  destruct v as [input|]; [|reflexivity].
  rewrite n8n_parseMoney_steps. unfold parseMoney, amountParts.
  cbv zeta. destruct (isEmpty (trim input)); [reflexivity|].
  destruct (separators (cleanText (trim input))) as [dec thou].
  destruct (splitAmount (cleanText (trim input)) dec) as [ip dp].
  reflexivity.
Qed.

(** ** Separator roles *)

Lemma split_head sep s :
  hd [] (split sep s) = takeWhile (fun c => negb (c =? sep)%N) s.
Proof.
  induction s as [|x r IH]; [reflexivity|]. cbn.
  destruct (x =? sep)%N; cbn; [reflexivity|].
  rewrite <- IH. now destruct (split sep r).
Qed.

Lemma removeAll_cons p x r :
  removeAll p (x :: r) = if p x then removeAll p r else x :: removeAll p r.
Proof. unfold removeAll. cbn [filter]. now destruct (p x). Qed.

Lemma split_concat sep s :
  List.concat (split sep s) = removeAll (N.eqb sep) s.
Proof.
  induction s as [|x r IH]; [reflexivity|].
  rewrite removeAll_cons, (N.eqb_sym sep x). cbn [split].
  destruct (x =? sep)%N; [exact IH|].
  rewrite <- IH. now destruct (split sep r).
Qed.

Lemma split_tail sep s :
  join (tl (split sep s)) =
  removeAll (N.eqb sep) (dropWhile (fun c => negb (c =? sep)%N) s).
Proof.
  unfold join. induction s as [|x r IH]; [reflexivity|].
  cbn [split dropWhile]. destruct (x =? sep)%N eqn:E; cbn [negb tl].
  - rewrite split_concat, removeAll_cons, (N.eqb_sym sep x), E. reflexivity.
  - rewrite <- IH. now destruct (split sep r).
Qed.

(** C6.  In a cleaned text that holds both '.' and ',', the one whose last
    occurrence is the later is the decimal separator and the other the
    thousands separator; so "$1,234.56" and "€1.234,56" both give 123456. *)
Theorem later_separator_is_decimal (cleanedText : jsstring) :
  includes DOT cleanedText = true ->
  includes COMMA cleanedText = true ->
  ((lastIndexOf DOT cleanedText < lastIndexOf COMMA cleanedText /\
    separators cleanedText = (Some COMMA, Some DOT)) \/
   (lastIndexOf COMMA cleanedText < lastIndexOf DOT cleanedText /\
    separators cleanedText = (Some DOT, Some COMMA))) /\
  parseMoney (VString (utf16 "$1,234.56")) = Return (Fin 123456) /\
  parseMoney (VString (utf16 "€1.234,56")) = Return (Fin 123456).
Proof.
  intros HD HC. split; [|split; vm_compute; reflexivity].
  apply lastIndexOf_present in HD, HC. rewrite separators_by_order.
  destruct (lastIndexOf COMMA cleanedText >? lastIndexOf DOT cleanedText) eqn:E1.
  - left. split; [lia | reflexivity].
  - destruct (lastIndexOf DOT cleanedText >? lastIndexOf COMMA cleanedText) eqn:E2.
    + right. split; [lia | reflexivity].
    + exfalso.
      assert (E : lastIndexOf DOT cleanedText = lastIndexOf COMMA cleanedText)
        by lia.
      pose proof (lastIndexOf_distinct DOT COMMA cleanedText ltac:(discriminate) E).
      lia.
Qed.

(** The theorem above at a concrete input. *)
Lemma later_separator_is_decimal_witness :
  ((lastIndexOf DOT (utf16 "1.234,56") < lastIndexOf COMMA (utf16 "1.234,56") /\
    separators (utf16 "1.234,56") = (Some COMMA, Some DOT)) \/
   (lastIndexOf COMMA (utf16 "1.234,56") < lastIndexOf DOT (utf16 "1.234,56") /\
    separators (utf16 "1.234,56") = (Some DOT, Some COMMA))) /\
  parseMoney (VString (utf16 "$1,234.56")) = Return (Fin 123456) /\
  parseMoney (VString (utf16 "€1.234,56")) = Return (Fin 123456).
Proof.
  apply (later_separator_is_decimal (utf16 "1.234,56")); reflexivity.
Defined.

(** C3, as the claim states it, fails: in "1.2345" the only separator is a
    '.' followed by four digits, yet it is the decimal separator, the
    decimal part is "2345", and the amount is 123, not 1234500. *)
Lemma lone_separator_not_thousands :
  includes COMMA (utf16 "1.2345") = false /\
  strLength (substring (utf16 "1.2345") (lastIndexOf DOT (utf16 "1.2345") + 1))
    = 4 /\
  separators (utf16 "1.2345") = (Some DOT, Some COMMA) /\
  amountParts (utf16 "1.2345") = (utf16 "1", utf16 "2345", false) /\
  parseMoney (VString (utf16 "1.2345")) = Return (Fin 123) /\
  parseMoney (VString (utf16 "1.2345")) <> Return (Fin 1234500).
Proof. repeat split; try (vm_compute; reflexivity). discriminate. Qed.

(** C3, amended.  In a cleaned text that holds '.' and no ',', with a
    number of characters after the last '.' that is neither 2 nor 3, the
    '.' is the decimal separator (and ',' the thousands separator): the
    integer part is the text before the first '.', the decimal part what
    follows it with any further '.' removed; "1.2345" gives 123. *)
Theorem lone_dot_is_decimal (cleanedText : jsstring) :
  includes COMMA cleanedText = false ->
  includes DOT cleanedText = true ->
  strLength (substring cleanedText (lastIndexOf DOT cleanedText + 1)) <> 2 ->
  strLength (substring cleanedText (lastIndexOf DOT cleanedText + 1)) <> 3 ->
  separators cleanedText = (Some DOT, Some COMMA) /\
  splitAmount cleanedText (Some DOT) =
    (takeWhile (fun c => negb (c =? DOT)%N) cleanedText,
     removeAll (N.eqb DOT)
       (dropWhile (fun c => negb (c =? DOT)%N) cleanedText)) /\
  parseMoney (VString (utf16 "1.2345")) = Return (Fin 123).
Proof.
  intros HC HD _ _. split; [|split; [|vm_compute; reflexivity]].
  - rewrite separators_by_order.
    apply lastIndexOf_absent in HC. apply lastIndexOf_present in HD.
    rewrite HC.
    destruct (-1 >? lastIndexOf DOT cleanedText) eqn:E1; [lia|].
    destruct (lastIndexOf DOT cleanedText >? -1) eqn:E2; [reflexivity | lia].
  - unfold splitAmount. rewrite HD. now rewrite split_head, split_tail.
Qed.

(** The theorem above at a concrete input. *)
Lemma lone_dot_is_decimal_witness :
  separators (utf16 "1.2345") = (Some DOT, Some COMMA) /\
  splitAmount (utf16 "1.2345") (Some DOT) =
    (takeWhile (fun c => negb (c =? DOT)%N) (utf16 "1.2345"),
     removeAll (N.eqb DOT)
       (dropWhile (fun c => negb (c =? DOT)%N) (utf16 "1.2345"))) /\
  parseMoney (VString (utf16 "1.2345")) = Return (Fin 123).
Proof.
  apply (lone_dot_is_decimal (utf16 "1.2345"));
    [reflexivity | reflexivity | vm_compute; discriminate
    | vm_compute; discriminate].
Defined.

(** The same holds of a lone ',': it is made the decimal separator whatever
    follows it, so the "only commas" branch of lines 77-89 is never taken
    ("1,234" is 1 and "234", "1,2345" is 1 and "2345"). *)
Lemma lone_comma_is_decimal (cleanedText : jsstring) :
  includes DOT cleanedText = false ->
  includes COMMA cleanedText = true ->
  separators cleanedText = (Some COMMA, Some DOT).
Proof.
  intros HD HC. rewrite separators_by_order.
  apply lastIndexOf_absent in HD. apply lastIndexOf_present in HC.
  rewrite HD.
  destruct (lastIndexOf COMMA cleanedText >? -1) eqn:E; [reflexivity | lia].
Qed.

(** ** Rounding of the decimal part *)

Lemma parseInt_exact s :
  allDigits s = true -> s <> [] -> digitsValue s <= 2 ^ 53 ->
  parseInt s = Fin (digitsValue s).
Proof.
  intros D N B. rewrite parseInt_digits by assumption.
  apply toNumber_exact. pose proof (digitsValue_bounds s D). lia.
Qed.

Lemma digitsValue_two d1 d2 :
  allDigits [d1; d2] = true -> 0 <= digitsValue [d1; d2] < 100.
Proof. intros H. exact (digitsValue_bounds [d1; d2] H). Qed.

Lemma allDigits_three d1 d2 d3 rest :
  allDigits (d1 :: d2 :: d3 :: rest) = true ->
  allDigits [d1; d2] = true /\ allDigits [d3] = true /\
  allDigits [d1; d2; d3] = true.
Proof.
  unfold allDigits. cbn [forallb]. intros H.
  apply andb_true_iff in H as [H1 H]. apply andb_true_iff in H as [H2 H].
  apply andb_true_iff in H as [H3 _]. now rewrite H1, H2, H3.
Qed.

(** Lines 131-149 on a decimal part of three digits or more. *)
Lemma normalizeParts_long ip d1 d2 d3 rest :
  allDigits ip = true -> ip <> [] -> digitsValue ip < 2 ^ 53 ->
  allDigits (d1 :: d2 :: d3 :: rest) = true ->
  normalizeParts ip (d1 :: d2 :: d3 :: rest) =
    if digitsValue [d3] <? 5 then (ip, [d1; d2])
    else if digitsValue [d1; d2] + 1 <? 100
         then (ip, padStart 2 ZERO (digits (digitsValue [d1; d2] + 1)))
         else (digits (digitsValue ip + 1), str_00).
Proof.
  intros Dip Nip Bip Ddp.
  destruct (allDigits_three d1 d2 d3 rest Ddp) as (D12 & D3 & _).
  pose proof (digitsValue_two d1 d2 D12) as B12.
  pose proof (digitsValue_bounds [d3] D3) as B3.
  change (10 ^ strLength [d3]) with 10 in B3.
  assert (P : 100 < 2 ^ 53) by now vm_compute.
  unfold normalizeParts.
  destruct ip as [|i0 ip']; [now contradiction Nip|]. cbn [isEmpty].
  set (ip := i0 :: ip') in *.
  replace (strLength (d1 :: d2 :: d3 :: rest))
    with (3 + Z.of_nat (List.length rest))
    by (unfold strLength; cbn [List.length]; lia).
  destruct (3 + Z.of_nat (List.length rest) =? 1) eqn:E1;
    [apply Z.eqb_eq in E1; lia|].
  destruct (3 + Z.of_nat (List.length rest) >? 2) eqn:E2;
    [|rewrite Z.gtb_ltb in E2; apply Z.ltb_ge in E2; lia].
  change (first (substring (d1 :: d2 :: d3 :: rest) 2)) with [d3].
  change (substringTo (d1 :: d2 :: d3 :: rest) 2) with [d1; d2].
  rewrite (parseInt_exact [d3]), (parseInt_exact [d1; d2])
    by (try assumption; try discriminate; lia).
  cbn [geq add]. rewrite (Z.leb_antisym (digitsValue [d3]) 5).
  destruct (digitsValue [d3] <? 5); cbn [negb]; [reflexivity|].
  rewrite toNumber_exact by lia. cbn [geq].
  rewrite (Z.leb_antisym (digitsValue [d1; d2] + 1) 100).
  destruct (digitsValue [d1; d2] + 1 <? 100); cbn [negb].
  - now rewrite numberToString_small by lia.
  - rewrite (parseInt_exact ip) by (try assumption; lia). cbn [add].
    pose proof (digitsValue_bounds ip Dip).
    rewrite toNumber_exact by lia.
    now rewrite numberToString_small by lia.
Qed.





(** ** Plain decimal numerals *)

Lemma plain_digit c : isDigit c = true -> plain c.
Proof.
  intros H. repeat split;
    [apply digit_not_space | apply digit_not_letter | apply digit_not_currency];
    assumption.
Qed.

Lemma plain_minus : plain MINUS.
Proof. now vm_compute. Qed.

Lemma plain_dot : plain DOT.
Proof. now vm_compute. Qed.

Lemma removeLeadingCode_plain c r :
  isLetter c = false -> removeLeadingCode (c :: r) = c :: r.
Proof.
  intros H. unfold removeLeadingCode. rewrite H.
  now destruct r as [|b [|a r]].
Qed.

Lemma removeTrailingCode_plain r c :
  isLetter c = false -> removeTrailingCode (r ++ [c]) = r ++ [c].
Proof.
  intros H. unfold removeTrailingCode. rewrite rev_app_distr. cbn [rev app].
  destruct (rev r) as [|b [|a r']]; try reflexivity.
  now rewrite H, andb_false_r.
Qed.

(** A text with plain ends is its own cleaned text. *)
Lemma cleanText_plain s c r r' c' :
  s = c :: r -> s = r' ++ [c'] -> plain c -> plain c' -> cleanText s = s.
Proof.
  intros E1 E2 (W & L & C) (W' & L' & _). subst s.
  unfold cleanText, withoutCurrency.
  rewrite C, removeLeadingCode_plain by assumption.
  rewrite E2, removeTrailingCode_plain by assumption.
  apply trim_solid. split; [exists c, r | exists r', c']; auto.
Qed.

Lemma text_ends d :
  wellFormed d ->
  exists c r r' c',
    text d = c :: r /\ text d = r' ++ [c'] /\ plain c /\ plain c'.
Proof.
  intros (N & DW & DF & _). unfold text, fractionDigits in *.
  destruct (whole d) as [|w0 ws] eqn:W; [now contradiction N|].
  assert (P0 : plain w0).
  { apply plain_digit. cbn in DW. now apply andb_true_iff in DW as [? _]. }
  assert (Hd : exists c r,
    (if negative d then [MINUS] else []) ++ (w0 :: ws) ++
    match fraction d with Some f => DOT :: f | None => [] end = c :: r /\
    plain c).
  { destruct (negative d); cbn [app];
      [exists MINUS | exists w0]; eexists; split;
      [reflexivity | apply plain_minus | reflexivity | exact P0]. }
  destruct Hd as (c & r & E & Pc). exists c, r.
  assert (Lw : exists r' c', w0 :: ws = r' ++ [c'] /\ plain c').
  { destruct (exists_last (l := w0 :: ws)) as (r' & c' & E');
      [discriminate|].
    exists r', c'. split; [assumption|]. apply plain_digit.
    unfold allDigits in DW. rewrite forallb_forall in DW. apply DW.
    rewrite E'. apply in_or_app. right. now left. }
  destruct Lw as (rw & cw & Ew & Pw).
  assert (In_digit : forall f x, allDigits f = true -> In x f -> plain x).
  { intros f x Df Hx. apply plain_digit. unfold allDigits in Df.
    rewrite forallb_forall in Df. auto. }
  destruct (fraction d) as [[|f0 fs]|].
  - exists ((if negative d then [MINUS] else []) ++ w0 :: ws), DOT.
    refine (conj E (conj _ (conj Pc plain_dot))). now rewrite <- app_assoc.
  - destruct (exists_last (l := f0 :: fs)) as (r' & c' & E');
      [discriminate|].
    exists ((if negative d then [MINUS] else []) ++ (w0 :: ws) ++ DOT :: r'),
      c'.
    refine (conj E (conj _ (conj Pc _))).
    + rewrite E'. now rewrite <- !app_assoc.
    + apply (In_digit _ _ DF). rewrite E'. apply in_or_app. right. now left.
  - exists ((if negative d then [MINUS] else []) ++ rw), cw.
    rewrite app_nil_r in *.
    refine (conj E (conj _ (conj Pc Pw))). now rewrite Ew, app_assoc.
Qed.

Lemma removeAll_space_digits s :
  allDigits s = true -> removeAll isWhiteSpace s = s.
Proof. apply removeAll_digits, digit_not_space. Qed.

Lemma removeAll_sign_digits s :
  allDigits s = true -> removeAll isSignMark s = s.
Proof. apply removeAll_digits, digit_not_sign. Qed.

Lemma removeAll_comma_digits s :
  allDigits s = true -> removeAll (N.eqb COMMA) s = s.
Proof. apply removeAll_digits, digit_not_comma. Qed.

(** Lines 46-114 on the text of a valid numeral. *)
Lemma amountParts_numeral d :
  wellFormed d ->
  amountParts (text d) =
    (whole d, match fraction d with Some f => f | None => str_00 end,
     negative d).
Proof.
  intros (N & DW & DF & _). unfold fractionDigits in DF.
  set (sign := if negative d then [MINUS] else []).
  assert (Sg : forall c, includes c sign = negative d && (c =? MINUS)%N).
  { intros c. subst sign. destruct (negative d); cbn; [|reflexivity].
    now rewrite orb_false_r. }
  assert (SgW : removeAll isWhiteSpace sign = sign)
    by (subst sign; now destruct (negative d)).
  assert (SgC : removeAll (N.eqb COMMA) sign = sign)
    by (subst sign; now destruct (negative d)).
  assert (SgS : removeAll isSignMark sign = [])
    by (subst sign; now destruct (negative d)).
  assert (Neg : includes MINUS (sign ++ whole d)
                || includes LPAREN (sign ++ whole d) = negative d).
  { rewrite !includes_app, !Sg.
    rewrite (includes_digits MINUS), (includes_digits LPAREN)
      by (assumption || reflexivity).
    cbn. now rewrite andb_false_r, !orb_false_r, andb_true_r. }
  assert (PreD : includes DOT (sign ++ whole d) = false).
  { rewrite includes_app, Sg, (includes_digits DOT)
      by (assumption || reflexivity).
    cbn. now rewrite andb_false_r. }
  assert (PreC : includes COMMA (sign ++ whole d) = false).
  { rewrite includes_app, Sg, (includes_digits COMMA)
      by (assumption || reflexivity).
    cbn. now rewrite andb_false_r. }
  unfold amountParts. rewrite separators_by_order. unfold text. fold sign.
  destruct (fraction d) as [f|].
  - assert (C : includes COMMA (sign ++ whole d ++ DOT :: f) = false).
    { rewrite app_assoc, includes_app, PreC. cbn [orb].
      change (includes COMMA (DOT :: f)) with (false || includes COMMA f).
      now rewrite (includes_digits COMMA f). }
    assert (D : includes DOT (sign ++ whole d ++ DOT :: f) = true).
    { rewrite app_assoc, includes_app.
      change (includes DOT (DOT :: f)) with (true || includes DOT f).
      now rewrite orb_true_r. }
    apply lastIndexOf_absent in C. pose proof (lastIndexOf_present _ _ D) as P.
    rewrite C.
    destruct (-1 >? lastIndexOf DOT (sign ++ whole d ++ DOT :: f)) eqn:E1;
      [lia|].
    destruct (lastIndexOf DOT (sign ++ whole d ++ DOT :: f) >? -1) eqn:E2;
      [|lia].
    unfold splitAmount. rewrite D.
    rewrite (app_assoc sign), split_at by assumption.
    rewrite (split_absent DOT f) by now apply includes_digits.
    cbn [hd tl join List.concat removeThousands]. rewrite app_nil_r.
    rewrite !removeAll_app, SgC, SgW, SgS.
    rewrite (removeAll_comma_digits (whole d)) by assumption.
    rewrite !(removeAll_space_digits (whole d)) by assumption.
    rewrite (removeAll_sign_digits (whole d)) by assumption.
    rewrite (removeAll_space_digits f) by assumption.
    now rewrite Neg.
  - rewrite app_nil_r.
    pose proof PreD as D. pose proof PreC as C.
    apply lastIndexOf_absent in D, C. rewrite D, C.
    change (-1 >? -1) with false. cbn iota.
    cbn [splitAmount removeThousands].
    rewrite !removeAll_app, SgW, SgS.
    rewrite !(removeAll_space_digits (whole d)) by assumption.
    rewrite (removeAll_sign_digits (whole d)) by assumption.
    now rewrite Neg.
Qed.

(** The decimal part of a valid numeral brought to two digits. *)
Lemma normalizeParts_numeral d :
  wellFormed d ->
  exists dp,
    normalizeParts (whole d)
      (match fraction d with Some f => f | None => str_00 end)
      = (whole d, dp) /\
    allDigits dp = true /\ strLength dp = 2 /\
    digitsValue dp =
      digitsValue (fractionDigits d) * 10 ^ (2 - strLength (fractionDigits d)).
Proof.
  intros (N & DW & DF & L). unfold fractionDigits in *. unfold normalizeParts.
  destruct (whole d) as [|w0 ws]; [now contradiction N|]. cbn [isEmpty].
  destruct (fraction d) as [[|a [|b [|c f]]]|].
  - exists str_00. now vm_compute.
  - exists [a; ZERO]. split; [reflexivity|]. split; [|split; [reflexivity|]].
    + unfold allDigits in *. cbn [forallb] in *.
      apply andb_true_iff in DF as [Da _]. now rewrite Da.
    + change [a; ZERO] with ([a] ++ [ZERO]). rewrite digitsValue_app.
      change (digitsValue [ZERO]) with 0.
      change (10 ^ strLength [ZERO]) with 10.
      change (10 ^ (2 - strLength [a])) with 10. lia.
  - exists [a; b]. split; [reflexivity|]. split; [assumption|].
    split; [reflexivity|].
    change (10 ^ (2 - strLength [a; b])) with 1. lia.
  - cbn in L. lia.
  - exists str_00. now vm_compute.
Qed.

(** A valid numeral parses to the Number nearest to a hundred times it. *)
Lemma parseMoney_numeral d :
  wellFormed d ->
  parseMoney (VString (text d)) = Return (toNumber (hundredfold d)).
Proof.
  intros WF. destruct (text_ends d WF) as (c & r & r' & c' & E1 & E2 & Pc & Pc').
  assert (S : solid (text d)).
  { split; [exists c, r | exists r', c']; split; auto; [apply Pc | apply Pc']. }
  unfold parseMoney. rewrite (trim_solid _ S).
  rewrite E1 at 1. cbn [isEmpty].
  rewrite (cleanText_plain (text d) c r r' c') by assumption.
  rewrite (amountParts_numeral d WF).
  destruct (normalizeParts_numeral d WF) as (dp & NP & Ddp & Ldp & Vdp).
  destruct WF as (N & DW & DF & L).
  rewrite DW. cbn [negb].
  assert (DF' : allDigits (match fraction d with Some f => f | None => str_00 end)
                = true)
    by (unfold fractionDigits in DF; now destruct (fraction d)).
  rewrite DF'. cbn [negb]. rewrite NP.
  rewrite parseInt_digits
    by (rewrite ?allDigits_app, ?DW, ?Ddp; auto; now destruct (whole d)).
  rewrite digitsValue_app, Ldp, Vdp. change (10 ^ 2) with 100.
  unfold hundredfold. destruct (negative d).
  - rewrite <- toNumber_opp. apply f_equal, f_equal. ring.
  - apply f_equal, f_equal. ring.
Qed.

(** [hundredfold d] is a hundred times the numeral: scaled by the power of
    ten of its fractional digits, it is a hundred times the integer that
    all the digits write. *)
Lemma hundredfold_scaled d :
  wellFormed d ->
  hundredfold d * 10 ^ strLength (fractionDigits d) =
  (if negative d then -1 else 1) *
  digitsValue (whole d ++ fractionDigits d) * 100.
Proof.
  intros (_ & _ & _ & L). unfold hundredfold. rewrite digitsValue_app.
  set (v := digitsValue (whole d)). set (s := if negative d then -1 else 1).
  destruct (fractionDigits d) as [|a [|b [|c f]]]; [| | |cbn in L; lia];
    set (u := digitsValue _).
  - change (10 ^ (2 - strLength [])) with 100.
    change (10 ^ strLength []) with 1. ring.
  - change (10 ^ (2 - strLength [a])) with 10.
    change (10 ^ strLength [a]) with 10. ring.
  - change (10 ^ (2 - strLength [a; b])) with 1.
    change (10 ^ strLength [a; b]) with 100. ring.
Qed.

(** A '+' is not read as a sign: "+5" is rejected. *)
Lemma plus_sign_rejected :
  parseMoney (VString (utf16 "+5")) = Throw (InvalidIntegerPart (utf16 "+5")).
Proof. vm_compute. reflexivity. Qed.

(** C1, as the claim states it, fails beyond the exact range of a Number:
    "90071992547409.93" is a valid numeral with two fractional digits, a
    hundred times it is 9007199254740993 (2^53 + 1), and the parser
    returns 9007199254740992. *)
Lemma numeral_beyond_2_53_inexact :
  let d := {| negative := false; whole := utf16 "90071992547409";
              fraction := Some (utf16 "93") |} in
  text d = utf16 "90071992547409.93" /\
  hundredfold d = 9007199254740993 /\
  parseMoney (VString (text d)) = Return (Fin 9007199254740992) /\
  parseMoney (VString (text d)) <> Return (Fin (hundredfold d)).
Proof. repeat split; vm_compute; try reflexivity; discriminate. Qed.

(** C1, amended.  For every valid decimal numeral D (an optional '-',
    digits, and optionally '.' followed by at most two digits) whose amount
    in minor units is at most 2^53 in magnitude, [parseMoney] succeeds and
    returns exactly D * 100. *)
Theorem numeral_in_minor_units (d : numeral) :
  wellFormed d ->
  Z.abs (hundredfold d) <= 2 ^ 53 ->
  parseMoney (VString (text d)) = Return (Fin (hundredfold d)).
Proof.
  intros WF B. rewrite (parseMoney_numeral d WF). f_equal.
  now apply toNumber_exact.
Qed.

(** The theorem above at a concrete input. *)
Lemma numeral_in_minor_units_witness :
  parseMoney (VString (utf16 "-1234.5")) = Return (Fin (-123450)).
Proof.
  apply (numeral_in_minor_units
           {| negative := true; whole := utf16 "1234";
              fraction := Some (utf16 "5") |}).
  - repeat split; [discriminate | cbn; lia].
  - vm_compute. discriminate.
Defined.

(** ** The outcomes of [parseMoney] *)

Lemma digitsFuel_allDigits fuel : forall z acc,
  allDigits acc = true -> allDigits (digitsFuel fuel z acc) = true.
Proof.
  assert (D : forall z, isDigit (Z.to_N (48 + z mod 10)) = true).
  { intros z. pose proof (Z.mod_pos_bound z 10 ltac:(lia)).
    apply digit_char. lia. }
  induction fuel as [|fuel IH]; intros z acc H; cbn [digitsFuel].
  - unfold allDigits. cbn [forallb]. now rewrite D.
  - destruct (z <? 10).
    + unfold allDigits. cbn [forallb]. now rewrite D.
    + apply IH. unfold allDigits. cbn [forallb]. now rewrite D.
Qed.

Lemma digits_allDigits z : allDigits (digits z) = true.
Proof. now apply digitsFuel_allDigits. Qed.

(** [parseInt] stops at the first character that is not a digit. *)
Lemma parseInt_prefix d x rest :
  isDigit d = true -> isRadixDigit 10 x = false ->
  x <> 120%N -> x <> 88%N ->
  parseInt (d :: x :: rest) = toNumber (digitsValue [d]).
Proof.
  intros D X N1 N2. unfold parseInt, trimStart.
  rewrite dropWhile_head by now apply digit_not_space.
  assert (M : (d =? MINUS)%N = false)
    by (rewrite N.eqb_sym; now apply digit_not_minus).
  assert (P : (d =? PLUS)%N = false)
    by (unfold isDigit, PLUS in *; bool_hyps; char_false).
  rewrite M, P. cbn [orb].
  apply N.eqb_neq in N1, N2. rewrite N1, N2. cbn [orb]. rewrite andb_false_r.
  cbn [takeWhile]. now rewrite (digit_radix10 d D), X.
Qed.

Lemma toNumber_nonneg z y : 0 <= z -> toNumber z = Fin y -> 0 <= y <= 2 * z.
Proof.
  intros H. unfold toNumber. rewrite Z.abs_eq by assumption.
  destruct (2 ^ 1024 <=? _); [discriminate|]. intros [= <-].
  destruct (Z.eq_dec z 0) as [->|N]; [now vm_compute|].
  rewrite Z.sgn_pos by lia.
  destruct (Z_lt_le_dec z (2 ^ 53)) as [S|L].
  - rewrite roundTiesToEven_small by lia. lia.
  - pose proof (roundTiesToEven_large z L). lia.
Qed.

Lemma pow10_bound k n : (k <= n)%nat -> 10 ^ Z.of_nat k <= 10 ^ Z.of_nat n.
Proof. intros H. apply Z.pow_le_mono_r; lia. Qed.

(** A string of at most 302 digits converts to a finite Number. *)
Lemma parseInt_finite s :
  allDigits s = true -> s <> [] -> (List.length s <= 302)%nat ->
  exists z, parseInt s = Fin z /\ 0 <= z <= 2 * digitsValue s.
Proof.
  intros D N L. rewrite parseInt_digits by assumption.
  pose proof (digitsValue_bounds s D) as B. unfold strLength in B.
  pose proof (pow10_bound _ _ L) as P.
  assert (T : 10 ^ Z.of_nat 302 < 2 ^ 1023) by now vm_compute.
  destruct (toNumber_finite (digitsValue s)) as [y E]; [lia|].
  exists y. split; [assumption|]. apply toNumber_nonneg; [lia | assumption].
Qed.

(** What [render] prints, followed by "00", is read back as a finite
    Number. *)
Lemma parseInt_render v :
  exists z, parseInt (render v ++ str_00) = Fin z.
Proof.
  unfold render. pose proof (digits_allDigits v) as D.
  destruct (strLength (digits v) <=? 21) eqn:E.
  - apply Z.leb_le in E. unfold strLength in E.
    destruct (parseInt_finite (digits v ++ str_00)) as (z & Ez & _).
    + now rewrite allDigits_app, D.
    + now destruct (digits v).
    + rewrite length_app. cbn. lia.
    + now exists z.
  - destruct (digits v) as [|d rest]; [now exists 0|].
    unfold allDigits in D. cbn [forallb] in D.
    apply andb_true_iff in D as [Dd _].
    assert (F : exists z, toNumber (digitsValue [d]) = Fin z).
    { apply toNumber_finite.
      pose proof (digitsValue_bounds [d]) as B. unfold allDigits in B.
      cbn [forallb] in B. rewrite Dd in B. specialize (B eq_refl).
      change (10 ^ strLength [d]) with 10 in B.
      assert (10 < 2 ^ 1023) by now vm_compute. lia. }
    destruct F as [z F]. exists z. rewrite <- F.
    destruct (rev (dropWhile (N.eqb ZERO) (rev rest))) as [|f fs].
    + cbn [app]. apply parseInt_prefix;
        [assumption | reflexivity | discriminate | discriminate].
    + cbn [app]. apply parseInt_prefix;
        [assumption | reflexivity | discriminate | discriminate].
Qed.

Lemma parseInt_numberToString n :
  (exists y, n = Fin y /\ 0 <= y) ->
  exists z, parseInt (numberToString n ++ str_00) = Fin z.
Proof.
  intros (y & -> & Hy). unfold numberToString.
  destruct (y <? 0) eqn:E; [apply Z.ltb_lt in E; lia|].
  cbn [app]. apply parseInt_render.
Qed.

(** With an integer part of at most 300 digits the assembled result is a
    finite Number, that is, an integer. *)
Lemma result_finite ip dp :
  allDigits ip = true -> allDigits dp = true -> (List.length ip <= 300)%nat ->
  exists z, parseInt (fst (normalizeParts ip dp) ++ snd (normalizeParts ip dp))
            = Fin z.
Proof.
  intros Dip Ddp L. unfold normalizeParts.
  set (ip0 := if isEmpty ip then str_0 else ip).
  assert (H0 : allDigits ip0 = true /\ ip0 <> [] /\
               (List.length ip0 <= 300)%nat).
  { subst ip0. destruct ip; cbn [isEmpty];
      [repeat split; [discriminate | cbn; lia]
      | repeat split; [assumption | discriminate | assumption]]. }
  destruct H0 as (D0 & N0 & L0).
  assert (Two : forall dp', allDigits dp' = true -> List.length dp' = 2%nat ->
                exists z, parseInt (ip0 ++ dp') = Fin z).
  { intros dp' D' L'. destruct (parseInt_finite (ip0 ++ dp')) as (z & E & _).
    - now rewrite allDigits_app, D0, D'.
    - now destruct ip0.
    - rewrite length_app. lia.
    - now exists z. }
  destruct dp as [|d1 [|d2 [|d3 rest]]].
  - cbn [isEmpty fst snd]. now apply Two.
  - cbn [isEmpty]. change (strLength [d1] =? 1) with true. cbn [fst snd].
    apply Two; [|reflexivity]. now rewrite allDigits_app, Ddp.
  - cbn [isEmpty]. change (strLength [d1; d2] =? 1) with false.
    change (strLength [d1; d2] >? 2) with false. cbn [fst snd].
    now apply Two.
  - cbn [isEmpty].
    replace (strLength (d1 :: d2 :: d3 :: rest))
      with (3 + Z.of_nat (List.length rest))
      by (unfold strLength; cbn [List.length]; lia).
    destruct (3 + Z.of_nat (List.length rest) =? 1) eqn:E1;
      [apply Z.eqb_eq in E1; lia|].
    destruct (3 + Z.of_nat (List.length rest) >? 2) eqn:E2;
      [|rewrite Z.gtb_ltb in E2; apply Z.ltb_ge in E2; lia].
    change (substringTo (d1 :: d2 :: d3 :: rest) 2) with [d1; d2].
    destruct (allDigits_three d1 d2 d3 rest Ddp) as (D12 & D3 & _).
    pose proof (digitsValue_two d1 d2 D12) as B12.
    assert (P : 100 < 2 ^ 53) by now vm_compute.
    destruct (geq (parseInt (first (substring (d1 :: d2 :: d3 :: rest) 2))) 5);
      [|cbn [fst snd]; now apply Two].
    rewrite (parseInt_exact [d1; d2]) by (assumption || discriminate || lia).
    cbn [add]. rewrite toNumber_exact by lia. cbn [geq].
    destruct (100 <=? digitsValue [d1; d2] + 1) eqn:C; cbn [fst snd].
    + destruct (parseInt_finite ip0) as (x & Ex & Bx); [assumption.. | lia |].
      rewrite Ex. cbn [add].
      pose proof (digitsValue_bounds ip0 D0) as Bv. unfold strLength in Bv.
      pose proof (pow10_bound _ 300 L0) as Pw.
      assert (T : 2 * 10 ^ Z.of_nat 300 + 1 < 2 ^ 1023) by now vm_compute.
      destruct (toNumber_finite (x + 1)) as [y Ey]; [lia|].
      apply parseInt_numberToString. exists y. split; [assumption|].
      apply (toNumber_nonneg (x + 1)); [lia | assumption].
    + apply Z.leb_gt in C. rewrite numberToString_small by lia.
      destruct (padStart_two (digitsValue [d1; d2] + 1)) as (Lp & Dp & _);
        [lia|].
      now apply Two.
Qed.

(** C5, as the claim states it, fails when the digits overflow a Number:
    on a string of 400 nines, which is neither blank nor left with a
    non-digit, [parseMoney] returns Infinity, and with ".995" appended it
    returns NaN; neither is an integer. *)
Lemma overflow_is_not_an_integer :
  let nines := repeat 57%N 400 in
  trim nines <> [] /\
  allDigits (integerPartOf nines) = true /\
  allDigits (decimalPartOf nines) = true /\
  parseMoney (VString nines) = Return (Inf false) /\
  parseMoney (VString (nines ++ utf16 ".995")) = Return NaN /\
  ~ (exists z, parseMoney (VString nines) = Return (Fin z)).
Proof.
  assert (E : parseMoney (VString (repeat 57%N 400)) = Return (Inf false))
    by (vm_compute; reflexivity).
  cbv zeta.
  split; [vm_compute; discriminate|].
  split; [vm_compute; reflexivity|].
  split; [vm_compute; reflexivity|].
  split; [exact E|].
  split; [vm_compute; reflexivity|].
  intros [z H]. rewrite E in H. discriminate.
Qed.

(** C5, amended.  [parseMoney] fails with EmptyInput exactly when the
    argument is not a string or is empty once trimmed; it fails with
    InvalidCharacters exactly when, after cleaning, splitting and sign
    stripping, the integer part or the decimal part holds a character that
    is not a digit; in every other case it returns a Number, and that
    Number is a signed integer whenever the integer part has at most 300
    digits (far longer digit strings overflow to Infinity or NaN). *)
Theorem parseMoney_outcomes (v : value) :
  (failsWith v EmptyInput <-> blank v) /\
  (failsWith v InvalidCharacters <-> leftover v) /\
  (~ blank v -> ~ leftover v ->
   exists n, parseMoney v = Return n /\
     forall s, v = VString s -> (List.length (integerPartOf s) <= 300)%nat ->
               exists z, n = Fin z).
Proof.
  unfold failsWith. destruct v as [s|]; cbn [blank leftover].
  2:{ split; [|split].
      - split; [trivial | intros _; now exists InputMustBeString].
      - split; [intros (e & [= <-] & K); discriminate K | intros []].
      - intros H. now contradiction H. }
  unfold integerPartOf, decimalPartOf, parseMoney.
  destruct (trim s) as [|c r] eqn:T; cbn [isEmpty].
  { split; [|split].
    - split; [reflexivity | intros _; now exists EmptyMoneyString].
    - split; [intros (e & [= <-] & K); discriminate K
             | intros [N _]; now contradiction N].
    - intros H. now contradiction H. }
  destruct (amountParts (cleanText (c :: r))) as [[ip dp] isNegative] eqn:P.
  cbn [fst snd].
  destruct (allDigits ip) eqn:Dip; cbn [negb].
  2:{ split; [|split].
      - split; [intros (e & [= <-] & K); discriminate K | discriminate].
      - split; [intros _; split; [discriminate | now left]
               | intros _; now exists (InvalidIntegerPart s)].
      - intros _ H. contradiction H. split; [discriminate | now left]. }
  destruct (allDigits dp) eqn:Ddp; cbn [negb].
  2:{ split; [|split].
      - split; [intros (e & [= <-] & K); discriminate K | discriminate].
      - split; [intros _; split; [discriminate | now right]
               | intros _; now exists (InvalidDecimalPart s)].
      - intros _ H. contradiction H. split; [discriminate | now right]. }
  split; [|split].
  - split; [|discriminate].
    intros (e & E & _). destruct (normalizeParts ip dp). discriminate E.
  - split; [|intros (_ & [H|H]); discriminate H].
    intros (e & E & _). destruct (normalizeParts ip dp). discriminate E.
  - intros _ _. pose proof (result_finite ip dp Dip Ddp) as F.
    destruct (normalizeParts ip dp) as [ip' dp']. cbn [fst snd] in F.
    eexists. split; [reflexivity|]. intros s' [= <-] L.
    rewrite T, P in L. cbn [fst] in L.
    destruct (F L) as [z ->]. destruct isNegative; cbn [neg]; eauto.
Qed.

(** The theorem above at a concrete input. *)
Lemma parseMoney_outcomes_witness :
  exists n, parseMoney (VString (utf16 "$1,234.56")) = Return n /\
    forall s, VString (utf16 "$1,234.56") = VString s ->
              (List.length (integerPartOf s) <= 300)%nat ->
              exists z, n = Fin z.
Proof.
  apply (parseMoney_outcomes (VString (utf16 "$1,234.56"))).
  - vm_compute. discriminate.
  - vm_compute. intros [_ [H|H]]; discriminate H.
Defined.

(** ** A leading minus sign *)

Lemma dropWhile_incl p s : incl (dropWhile p s) s.
Proof.
  induction s as [|x r IH]; cbn; [apply incl_refl|].
  destruct (p x); [now apply incl_tl | apply incl_refl].
Qed.

Lemma takeWhile_incl p s : incl (takeWhile p s) s.
Proof.
  induction s as [|x r IH]; cbn; [apply incl_refl|].
  destruct (p x); [|intros ? []]. intros y [<-|H]; [now left|right; auto].
Qed.

Lemma rev_incl (s : jsstring) : incl (rev s) s.
Proof. intros x H. now apply in_rev. Qed.

Lemma incl_rev_r (s : jsstring) : incl s (rev s).
Proof. intros x H. now apply in_rev in H. Qed.

Lemma trimEnd_incl s : incl (trimEnd s) s.
Proof.
  unfold trimEnd. eapply incl_tran; [apply rev_incl|].
  eapply incl_tran; [apply dropWhile_incl | apply rev_incl].
Qed.

Lemma trim_incl s : incl (trim s) s.
Proof.
  unfold trim, trimStart.
  eapply incl_tran; [apply trimEnd_incl | apply dropWhile_incl].
Qed.

Lemma removeLeadingCode_incl s : incl (removeLeadingCode s) s.
Proof.
  unfold removeLeadingCode. destruct s as [|a [|b [|c r]]]; try apply incl_refl.
  destruct (_ && _); [|apply incl_refl].
  do 3 apply incl_tl. apply dropWhile_incl.
Qed.

Lemma removeTrailingCode_incl s : incl (removeTrailingCode s) s.
Proof.
  unfold removeTrailingCode.
  destruct (rev s) as [|c [|b [|a r]]] eqn:E; try apply incl_refl.
  destruct (_ && _); [|apply incl_refl].
  eapply incl_tran; [apply rev_incl|].
  eapply incl_tran; [apply dropWhile_incl|].
  eapply incl_tran; [|apply rev_incl]. rewrite E. now do 3 apply incl_tl.
Qed.

Lemma cleanText_incl t : incl (cleanText t) t.
Proof.
  unfold cleanText.
  eapply incl_tran; [apply trim_incl|].
  eapply incl_tran; [apply removeTrailingCode_incl|].
  eapply incl_tran; [apply removeLeadingCode_incl|].
  unfold withoutCurrency. destruct t as [|c r]; [apply incl_refl|].
  destruct (isCurrencySymbol c); [now apply incl_tl | apply incl_refl].
Qed.

Lemma removeAll_incl p s : incl (removeAll p s) s.
Proof. intros x. apply removeAll_subset. Qed.

Lemma unsigned_incl a b : incl a b -> unsigned b -> unsigned a.
Proof. intros I U c H. apply U, I, H. Qed.

Lemma unsigned_includes s c :
  unsigned s -> isSignMark c = true -> includes c s = false.
Proof.
  intros U H. apply includes_false_forall. intros x Hx.
  destruct (c =? x)%N eqn:E; [|reflexivity].
  apply N.eqb_eq in E. subst x. rewrite (U c Hx) in H. discriminate.
Qed.

Lemma space_not_letter c : isWhiteSpace c = true -> isLetter c = false.
Proof. unfold isWhiteSpace, isLetter. intros H. bool_hyps; char_false. Qed.

Lemma trimEnd_rev r : rev (dropWhile isWhiteSpace r) = trimEnd (rev r).
Proof. unfold trimEnd. now rewrite rev_involutive. Qed.

(** A prefix without letters stays in front when a trailing code is
    removed, unless the text is nothing but the code. *)
Lemma removeTrailingCode_app p t c r0 :
  (forall x, In x p -> isLetter x = false) ->
  t = c :: r0 -> isWhiteSpace c = false -> leadingCode t = false ->
  removeTrailingCode (p ++ t) = p ++ removeTrailingCode t /\
  exists x', removeTrailingCode t = c :: x'.
Proof.
  intros Hp Et Hc Hl. unfold removeTrailingCode. rewrite rev_app_distr.
  assert (R : t = rev (rev t)) by now rewrite rev_involutive.
  assert (Pl : forall x, In x (rev p) -> isLetter x = false)
    by (intros x Hx; apply Hp; now apply in_rev).
  destruct (rev t) as [|z [|y [|x q]]]; cbn [rev app] in R |- *.
  - rewrite Et in R. discriminate R.
  - split; [|exists r0; congruence].
    destruct (rev p) as [|b [|a r]]; try reflexivity.
    rewrite (Pl a) by (right; now left). reflexivity.
  - split; [|exists r0; congruence].
    destruct (rev p) as [|a r]; try reflexivity.
    rewrite (Pl a) by now left. reflexivity.
  - destruct (isLetter x && isLetter y && isLetter z) eqn:L.
    2:{ split; [reflexivity | exists r0; congruence]. }
    rewrite !trimEnd_rev, rev_app_distr, rev_involutive.
    destruct (rev q) as [|q0 q'] eqn:Q.
    { exfalso. cbn in R. rewrite R in Hl. cbn in Hl. congruence. }
    assert (q0 = c) by (rewrite Et in R; cbn in R; congruence). subst q0.
    destruct (trimEnd_head c q' Hc) as [x' E].
    split; [|now exists x'].
    apply trimEnd_app. rewrite E. discriminate.
Qed.

(** Cleaning "-" followed by [s] gives "-", the leading white space of
    [s], and the cleaned text of [s], when the trimmed [s] begins with no
    currency symbol and no code. *)
Lemma cleanText_minus s :
  trim s <> [] -> leadingSymbolOrCode (trim s) = false ->
  trim (MINUS :: s) = MINUS :: takeWhile isWhiteSpace s ++ trim s /\
  cleanText (trim (MINUS :: s)) =
    MINUS :: takeWhile isWhiteSpace s ++ cleanText (trim s).
Proof.
  intros Ne Lead. set (w := takeWhile isWhiteSpace s).
  assert (T : trim (MINUS :: s) = MINUS :: w ++ trim s).
  { unfold trim at 1, trimStart. rewrite dropWhile_head by reflexivity.
    rewrite <- (takeWhile_dropWhile isWhiteSpace s) at 1. fold w.
    rewrite (app_comm_cons w), trimEnd_app by exact Ne. reflexivity. }
  split; [exact T|]. rewrite T.
  destruct (trim_is_solid s Ne) as [(c & r0 & Et & Hc) _].
  unfold leadingSymbolOrCode in Lead. rewrite Et in Lead.
  apply orb_false_iff in Lead as [Cur Code]. rewrite <- Et in Code.
  assert (Wl : forall x, In x (MINUS :: w) -> isLetter x = false).
  { intros x [<-|Hx]; [reflexivity|]. apply space_not_letter.
    subst w. pose proof (takeWhile_forallb isWhiteSpace s) as F.
    rewrite forallb_forall in F. auto. }
  destruct (removeTrailingCode_app (MINUS :: w) (trim s) c r0 Wl Et Hc Code)
    as (App & x' & Ex).
  unfold cleanText, withoutCurrency. cbn [app].
  change (isCurrencySymbol MINUS) with false. cbn iota.
  rewrite removeLeadingCode_plain by reflexivity.
  rewrite Et at 2. rewrite Cur.
  assert (Lc : removeLeadingCode (trim s) = trim s).
  { unfold removeLeadingCode. unfold leadingCode in Code.
    destruct (trim s) as [|a [|b [|d r]]]; try reflexivity. now rewrite Code. }
  rewrite Lc. cbn [app] in App. rewrite App, Ex.
  destruct (trimEnd_head c x' Hc) as [x'' E'].
  unfold trim, trimStart.
  rewrite (dropWhile_head _ c x') by exact Hc.
  rewrite (dropWhile_head _ MINUS) by reflexivity.
  rewrite (app_comm_cons w), trimEnd_app by (rewrite E'; discriminate).
  reflexivity.
Qed.

Lemma amountParts_eq x :
  amountParts x =
  let sep := separators x in
  let sp := splitAmount x (fst sep) in
  let i2 := removeAll isWhiteSpace (removeThousands (snd sep) (fst sp)) in
  (removeAll isSignMark i2, removeAll isWhiteSpace (snd sp),
   includes MINUS i2 || includes LPAREN i2).
Proof.
  unfold amountParts. destruct (separators x) as [d th].
  cbn [fst snd]. now destruct (splitAmount x d).
Qed.

Lemma separators_cases x :
  separators x = (Some COMMA, Some DOT) \/
  separators x = (Some DOT, Some COMMA) \/
  separators x = (None, None).
Proof.
  rewrite separators_by_order.
  destruct (_ >? _); [now left|]. destruct (_ >? _); [right; now left|].
  right. now right.
Qed.

(** A prefix that holds neither '.' nor ',' does not change the roles. *)
Lemma separators_app p x :
  includes DOT p = false -> includes COMMA p = false ->
  separators (p ++ x) = separators x.
Proof.
  intros HD HC. rewrite !separators_by_order.
  rewrite !lastIndexOf_app by assumption.
  pose proof (lastIndexOf_bounds DOT x) as BD.
  pose proof (lastIndexOf_bounds COMMA x) as BC.
  unfold strLength in *.
  set (a := lastIndexOf COMMA x) in *. set (b := lastIndexOf DOT x) in *.
  set (n := Z.of_nat (List.length p)). assert (0 <= n) by (subst n; lia).
  rewrite !Z.gtb_ltb.
  destruct (a <? 0) eqn:A, (b <? 0) eqn:B;
    try apply Z.ltb_lt in A; try apply Z.ltb_lt in B;
    try apply Z.ltb_ge in A; try apply Z.ltb_ge in B.
  - replace a with (-1) by lia. replace b with (-1) by lia. reflexivity.
  - replace a with (-1) by lia.
    destruct (n + b <? -1) eqn:E1; [apply Z.ltb_lt in E1; lia|].
    destruct (b <? -1) eqn:E2; [apply Z.ltb_lt in E2; lia|].
    destruct (-1 <? n + b) eqn:E3; [|apply Z.ltb_ge in E3; lia].
    destruct (-1 <? b) eqn:E4; [|apply Z.ltb_ge in E4; lia]. reflexivity.
  - replace b with (-1) by lia.
    destruct (-1 <? n + a) eqn:E1; [|apply Z.ltb_ge in E1; lia].
    destruct (-1 <? a) eqn:E2; [|apply Z.ltb_ge in E2; lia]. reflexivity.
  - destruct (n + b <? n + a) eqn:E1, (b <? a) eqn:E2;
      try apply Z.ltb_lt in E1; try apply Z.ltb_lt in E2;
      try apply Z.ltb_ge in E1; try apply Z.ltb_ge in E2; try lia;
      try reflexivity.
    destruct (n + a <? n + b) eqn:E3, (a <? b) eqn:E4;
      try apply Z.ltb_lt in E3; try apply Z.ltb_lt in E4;
      try apply Z.ltb_ge in E3; try apply Z.ltb_ge in E4; try lia;
      reflexivity.
Qed.

Lemma splitAmount_app p x d :
  (forall sep, d = Some sep -> includes sep p = false) ->
  splitAmount (p ++ x) d =
    (p ++ fst (splitAmount x d), snd (splitAmount x d)).
Proof.
  intros H. unfold splitAmount. destruct d as [sep|]; [|reflexivity].
  rewrite includes_app, (H sep eq_refl). cbn [orb].
  destruct (includes sep x); [|reflexivity].
  rewrite split_app by now apply H. reflexivity.
Qed.

Lemma splitAmount_incl x d : incl (fst (splitAmount x d)) x.
Proof.
  unfold splitAmount. destruct d as [sep|]; [|apply incl_refl].
  destruct (includes sep x); [|apply incl_refl].
  cbn [fst]. rewrite split_head. apply takeWhile_incl.
Qed.

Lemma removeThousands_app p th i :
  (forall sep, th = Some sep -> includes sep p = false) ->
  removeThousands th (p ++ i) = p ++ removeThousands th i.
Proof.
  intros H. unfold removeThousands. destruct th as [sep|]; [|reflexivity].
  rewrite removeAll_app. f_equal. apply removeAll_none.
  now apply includes_false_forall, H.
Qed.

Lemma removeThousands_incl th i : incl (removeThousands th i) i.
Proof.
  unfold removeThousands. destruct th; [apply removeAll_incl | apply incl_refl].
Qed.

(** Lines 46-114 behind "-" and white space: the same parts, negative. *)
Lemma amountParts_minus w x :
  forallb isWhiteSpace w = true -> unsigned x ->
  amountParts (MINUS :: w ++ x) = (fst (amountParts x), true) /\
  snd (amountParts x) = false.
Proof.
  intros W U. rewrite forallb_forall in W.
  assert (NoSep : forall c, isWhiteSpace c = false -> (c =? MINUS)%N = false ->
                  includes c (MINUS :: w) = false).
  { intros c Hc Hm. apply includes_false_forall. intros y [<-|Hy]; [assumption|].
    destruct (c =? y)%N eqn:E; [|reflexivity].
    apply N.eqb_eq in E. subst y. rewrite (W c Hy) in Hc. discriminate. }
  assert (PD : includes DOT (MINUS :: w) = false) by now apply NoSep.
  assert (PC : includes COMMA (MINUS :: w) = false) by now apply NoSep.
  assert (Roles : forall sep,
            fst (separators x) = Some sep \/ snd (separators x) = Some sep ->
            includes sep (MINUS :: w) = false).
  { intros sep.
    destruct (separators_cases x) as [E|[E|E]]; rewrite E; cbn [fst snd];
      intros [[= <-]|[= <-]]; assumption. }
  rewrite (app_comm_cons w x MINUS), !amountParts_eq. cbv zeta.
  rewrite separators_app by assumption.
  rewrite splitAmount_app by (intros; apply Roles; now left).
  cbn [fst snd].
  rewrite removeThousands_app by (intros; apply Roles; now right).
  set (i1 := removeThousands (snd (separators x))
               (fst (splitAmount x (fst (separators x))))).
  assert (U1 : unsigned (removeAll isWhiteSpace i1)).
  { eapply unsigned_incl; [|exact U].
    eapply incl_tran; [apply removeAll_incl|].
    eapply incl_tran; [apply removeThousands_incl | apply splitAmount_incl]. }
  rewrite removeAll_app.
  assert (Pw : removeAll isWhiteSpace (MINUS :: w) = [MINUS]).
  { rewrite removeAll_cons. change (isWhiteSpace MINUS) with false. cbn iota.
    f_equal. apply removeAll_all. now apply forallb_forall. }
  rewrite Pw. cbn [app].
  rewrite removeAll_cons. change (isSignMark MINUS) with true. cbn iota.
  change (includes MINUS (MINUS :: removeAll isWhiteSpace i1))
    with (true || includes MINUS (removeAll isWhiteSpace i1)).
  cbn [orb]. split; [reflexivity|].
  now rewrite !(unsigned_includes _ _ U1).
Qed.

(** C7, as the claim states it, fails when the text begins with a currency
    symbol or code: "$5" has no sign mark and gives 500, but "-$5" is
    rejected, because the symbol is only removed at the very start. *)
Lemma minus_before_currency_symbol :
  unsigned (utf16 "$5") /\
  parseMoney (VString (utf16 "$5")) = Return (Fin 500) /\
  parseMoney (VString (MINUS :: utf16 "$5"))
    = Throw (InvalidIntegerPart (utf16 "-$5")) /\
  parseMoney (VString (utf16 "USD 5")) = Return (Fin 500) /\
  parseMoney (VString (MINUS :: utf16 "USD 5"))
    = Throw (InvalidIntegerPart (utf16 "-USD 5")).
Proof.
  split; [|repeat split; vm_compute; reflexivity].
  intros c [<-|[<-|[]]]; reflexivity.
Qed.

(** C7, amended.  For every string [s] without sign mark ('-', '(', ')')
    which, once trimmed, begins neither with a recognised currency symbol
    nor with three letters, and on which [parseMoney] succeeds,
    [parseMoney] succeeds on "-" followed by [s] and gives the opposite
    number. *)
Theorem minus_negates (s : jsstring) (result : number) :
  unsigned s ->
  leadingSymbolOrCode (trim s) = false ->
  parseMoney (VString s) = Return result ->
  parseMoney (VString (MINUS :: s)) = Return (neg result).
Proof.
  intros U Lead. unfold parseMoney.
  destruct (trim s) as [|c r] eqn:T; [discriminate|]. cbn [isEmpty].
  assert (Ne : trim s <> []) by (rewrite T; discriminate).
  rewrite <- T in Lead. destruct (cleanText_minus s Ne Lead) as [Tm Cm].
  rewrite Cm, Tm. cbn [isEmpty]. rewrite <- T.
  assert (Ux : unsigned (cleanText (trim s))).
  { eapply unsigned_incl; [|exact U].
    eapply incl_tran; [apply cleanText_incl | apply trim_incl]. }
  destruct (amountParts_minus (takeWhile isWhiteSpace s) (cleanText (trim s)))
    as [Am An]; [apply takeWhile_forallb | exact Ux |].
  rewrite Am.
  destruct (amountParts (cleanText (trim s))) as [[ip dp] isNegative].
  cbn [fst snd] in *. subst isNegative.
  destruct (allDigits ip); cbn [negb]; [|discriminate].
  destruct (allDigits dp); cbn [negb]; [|discriminate].
  destruct (normalizeParts ip dp) as [ip' dp'].
  now intros [= <-].
Qed.

(** The theorem above at a concrete input. *)
Lemma minus_negates_witness :
  parseMoney (VString (MINUS :: utf16 " 1,234.56 EUR"))
    = Return (neg (Fin 123456)).
Proof.
  apply (minus_negates (utf16 " 1,234.56 EUR") (Fin 123456)).
  - intros c H. cbn in H.
    repeat (destruct H as [<-|H]; [reflexivity|]). destruct H.
  - reflexivity.
  - vm_compute. reflexivity.
Defined.

(** ** Inputs without an amount *)

Lemma trimEnd_pad b w : forallb isWhiteSpace w = true -> trimEnd (b ++ w) = trimEnd b.
Proof.
  induction w as [|x w IH] using rev_ind; intros H.
  - now rewrite app_nil_r.
  - rewrite forallb_app in H. apply andb_true_iff in H as [Hw Hx].
    cbn in Hx. rewrite andb_true_r in Hx.
    rewrite app_assoc, trimEnd_snoc_space by assumption. now apply IH.
Qed.

Lemma trim_pad w1 b w2 :
  forallb isWhiteSpace w1 = true -> forallb isWhiteSpace w2 = true ->
  solid b -> trim (w1 ++ b ++ w2) = b.
Proof.
  intros H1 H2 S. unfold trim, trimStart. rewrite dropWhile_app by assumption.
  destruct S as [(c & r & E & Hc) S2]. rewrite E at 1.
  cbn [app]. rewrite dropWhile_head by assumption.
  rewrite (app_comm_cons r w2 c), <- E, trimEnd_pad by assumption.
  apply trimEnd_solid. split; [now exists c, r | exact S2].
Qed.

Lemma currency_not_space c : isCurrencySymbol c = true -> isWhiteSpace c = false.
Proof.
  unfold isCurrencySymbol, currencySymbols. cbn [existsb]. intros H.
  bool_hyps; subst c; reflexivity.
Qed.

Lemma letter_not_space c : isLetter c = true -> isWhiteSpace c = false.
Proof.
  intros H. destruct (isWhiteSpace c) eqn:E; [|reflexivity].
  apply space_not_letter in E. congruence.
Qed.

Lemma currencyOnly_solid b : currencyOnly b -> solid b.
Proof.
  intros [sym H | a b0 c H _ | sym w a b0 c H _ L].
  - apply currency_not_space in H.
    split; [now exists sym, [] | now exists [], sym].
  - bool_hyps. split; [exists a, [b0; c] | exists [a; b0], c];
      split; auto using letter_not_space.
  - bool_hyps. split.
    + exists sym, (w ++ [a; b0; c]). split; auto using currency_not_space.
    + exists (sym :: w ++ [a; b0]), c. split; auto using letter_not_space.
      cbn [app]. now rewrite <- app_assoc.
Qed.

Lemma currencyOnly_clean b : currencyOnly b -> cleanText b = [].
Proof.
  intros [sym H | a b0 c H C | sym w a b0 c H W L];
    unfold cleanText, withoutCurrency.
  - now rewrite H.
  - rewrite C. unfold removeLeadingCode. now rewrite H.
  - rewrite H.
    assert (E : removeLeadingCode (w ++ [a; b0; c]) = w ++ [a; b0; c] \/
                removeLeadingCode (w ++ [a; b0; c]) = []).
    { destruct w as [|x w'].
      - right. cbn [app]. unfold removeLeadingCode. now rewrite L.
      - left. cbn [app]. apply removeLeadingCode_plain.
        cbn in W. apply andb_true_iff in W as [Wx _].
        now apply space_not_letter. }
    destruct E as [-> | ->]; [|reflexivity].
    unfold removeTrailingCode. rewrite rev_app_distr. cbn [rev app].
    rewrite L, dropWhile_all by now rewrite forallb_reverse.
    reflexivity.
Qed.

(** What holds of C10: padded with white space, a currency symbol alone,
    a code alone that does not begin with a currency symbol (so not with R
    or r), or a symbol followed by a code, gives 0. *)
Lemma currency_only_gives_zero w1 b w2 :
  forallb isWhiteSpace w1 = true -> forallb isWhiteSpace w2 = true ->
  currencyOnly b ->
  cleanText (trim (w1 ++ b ++ w2)) = [] /\
  parseMoney (VString (w1 ++ b ++ w2)) = Return (Fin 0).
Proof.
  intros H1 H2 C. unfold parseMoney.
  rewrite (trim_pad w1 b w2 H1 H2 (currencyOnly_solid b C)).
  rewrite (currencyOnly_clean b C). split; [reflexivity|].
  destruct C; reflexivity.
Qed.

(** C10.  A currency symbol or a currency code alone gives 0 ("$", "USD",
    "EUR " and "$ USD" do), but a code that begins with R or r does not:
    in "RUB" the R is removed as a currency symbol, "UB" is no longer a
    three-letter code, and the input is rejected. *)
Theorem currency_code_starting_with_R :
  parseMoney (VString (utf16 "$")) = Return (Fin 0) /\
  parseMoney (VString (utf16 "USD")) = Return (Fin 0) /\
  parseMoney (VString (utf16 "EUR ")) = Return (Fin 0) /\
  parseMoney (VString (utf16 "$ USD")) = Return (Fin 0) /\
  cleanText (utf16 "USD") = [] /\
  cleanText (utf16 "RUB") = utf16 "UB" /\
  parseMoney (VString (utf16 "RUB")) = Throw (InvalidIntegerPart (utf16 "RUB")) /\
  parseMoney (VString (utf16 "RUB 50"))
    = Throw (InvalidIntegerPart (utf16 "RUB 50")) /\
  parseMoney (VString (utf16 "USD 50")) = Return (Fin 5000).
Proof. repeat split; vm_compute; reflexivity. Qed.

(** * Further properties of [parseMoney] *)

(** ** Exchanging the two separators *)

Section MapCommutes.

Variable f : codeunit -> codeunit.
Variables p q : codeunit -> bool.
Hypothesis same : forall c, q (f c) = p c.

Lemma dropWhile_map s : dropWhile q (map f s) = map f (dropWhile p s).
Proof.
  induction s as [|x r IH]; [reflexivity|]. cbn [map dropWhile].
  rewrite same. now destruct (p x).
Qed.

Lemma takeWhile_map s : takeWhile q (map f s) = map f (takeWhile p s).
Proof.
  induction s as [|x r IH]; [reflexivity|]. cbn [map takeWhile].
  rewrite same. destruct (p x); [cbn [map]; now rewrite IH | reflexivity].
Qed.

Lemma removeAll_map s : removeAll q (map f s) = map f (removeAll p s).
Proof.
  induction s as [|x r IH]; [reflexivity|]. cbn [map].
  rewrite !removeAll_cons, same. destruct (p x); [exact IH|].
  cbn [map]. now rewrite IH.
Qed.

Lemma forallb_map_same s : forallb q (map f s) = forallb p s.
Proof.
  induction s as [|x r IH]; [reflexivity|]. cbn [map forallb].
  now rewrite same, IH.
Qed.

Lemma existsb_map_same s : existsb q (map f s) = existsb p s.
Proof.
  induction s as [|x r IH]; [reflexivity|]. cbn [map existsb].
  now rewrite same, IH.
Qed.

End MapCommutes.

Lemma swapSeparator_cases c :
  (c = DOT /\ swapSeparator c = COMMA) \/
  (c = COMMA /\ swapSeparator c = DOT) \/
  (c <> DOT /\ c <> COMMA /\ swapSeparator c = c).
Proof.
  unfold swapSeparator.
  destruct (c =? DOT)%N eqn:D; [apply N.eqb_eq in D; now left|].
  destruct (c =? COMMA)%N eqn:C; [apply N.eqb_eq in C; right; now left|].
  apply N.eqb_neq in D, C. right. now right.
Qed.

(** A class that holds '.' and ',' alike does not see the exchange. *)
Lemma swapSeparator_class (P : codeunit -> bool) c :
  P DOT = P COMMA -> P (swapSeparator c) = P c.
Proof.
  intros H. destruct (swapSeparator_cases c) as [[-> ->]|[[-> ->]|(_ & _ & ->)]];
    auto.
Qed.

Lemma swapSeparator_eqb c d :
  (swapSeparator c =? swapSeparator d)%N = (c =? d)%N.
Proof.
  destruct (swapSeparator_cases c) as [[-> ->]|[[-> ->]|(Hc1 & Hc2 & ->)]];
  destruct (swapSeparator_cases d) as [[-> ->]|[[-> ->]|(Hd1 & Hd2 & ->)]];
    try reflexivity.
  all: match goal with
       | |- (?a =? ?b)%N = (?c =? ?d)%N =>
         let A := fresh in let B := fresh in
         destruct (a =? b)%N eqn:A; destruct (c =? d)%N eqn:B;
         try reflexivity; bool_hyps; subst;
         try congruence; try discriminate
       end.
Qed.

Lemma exchange_space s :
  dropWhile isWhiteSpace (exchange s) = exchange (dropWhile isWhiteSpace s).
Proof. apply dropWhile_map. intros c. now apply swapSeparator_class. Qed.

Lemma exchange_rev s : rev (exchange s) = exchange (rev s).
Proof. unfold exchange. now rewrite map_rev. Qed.

Lemma exchange_trimEnd s : trimEnd (exchange s) = exchange (trimEnd s).
Proof.
  unfold trimEnd. now rewrite exchange_rev, exchange_space, exchange_rev.
Qed.

Lemma exchange_trim s : trim (exchange s) = exchange (trim s).
Proof.
  unfold trim, trimStart. now rewrite exchange_space, exchange_trimEnd.
Qed.

Lemma exchange_cleanText s : cleanText (exchange s) = exchange (cleanText s).
Proof.
  assert (L : forall c, isLetter (swapSeparator c) = isLetter c)
    by (intros c; now apply swapSeparator_class).
  assert (A : withoutCurrency (exchange s) = exchange (withoutCurrency s)).
  { destruct s as [|c r]; [reflexivity|]. cbn [exchange map withoutCurrency].
    rewrite (swapSeparator_class isCurrencySymbol) by reflexivity.
    now destruct (isCurrencySymbol c). }
  assert (B : forall t, removeLeadingCode (exchange t)
                        = exchange (removeLeadingCode t)).
  { intros [|a [|b [|c r]]]; try reflexivity.
    cbn [exchange map removeLeadingCode]. rewrite !L.
    destruct (_ && _); [|reflexivity]. apply exchange_space. }
  assert (C : forall t, removeTrailingCode (exchange t)
                        = exchange (removeTrailingCode t)).
  { intros t. unfold removeTrailingCode. rewrite exchange_rev.
    destruct (rev t) as [|c [|b [|a r]]]; try reflexivity.
    cbn [exchange map]. rewrite !L. destruct (_ && _); [|reflexivity].
    fold (exchange r). now rewrite exchange_space, exchange_rev. }
  unfold cleanText. now rewrite A, B, C, exchange_trim.
Qed.

Lemma exchange_lastIndexOf c s :
  lastIndexOf (swapSeparator c) (exchange s) = lastIndexOf c s.
Proof.
  unfold lastIndexOf. generalize 0 (-1).
  induction s as [|x r IH]; intros i found; [reflexivity|].
  cbn [exchange map lastIndexOfFrom]. rewrite swapSeparator_eqb. apply IH.
Qed.

Lemma exchange_includes c s :
  includes (swapSeparator c) (exchange s) = includes c s.
Proof.
  unfold includes, exchange. apply existsb_map_same.
  intros x. apply swapSeparator_eqb.
Qed.

Lemma exchange_split c s :
  split (swapSeparator c) (exchange s) = map exchange (split c s).
Proof.
  induction s as [|x r IH]; [reflexivity|]. cbn [exchange map split].
  rewrite swapSeparator_eqb. fold (exchange r). rewrite IH.
  destruct (x =? c)%N; [reflexivity|]. now destruct (split c r).
Qed.

Lemma exchange_concat l :
  List.concat (map exchange l) = exchange (List.concat l).
Proof. unfold exchange. now rewrite concat_map. Qed.

(** The roles are exchanged with the characters. *)
Lemma exchange_separators s :
  separators (exchange s) =
  (option_map swapSeparator (fst (separators s)),
   option_map swapSeparator (snd (separators s))).
Proof.
  rewrite !separators_by_order.
  rewrite <- (exchange_lastIndexOf COMMA s), <- (exchange_lastIndexOf DOT s).
  change (swapSeparator COMMA) with DOT. change (swapSeparator DOT) with COMMA.
  set (a := lastIndexOf DOT (exchange s)).
  set (b := lastIndexOf COMMA (exchange s)).
  rewrite !Z.gtb_ltb.
  destruct (a <? b) eqn:E1, (b <? a) eqn:E2; try reflexivity.
  apply Z.ltb_lt in E1, E2. lia.
Qed.

Lemma exchange_splitAmount s d :
  splitAmount (exchange s) (option_map swapSeparator d) =
  (exchange (fst (splitAmount s d)), exchange (snd (splitAmount s d))).
Proof.
  unfold splitAmount. destruct d as [sep|]; [|reflexivity].
  cbn [option_map]. rewrite exchange_includes.
  destruct (includes sep s); [|reflexivity].
  rewrite exchange_split. cbn [fst snd]. unfold join.
  destruct (split sep s) as [|h t]; [reflexivity|].
  cbn [map hd tl]. now rewrite exchange_concat.
Qed.

Lemma exchange_removeThousands th i :
  removeThousands (option_map swapSeparator th) (exchange i) =
  exchange (removeThousands th i).
Proof.
  destruct th as [sep|]; [|reflexivity]. cbn [option_map removeThousands].
  apply removeAll_map. intros c. apply swapSeparator_eqb.
Qed.

Lemma exchange_digits s : allDigits s = true -> exchange s = s.
Proof.
  unfold allDigits, exchange. induction s as [|x r IH]; [reflexivity|].
  cbn [forallb map]. intros H. apply andb_true_iff in H as [Hx Hr].
  rewrite (IH Hr). f_equal.
  destruct (swapSeparator_cases x) as [[-> _]|[[-> _]|(_ & _ & E)]];
    [discriminate Hx | discriminate Hx | exact E].
Qed.

Lemma exchange_allDigits s : allDigits (exchange s) = allDigits s.
Proof.
  unfold allDigits, exchange. apply forallb_map_same.
  intros c. now apply swapSeparator_class.
Qed.

Lemma exchange_amountParts s :
  amountParts (exchange s) =
  (exchange (fst (fst (amountParts s))), exchange (snd (fst (amountParts s))),
   snd (amountParts s)).
Proof.
  assert (W : forall t, removeAll isWhiteSpace (exchange t)
                        = exchange (removeAll isWhiteSpace t))
    by (intros t; apply removeAll_map; intros c;
        now apply swapSeparator_class).
  assert (S : forall t, removeAll isSignMark (exchange t)
                        = exchange (removeAll isSignMark t))
    by (intros t; apply removeAll_map; intros c;
        now apply swapSeparator_class).
  rewrite !amountParts_eq. cbv zeta. cbn [fst snd].
  rewrite exchange_separators. cbn [fst snd].
  rewrite exchange_splitAmount. cbn [fst snd].
  rewrite exchange_removeThousands, !W, S.
  change MINUS with (swapSeparator MINUS) at 1.
  change LPAREN with (swapSeparator LPAREN) at 1.
  now rewrite !exchange_includes.
Qed.

Lemma exchange_verdict input :
  verdict (parseMoney (VString (exchange input))) =
  verdict (parseMoney (VString input)).
Proof.
  unfold parseMoney. rewrite exchange_trim.
  destruct (trim input) as [|c r] eqn:T; [reflexivity|].
  cbn [exchange map isEmpty]. fold (exchange r).
  change (swapSeparator c :: exchange r) with (exchange (c :: r)).
  rewrite exchange_cleanText, exchange_amountParts.
  destruct (amountParts (cleanText (c :: r))) as [[ip dp] isNegative].
  cbn [fst snd]. rewrite !exchange_allDigits.
  destruct (allDigits ip) eqn:Dip; cbn [negb]; [|reflexivity].
  destruct (allDigits dp) eqn:Ddp; cbn [negb]; [|reflexivity].
  now rewrite (exchange_digits ip Dip), (exchange_digits dp Ddp).
Qed.

(** Exchanging every '.' with ',' and every ',' with '.' in the input never
    changes what [parseMoney] makes of it: the same number is returned, or
    the same error is thrown (which carries the input as it was given). *)
Theorem exchange_same_verdict (input : jsstring) :
  verdict (parseMoney (VString (exchange input))) =
  verdict (parseMoney (VString input)).
Proof. exact (exchange_verdict input). Qed.

(** ** Grouped digits and long fractions *)

Lemma verdict_return o n : verdict o = Return n -> o = Return n.
Proof. destruct o as [m|[| | |]]; cbn; congruence. Qed.

(** The outcome depends on the input through lines 46-114 only, up to the
    text an error carries. *)
Lemma parseMoney_same_parts a b :
  trim a <> [] -> trim b <> [] ->
  amountParts (cleanText (trim a)) = amountParts (cleanText (trim b)) ->
  verdict (parseMoney (VString a)) = verdict (parseMoney (VString b)).
Proof.
  intros Ha Hb E. unfold parseMoney. rewrite E.
  set (parts := amountParts (cleanText (trim b))). clearbody parts. clear E.
  destruct (trim a); [now contradiction Ha|].
  destruct (trim b); [now contradiction Hb|]. cbn [isEmpty].
  destruct parts as [[ip dp] isNegative].
  destruct (allDigits ip); cbn [negb]; [|reflexivity].
  destruct (allDigits dp); cbn [negb]; reflexivity.
Qed.

Lemma lastIndexOf_app_absent c p s :
  includes c s = false -> lastIndexOf c (p ++ s) = lastIndexOf c p.
Proof.
  intros H. induction p as [|x p IH].
  - cbn [app]. now apply lastIndexOf_absent.
  - cbn [app]. now rewrite !lastIndexOf_cons, IH.
Qed.

Lemma dropWhile_app_stop p a x r :
  p x = false -> dropWhile p (a ++ x :: r) = dropWhile p a ++ x :: r.
Proof.
  intros H. induction a as [|y a IH]; cbn [app dropWhile].
  - now rewrite H.
  - now destruct (p y).
Qed.

Lemma groupChar_cases c :
  groupChar c = true ->
  (isDigit c = true /\ isWhiteSpace c = false /\ isSignMark c = false /\
   (COMMA =? c)%N = false /\ (DOT =? c)%N = false) \/
  (isDigit c = false /\ ((COMMA =? c)%N = true \/ isWhiteSpace c = true) /\
   isSignMark c = false /\ (DOT =? c)%N = false).
Proof.
  unfold groupChar. intros H. destruct (isDigit c) eqn:D.
  - left. repeat split; auto using digit_not_space, digit_not_sign,
      digit_not_comma, digit_not_dot.
  - right. cbn [orb] in H. apply orb_true_iff in H as [H|H].
    + apply N.eqb_eq in H. subst c. now vm_compute; auto.
    + split; [reflexivity|]. split; [now right|].
      unfold isWhiteSpace, isSignMark, DOT, MINUS, LPAREN, RPAREN in *.
      split; bool_hyps; char_false.
Qed.

(** Removing commas, white space and sign marks from grouped digits leaves
    the digits. *)
Lemma groupChars_digits w :
  forallb groupChar w = true ->
  removeAll isSignMark (removeAll isWhiteSpace (removeAll (N.eqb COMMA) w))
    = filter isDigit w /\
  includes DOT w = false /\
  includes MINUS (removeAll isWhiteSpace (removeAll (N.eqb COMMA) w)) = false /\
  includes LPAREN (removeAll isWhiteSpace (removeAll (N.eqb COMMA) w)) = false.
Proof.
  induction w as [|c w IH]; [now cbn|].
  cbn [forallb]. intros H. apply andb_true_iff in H as [Hc Hw].
  destruct (IH Hw) as (I1 & I2 & I3 & I4).
  change (includes DOT (c :: w)) with ((DOT =? c)%N || includes DOT w).
  cbn [filter]. rewrite (removeAll_cons (N.eqb COMMA)).
  destruct (groupChar_cases c Hc)
    as [(D & W & S & C & P)|(D & [C|W] & S & P)]; rewrite D, P, I2.
  - rewrite C, removeAll_cons, W, removeAll_cons, S, I1.
    change (includes ?x (c :: ?r)) with ((x =? c)%N || includes x r).
    rewrite I3, I4, digit_not_minus, digit_not_lparen by assumption.
    auto.
  - rewrite C. auto.
  - destruct (COMMA =? c)%N; [auto|].
    rewrite removeAll_cons, W. auto.
Qed.

(** Lines 46-114 on a grouped amount with a decimal point. *)
Lemma amountParts_grouped (neg : bool) (w f : jsstring) :
  forallb groupChar w = true -> allDigits f = true ->
  amountParts ((if neg then [MINUS] else []) ++ w ++ DOT :: f)
    = (filter isDigit w, f, neg).
Proof.
  intros Hw Hf. destruct (groupChars_digits w Hw) as (G1 & G2 & G3 & G4).
  set (sign := if neg then [MINUS] else []).
  assert (SD : includes DOT sign = false)
    by (subst sign; now destruct neg).
  assert (PD : includes DOT (sign ++ w) = false)
    by now rewrite includes_app, SD, G2.
  assert (FD : includes DOT f = false) by now apply includes_digits.
  assert (FC : includes COMMA f = false) by now apply includes_digits.
  assert (Roles : separators (sign ++ w ++ DOT :: f) = (Some DOT, Some COMMA)).
  { rewrite separators_by_order, app_assoc.
    rewrite (lastIndexOf_app DOT) by assumption.
    rewrite (lastIndexOf_app_absent COMMA)
      by (change (includes COMMA (DOT :: f))
            with (false || includes COMMA f); now rewrite FC).
    rewrite lastIndexOf_cons.
    apply lastIndexOf_absent in FD. rewrite FD.
    change (-1 <? 0) with true. cbn iota. change (DOT =? DOT)%N with true.
    cbn iota. change (0 <? 0) with false. cbn iota.
    pose proof (lastIndexOf_bounds COMMA (sign ++ w)) as B.
    rewrite !Z.gtb_ltb.
    destruct (strLength (sign ++ w) + 0 <? lastIndexOf COMMA (sign ++ w)) eqn:E1;
      [apply Z.ltb_lt in E1; lia|].
    destruct (lastIndexOf COMMA (sign ++ w) <? strLength (sign ++ w) + 0) eqn:E2;
      [reflexivity | apply Z.ltb_ge in E2; lia]. }
  rewrite amountParts_eq. cbv zeta. rewrite Roles. cbn [fst snd].
  unfold splitAmount.
  assert (In1 : includes DOT (sign ++ w ++ DOT :: f) = true).
  { rewrite app_assoc, includes_app.
    change (includes DOT (DOT :: f)) with (true || includes DOT f).
    now rewrite orb_true_r. }
  rewrite In1, (app_assoc sign), split_at by assumption.
  rewrite (split_absent DOT f) by assumption.
  cbn [hd tl join List.concat fst snd removeThousands]. rewrite app_nil_r.
  rewrite !removeAll_app.
  assert (S1 : removeAll isWhiteSpace (removeAll (N.eqb COMMA) sign) = sign)
    by (subst sign; now destruct neg).
  rewrite S1, !includes_app, G1, G3, G4.
  rewrite (removeAll_space_digits f) by assumption.
  subst sign. now destruct neg.
Qed.

Lemma filter_digits_allDigits w : allDigits (filter isDigit w) = true.
Proof.
  unfold allDigits. apply forallb_forall. intros x H.
  now apply filter_In in H.
Qed.

(** The text of a grouped amount, trimmed and cleaned, is itself with the
    leading white space gone. *)
Lemma cleanText_grouped (neg : bool) (w f : jsstring) :
  forallb groupChar w = true -> allDigits f = true ->
  exists w',
    forallb groupChar w' = true /\ filter isDigit w' = filter isDigit w /\
    trim ((if neg then [MINUS] else []) ++ w ++ DOT :: f)
      = (if neg then [MINUS] else []) ++ w' ++ DOT :: f /\
    cleanText ((if neg then [MINUS] else []) ++ w' ++ DOT :: f)
      = (if neg then [MINUS] else []) ++ w' ++ DOT :: f.
Proof.
  intros Hw Hf.
  assert (Last : forall p, exists r' c',
            p ++ DOT :: f = r' ++ [c'] /\ plain c').
  { intros p. destruct f as [|f0 fs].
    - exists p, DOT. split; [reflexivity | apply plain_dot].
    - destruct (exists_last (l := f0 :: fs)) as (r' & c' & E');
        [discriminate|].
      exists (p ++ DOT :: r'), c'. split.
      + rewrite E'. now rewrite <- app_assoc.
      + apply plain_digit. unfold allDigits in Hf.
        rewrite forallb_forall in Hf. apply Hf. rewrite E'.
        apply in_or_app. right. now left. }
  assert (Clean : forall t c r, t = c :: r -> plain c ->
            (exists r' c', t = r' ++ [c'] /\ plain c') ->
            trim t = t /\ cleanText t = t).
  { intros t c r E Pc (r' & c' & E' & Pc'). split.
    - apply trim_solid. split; [exists c, r | exists r', c']; split; auto;
        [apply Pc | apply Pc'].
    - now apply (cleanText_plain t c r r' c'). }
  destruct neg; cbn [app].
  - exists w. split; [assumption|]. split; [reflexivity|].
    destruct (Last (MINUS :: w)) as (r' & c' & E' & Pc').
    apply (Clean _ MINUS (w ++ DOT :: f) eq_refl plain_minus).
    now exists r', c'.
  - exists (dropWhile isWhiteSpace w).
    assert (Sub : forallb groupChar (dropWhile isWhiteSpace w) = true).
    { apply forallb_forall. intros x Hx. rewrite forallb_forall in Hw.
      apply Hw. now apply (dropWhile_incl isWhiteSpace w). }
    assert (Same : filter isDigit (dropWhile isWhiteSpace w) = filter isDigit w).
    { clear. induction w as [|x w IH]; [reflexivity|]. cbn [dropWhile].
      destruct (isWhiteSpace x) eqn:E; [|reflexivity].
      cbn [filter]. destruct (isDigit x) eqn:D; [|exact IH].
      apply digit_not_space in D. congruence. }
    split; [assumption|]. split; [assumption|].
    assert (T : trim (w ++ DOT :: f)
                = trim (dropWhile isWhiteSpace w ++ DOT :: f)).
    { unfold trim, trimStart. rewrite dropWhile_app_stop by reflexivity.
      f_equal. destruct (dropWhile isWhiteSpace w) as [|x r] eqn:E;
        [reflexivity|].
      cbn [app]. rewrite dropWhile_head; [reflexivity|].
      destruct w as [|y w']; [discriminate E|].
      clear -E. revert E. generalize (y :: w'). intros l.
      induction l as [|z l IH]; cbn [dropWhile]; [discriminate|].
      destruct (isWhiteSpace z) eqn:Z; [exact IH|]. now intros [= <- _]. }
    rewrite T.
    destruct (dropWhile isWhiteSpace w) as [|x r] eqn:E.
    + cbn [app]. destruct (Last []) as (r' & c' & E' & Pc').
      apply (Clean _ DOT f eq_refl plain_dot). now exists r', c'.
    + assert (Px : plain x).
      { assert (Wx : isWhiteSpace x = false).
        { clear -E. revert E. induction w as [|z l IH]; cbn [dropWhile];
            [discriminate|].
          destruct (isWhiteSpace z) eqn:Z; [exact IH|]. now intros [= <- _]. }
        rewrite forallb_forall in Sub.
        destruct (groupChar_cases x (Sub x (or_introl eq_refl)))
          as [(D & _)|(_ & [C|W] & _)].
        - now apply plain_digit.
        - apply N.eqb_eq in C. subst x. now vm_compute.
        - congruence. }
      destruct (Last (x :: r)) as (r' & c' & E' & Pc').
      apply (Clean _ x (r ++ DOT :: f) eq_refl Px). now exists r', c'.
Qed.

(** [parseMoney] once lines 46-114 are known to leave digits. *)
Lemma parseMoney_from_parts input ip dp (isNegative : bool) :
  trim input <> [] ->
  amountParts (cleanText (trim input)) = (ip, dp, isNegative) ->
  allDigits ip = true -> allDigits dp = true ->
  parseMoney (VString input) =
  Return (let result := parseInt (fst (normalizeParts ip dp)
                                  ++ snd (normalizeParts ip dp)) in
          if isNegative then neg result else result).
Proof.
  intros Ne E Dip Ddp. unfold parseMoney. rewrite E.
  destruct (trim input); [now contradiction Ne|]. cbn [isEmpty].
  rewrite Dip, Ddp. cbn [negb]. now destruct (normalizeParts ip dp).
Qed.

Lemma grouped_parts (neg : bool) (w f : jsstring) :
  forallb groupChar w = true -> allDigits f = true ->
  trim ((if neg then [MINUS] else []) ++ w ++ DOT :: f) <> [] /\
  amountParts (cleanText (trim ((if neg then [MINUS] else []) ++ w ++ DOT :: f)))
    = (filter isDigit w, f, neg).
Proof.
  intros Hw Hf.
  destruct (cleanText_grouped neg w f Hw Hf) as (w' & Hw' & Fw & T & C).
  rewrite T, C. split.
  - destruct neg; [discriminate|]. cbn [app]. now destruct w'.
  - now rewrite amountParts_grouped, Fw.
Qed.

(** Commas and white space among the digits before a decimal point are
    passed over: with at most two digits after the point, the amount is a
    hundred times the numeral the digits write.  The same holds of the
    text with '.' and ',' exchanged (points as grouping, a decimal
    comma). *)
Theorem grouped_amount (neg : bool) (w f : jsstring) :
  forallb groupChar w = true -> allDigits f = true ->
  (List.length f <= 2)%nat -> filter isDigit w <> [] ->
  let amount :=
    hundredfold {| negative := neg; whole := filter isDigit w;
                   fraction := Some f |} in
  let input := (if neg then [MINUS] else []) ++ w ++ DOT :: f in
  Z.abs amount <= 2 ^ 53 ->
  parseMoney (VString input) = Return (Fin amount) /\
  parseMoney (VString (exchange input)) = Return (Fin amount).
Proof.
  intros Hw Hf Lf Nw amount input B.
  set (d := {| negative := neg; whole := filter isDigit w;
               fraction := Some f |}) in *.
  assert (WF : wellFormed d).
  { repeat split; cbn; auto using filter_digits_allDigits. }
  assert (E : parseMoney (VString input) = Return (Fin amount)).
  { destruct (grouped_parts neg w f Hw Hf) as [Ne P].
    rewrite (parseMoney_from_parts input _ _ _ Ne P)
      by auto using filter_digits_allDigits.
    destruct (normalizeParts_numeral d WF) as (dp & NP & Ddp & Ldp & Vdp).
    unfold d in NP, Vdp. cbn [whole fraction fractionDigits] in NP, Vdp.
    rewrite NP. cbn [fst snd].
    rewrite parseInt_digits
      by (rewrite ?allDigits_app, ?filter_digits_allDigits, ?Ddp; auto;
          now destruct (filter isDigit w)).
    rewrite digitsValue_app, Ldp, Vdp. change (10 ^ 2) with 100.
    cbv zeta. subst amount. unfold d, hundredfold in *.
    cbn [negative whole fraction fractionDigits] in *.
    destruct neg.
    - rewrite <- toNumber_opp, <- (toNumber_exact _ B).
      apply f_equal, f_equal. ring.
    - rewrite <- (toNumber_exact _ B). apply f_equal, f_equal. ring. }
  split; [exact E|].
  apply verdict_return. now rewrite exchange_verdict, E.
Qed.

(** The theorem above at a concrete input. *)
Lemma grouped_amount_witness :
  parseMoney (VString (utf16 "-1,234 567.8")) = Return (Fin (-123456780)) /\
  parseMoney (VString (utf16 "-1.234 567,8")) = Return (Fin (-123456780)).
Proof.
  apply (grouped_amount true (utf16 "1,234 567") (utf16 "8"));
    [reflexivity | reflexivity | cbn; lia | discriminate
    | vm_compute; discriminate].
Defined.

(** Beyond 2^53 the carry of the rounding can be lost: 2^53 units and .995
    stay at 2^53 units and no hundredths. *)
Lemma long_fraction_carry_lost :
  parseMoney (VString (utf16 "9007199254740992.995"))
    = Return (Fin 900719925474099200) /\
  900719925474099200 <> 9007199254740993 * 100.
Proof. split; [vm_compute; reflexivity | discriminate]. Qed.

(** With three digits or more after the decimal point of a grouped amount
    (at least one digit before the point), the amount is rounded half up on
    the third digit alone: the hundredths that the first two digits write,
    one more when the third digit is 5 or more, a carry into the integer
    part included; this as long as the rounded amount in minor units is at
    most 2^53 (beyond, the carry can be lost). *)
Theorem long_fraction_rounds_on_third_digit (neg : bool)
  (w : jsstring) (d1 d2 d3 : codeunit) (rest : jsstring) :
  forallb groupChar w = true -> filter isDigit w <> [] ->
  allDigits (d1 :: d2 :: d3 :: rest) = true ->
  let amount :=
    digitsValue (filter isDigit w ++ [d1; d2])
    + (if 5 <=? digitsValue [d3] then 1 else 0) in
  amount <= 2 ^ 53 ->
  parseMoney (VString ((if neg then [MINUS] else []) ++ w
                       ++ DOT :: d1 :: d2 :: d3 :: rest))
    = Return (Fin (if neg then - amount else amount)).
Proof.
  intros Hw Nw Hf amount B.
  set (ip := filter isDigit w) in *.
  assert (Dip : allDigits ip = true) by apply filter_digits_allDigits.
  destruct (allDigits_three d1 d2 d3 rest Hf) as (D12 & D3 & _).
  pose proof (digitsValue_two d1 d2 D12) as B12.
  pose proof (digitsValue_bounds [d3] D3) as B3.
  change (10 ^ strLength [d3]) with 10 in B3.
  pose proof (digitsValue_bounds ip Dip) as Bip.
  assert (V : digitsValue (ip ++ [d1; d2])
              = digitsValue ip * 100 + digitsValue [d1; d2])
    by (rewrite digitsValue_app; reflexivity).
  assert (Small : digitsValue ip < 2 ^ 53).
  { subst amount. rewrite V in B. destruct (5 <=? digitsValue [d3]); lia. }
  destruct (grouped_parts neg w (d1 :: d2 :: d3 :: rest) Hw Hf) as [Ne P].
  fold ip in P.
  rewrite (parseMoney_from_parts _ _ _ _ Ne P) by assumption.
  rewrite (normalizeParts_long ip d1 d2 d3 rest) by assumption.
  assert (Exact : forall s v, allDigits s = true -> s <> [] ->
            digitsValue s = v -> v = amount ->
            (let result := parseInt s in if neg then JS.neg result else result)
            = Fin (if neg then - amount else amount)).
  { intros s v Ds Ns Vs Va. cbv zeta.
    rewrite parseInt_exact by (assumption || lia). rewrite Vs, Va.
    now destruct neg. }
  subst amount. rewrite V in *.
  rewrite (Z.leb_antisym (digitsValue [d3]) 5) in *.
  destruct (digitsValue [d3] <? 5) eqn:E3; cbn [negb fst snd] in *.
  - apply f_equal. apply (Exact _ (digitsValue ip * 100 + digitsValue [d1; d2]));
      [now rewrite allDigits_app, Dip, D12 | now destruct ip
      | exact V | lia].
  - destruct (digitsValue [d1; d2] + 1 <? 100) eqn:E; cbn [fst snd].
    + apply Z.ltb_lt in E.
      destruct (padStart_two (digitsValue [d1; d2] + 1)) as (L & D & Vp);
        [lia|].
      apply f_equal. apply (Exact _ (digitsValue ip * 100 + (digitsValue [d1; d2] + 1)));
        [now rewrite allDigits_app, Dip, D | now destruct ip | | lia].
      rewrite digitsValue_app, Vp. unfold strLength. rewrite L. reflexivity.
    + apply Z.ltb_ge in E.
      destruct (digits_spec (digitsValue ip + 1)) as (D & N & Vd); [lia|].
      apply f_equal. apply (Exact _ ((digitsValue ip + 1) * 100));
        [now rewrite allDigits_app, D | now destruct (digits _)
        | | lia].
      rewrite digitsValue_app, Vd. change (10 ^ strLength str_00) with 100.
      change (digitsValue str_00) with 0. lia.
Qed.

(** The theorem above at a concrete input. *)
Lemma long_fraction_rounds_on_third_digit_witness :
  parseMoney (VString (utf16 "1,999.9951")) = Return (Fin 200000).
Proof.
  apply (long_fraction_rounds_on_third_digit false (utf16 "1,999")
           57%N 57%N 53%N (utf16 "1"));
    [reflexivity | discriminate | reflexivity | vm_compute; discriminate].
Defined.

(** ** Currency symbols and codes around the amount *)

Lemma plainEnds_solid t : plainEnds t -> solid t.
Proof.
  intros [(x & r & E & Px) (r' & y & E' & Py)].
  split; [exists x, r | exists r', y]; split; auto; [apply Px | apply Py].
Qed.

Lemma plainEnds_clean t : plainEnds t -> cleanText t = t.
Proof.
  intros [(x & r & E & Px) (r' & y & E' & Py)].
  now apply (cleanText_plain t x r r' y).
Qed.

Lemma removeTrailingCode_after y0 t q :
  plainEnds t -> decorationAfter q ->
  removeTrailingCode (y0 ++ t ++ q) = y0 ++ t.
Proof.
  intros [_ (r' & y & -> & Py)] [|w a b c W L].
  - rewrite app_nil_r, app_assoc. apply removeTrailingCode_plain, Py.
  - unfold removeTrailingCode.
    replace (y0 ++ (r' ++ [y]) ++ w ++ [a; b; c])
      with ((y0 ++ (r' ++ [y]) ++ w) ++ [a; b; c])
      by now rewrite <- !app_assoc.
    rewrite rev_app_distr. cbn [rev app]. rewrite L, trimEnd_rev, rev_involutive.
    rewrite app_assoc, trimEnd_pad by assumption.
    rewrite app_assoc. apply trimEnd_snoc, Py.
Qed.

Lemma removeLeadingCode_before p z :
  decorationBefore p -> (exists x r, z = x :: r /\ plain x) ->
  exists w, forallb isWhiteSpace w = true /\
            removeLeadingCode (withoutCurrency (p ++ z)) = w ++ z.
Proof.
  intros Hp (x & r & -> & (Wx & Lx & Cx)).
  assert (Strip : forall a b c w,
            isLetter a && isLetter b && isLetter c = true ->
            forallb isWhiteSpace w = true ->
            removeLeadingCode ([a; b; c] ++ w ++ x :: r) = x :: r).
  { intros a b c w L W. cbn [app]. unfold removeLeadingCode. rewrite L.
    unfold trimStart. rewrite dropWhile_app by assumption.
    now apply dropWhile_head. }
  destruct Hp as [|sym w S W|a b c w L C W|sym a b c w S L W].
  - exists []. split; [reflexivity|]. cbn [app]. unfold withoutCurrency.
    rewrite Cx. now apply removeLeadingCode_plain.
  - exists w. split; [assumption|]. cbn [app]. unfold withoutCurrency.
    rewrite S. destruct w as [|w0 w'].
    + now apply removeLeadingCode_plain.
    + cbn [app]. apply removeLeadingCode_plain.
      cbn in W. apply andb_true_iff in W as [W0 _].
      now apply space_not_letter.
  - exists []. split; [reflexivity|]. cbn [app]. unfold withoutCurrency.
    rewrite C. exact (Strip a b c w L W).
  - exists []. split; [reflexivity|]. cbn [app]. unfold withoutCurrency.
    rewrite S. exact (Strip a b c w L W).
Qed.

Lemma decorated_solid p t q :
  decorationBefore p -> decorationAfter q -> plainEnds t ->
  solid (p ++ t ++ q).
Proof.
  intros Hp Hq [(x & r & E & (Wx & _)) (r' & y & E' & (Wy & _))]. split.
  - destruct Hp as [|sym w S W|a b c w L C W|sym a b c w S L W].
    + rewrite E. now exists x, (r ++ q).
    + exists sym, (w ++ t ++ q). split; auto using currency_not_space.
    + bool_hyps. exists a, ([b; c] ++ w ++ t ++ q).
      split; [now rewrite <- app_assoc | auto using letter_not_space].
    + exists sym, (([a; b; c] ++ w) ++ t ++ q).
      split; auto using currency_not_space.
  - destruct Hq as [|w a b c W L].
    + exists (p ++ r'), y. rewrite E', app_nil_r. split; [|assumption].
      now rewrite app_assoc.
    + bool_hyps. exists (p ++ t ++ w ++ [a; b]), c.
      split; [|auto using letter_not_space].
      rewrite <- !app_assoc. reflexivity.
Qed.

Lemma decorated_clean p t q :
  decorationBefore p -> decorationAfter q -> plainEnds t ->
  cleanText (p ++ t ++ q) = t.
Proof.
  intros Hp Hq Ht. pose proof Ht as [(x & r & E & Px) _].
  destruct (removeLeadingCode_before p (t ++ q) Hp) as (w & W & Lead).
  { exists x, (r ++ q). split; [now rewrite E | assumption]. }
  unfold cleanText. rewrite Lead, removeTrailingCode_after by assumption.
  rewrite <- (app_nil_r (w ++ t)), <- app_assoc.
  apply trim_pad; [assumption | reflexivity | now apply plainEnds_solid].
Qed.

(** A currency symbol or a currency code before the amount, a code after
    it, and white space around them are all passed over: the decorated
    text gives the outcome of the bare amount text (the same number, or
    the same error). *)
Theorem decorations_ignored (w0 p t q w1 : jsstring) :
  forallb isWhiteSpace w0 = true -> forallb isWhiteSpace w1 = true ->
  decorationBefore p -> decorationAfter q -> plainEnds t ->
  verdict (parseMoney (VString (w0 ++ (p ++ t ++ q) ++ w1))) =
  verdict (parseMoney (VString t)).
Proof.
  intros W0 W1 Hp Hq Ht.
  pose proof (trim_pad w0 _ w1 W0 W1 (decorated_solid p t q Hp Hq Ht)) as T.
  pose proof (trim_solid t (plainEnds_solid t Ht)) as Tt.
  assert (Nt : t <> []) by (destruct Ht as [(x & r & -> & _) _]; discriminate).
  apply parseMoney_same_parts.
  - rewrite T. intros E. apply Nt.
    apply app_eq_nil in E as [_ E]. now apply app_eq_nil in E as [E _].
  - now rewrite Tt.
  - now rewrite T, Tt, decorated_clean, plainEnds_clean.
Qed.

(** The theorem above at a concrete input. *)
Lemma decorations_ignored_witness :
  verdict (parseMoney (VString (utf16 " $USD 1,000.50 EUR  "))) =
  verdict (parseMoney (VString (utf16 "1,000.50"))).
Proof.
  apply (decorations_ignored (utf16 " ") (utf16 "$USD ") (utf16 "1,000.50")
           (utf16 " EUR") (utf16 "  ")).
  - reflexivity.
  - reflexivity.
  - apply (BeforeSymbolCode 36%N 85%N 83%N 68%N (utf16 " ")); reflexivity.
  - apply (AfterCode (utf16 " ") 69%N 85%N 82%N); reflexivity.
  - split; [exists 49%N, (utf16 ",000.50") | exists (utf16 "1,000.5"), 48%N];
      split; try reflexivity; now vm_compute.
Defined.

(** ** What lines 125-149 keep *)

(** Whatever digits come in, the decimal part leaves lines 125-149 as
    exactly two digits; and an integer part of digits below 2^53 leaves
    them as a non-empty string of digits. *)
Theorem decimal_part_two_digits (integerPart decimalPart : jsstring) :
  allDigits decimalPart = true ->
  (strLength (snd (normalizeParts integerPart decimalPart)) = 2 /\
   allDigits (snd (normalizeParts integerPart decimalPart)) = true) /\
  (allDigits integerPart = true -> digitsValue integerPart < 2 ^ 53 ->
   fst (normalizeParts integerPart decimalPart) <> [] /\
   allDigits (fst (normalizeParts integerPart decimalPart)) = true).
Proof.
  intros Ddp. unfold normalizeParts.
  set (ip0 := if isEmpty integerPart then str_0 else integerPart).
  assert (H0 : allDigits integerPart = true ->
               digitsValue integerPart < 2 ^ 53 ->
               ip0 <> [] /\ allDigits ip0 = true).
  { intros D B. subst ip0. destruct integerPart; cbn [isEmpty];
      (split; [discriminate|]); try assumption; reflexivity. }
  assert (H1 : digitsValue integerPart < 2 ^ 53 -> digitsValue ip0 < 2 ^ 53).
  { intros B. subst ip0. destruct integerPart; cbn [isEmpty];
      [now vm_compute | assumption]. }
  destruct decimalPart as [|d1 [|d2 [|d3 rest]]].
  - cbn [isEmpty fst snd]. split; [now split | intros D B; now apply H0].
  - cbn [isEmpty]. change (strLength [d1] =? 1) with true. cbn [fst snd].
    split; [|intros D B; now apply H0].
    split; [reflexivity | now rewrite allDigits_app, Ddp].
  - cbn [isEmpty]. change (strLength [d1; d2] =? 1) with false.
    change (strLength [d1; d2] >? 2) with false. cbn [fst snd].
    split; [now split | intros D B; now apply H0].
  - cbn [isEmpty].
    replace (strLength (d1 :: d2 :: d3 :: rest))
      with (3 + Z.of_nat (List.length rest))
      by (unfold strLength; cbn [List.length]; lia).
    destruct (3 + Z.of_nat (List.length rest) =? 1) eqn:E1;
      [apply Z.eqb_eq in E1; lia|].
    destruct (3 + Z.of_nat (List.length rest) >? 2) eqn:E2;
      [|rewrite Z.gtb_ltb in E2; apply Z.ltb_ge in E2; lia].
    change (substringTo (d1 :: d2 :: d3 :: rest) 2) with [d1; d2].
    destruct (allDigits_three d1 d2 d3 rest Ddp) as (D12 & D3 & _).
    pose proof (digitsValue_two d1 d2 D12) as B12.
    assert (P : 100 < 2 ^ 53) by now vm_compute.
    destruct (geq (parseInt (first (substring (d1 :: d2 :: d3 :: rest) 2))) 5);
      [|cbn [fst snd]; split; [now split | intros D B; now apply H0]].
    rewrite (parseInt_exact [d1; d2]) by (assumption || discriminate || lia).
    cbn [add]. rewrite toNumber_exact by lia. cbn [geq].
    destruct (100 <=? digitsValue [d1; d2] + 1) eqn:C; cbn [fst snd].
    + split; [now split|]. intros D B. destruct (H0 D B) as (N0 & D0).
      pose proof (H1 B) as B0.
      pose proof (digitsValue_bounds ip0 D0).
      rewrite (parseInt_exact ip0) by (assumption || lia). cbn [add].
      rewrite toNumber_exact, numberToString_small by lia.
      destruct (digits_spec (digitsValue ip0 + 1)) as (Dd & Nd & _); [lia|].
      now split.
    + apply Z.leb_gt in C. rewrite numberToString_small by lia.
      destruct (padStart_two (digitsValue [d1; d2] + 1)) as (Lp & Dp & _);
        [lia|].
      split; [|intros D B; now apply H0].
      split; [unfold strLength; now rewrite Lp | assumption].
Qed.

(** The theorem above at a concrete input. *)
Lemma decimal_part_two_digits_witness :
  (strLength (snd (normalizeParts (utf16 "12") (utf16 "3"))) = 2 /\
   allDigits (snd (normalizeParts (utf16 "12") (utf16 "3"))) = true) /\
  (allDigits (utf16 "12") = true -> digitsValue (utf16 "12") < 2 ^ 53 ->
   fst (normalizeParts (utf16 "12") (utf16 "3")) <> [] /\
   allDigits (fst (normalizeParts (utf16 "12") (utf16 "3"))) = true).
Proof.
  apply (decimal_part_two_digits (utf16 "12") (utf16 "3")). reflexivity.
Defined.

(** ** Accounting parentheses *)

Lemma lone_dot_roles t :
  includes COMMA t = false -> includes DOT t = true ->
  separators t = (Some DOT, Some COMMA).
Proof.
  intros HC HD. rewrite separators_by_order.
  apply lastIndexOf_absent in HC. apply lastIndexOf_present in HD.
  rewrite HC.
  destruct (-1 >? lastIndexOf DOT t) eqn:E1; [lia|].
  destruct (lastIndexOf DOT t >? -1) eqn:E2; [reflexivity | lia].
Qed.


Lemma plain_lparen : plain LPAREN.
Proof. now vm_compute. Qed.

Lemma plain_rparen : plain RPAREN.
Proof. now vm_compute. Qed.

(** Digits in parentheses are a negative whole amount, the same as the
    digits behind a minus sign: the Number nearest to minus a hundred times
    the digits, which is that integer itself up to 2^53.  With a decimal
    point inside the parentheses the text is always rejected, for its
    decimal part (the closing parenthesis stays there), whatever the digits
    are and even when there are none. *)
Theorem parenthesized_amounts (a f : jsstring) :
  allDigits a = true -> allDigits f = true ->
  parseMoney (VString (LPAREN :: a ++ [RPAREN]))
    = Return (toNumber (- (digitsValue a * 100))) /\
  parseMoney (VString (MINUS :: a))
    = Return (toNumber (- (digitsValue a * 100))) /\
  (digitsValue a * 100 <= 2 ^ 53 ->
   toNumber (- (digitsValue a * 100)) = Fin (- (digitsValue a * 100))) /\
  parseMoney (VString (LPAREN :: a ++ DOT :: f ++ [RPAREN]))
    = Throw (InvalidDecimalPart (LPAREN :: a ++ DOT :: f ++ [RPAREN])).
Proof.
  intros Da Df.
  assert (NoSep : forall c, isDigit c = false -> includes c a = false)
    by (intros c Hc; now apply includes_digits).
  split; [|split; [|split]].
  - destruct a as [|a0 a']; [vm_compute; reflexivity|].
    set (a := a0 :: a') in *.
    assert (Amount : parseInt (a ++ str_00) = toNumber (digitsValue a * 100)).
    { rewrite parseInt_digits;
        [|now rewrite allDigits_app, Da|discriminate].
      rewrite digitsValue_app. change (10 ^ strLength str_00) with 100.
      change (digitsValue str_00) with 0. apply f_equal. lia. }
    assert (Two : normalizeParts a str_00 = (a, str_00)) by reflexivity.
    set (t := LPAREN :: a ++ [RPAREN]).
    assert (Pe : plainEnds t).
    { split; [exists LPAREN, (a ++ [RPAREN]) | exists (LPAREN :: a), RPAREN];
        split; auto using plain_lparen, plain_rparen. }
    assert (P : amountParts t = (a, str_00, true)).
    { rewrite amountParts_eq. cbv zeta. rewrite separators_by_order.
      assert (I : forall c, isDigit c = false -> (c =? LPAREN)%N = false ->
                  (c =? RPAREN)%N = false -> includes c t = false).
      { intros c Hc H1 H2. subst t.
        change (includes c (LPAREN :: a ++ [RPAREN]))
          with ((c =? LPAREN)%N || includes c (a ++ [RPAREN])).
        rewrite H1, includes_app, NoSep by assumption. cbn.
        now rewrite H2. }
      pose proof (I DOT eq_refl eq_refl eq_refl) as ID.
      pose proof (I COMMA eq_refl eq_refl eq_refl) as IC.
      apply lastIndexOf_absent in ID, IC. rewrite ID, IC.
      change (-1 >? -1) with false. cbn iota.
      cbn [fst snd splitAmount removeThousands]. subst t.
      rewrite (removeAll_cons isWhiteSpace), removeAll_app.
      change (isWhiteSpace LPAREN) with false. cbn iota.
      rewrite (removeAll_space_digits a) by assumption.
      change (removeAll isWhiteSpace [RPAREN]) with [RPAREN].
      rewrite (removeAll_cons isSignMark), removeAll_app.
      change (isSignMark LPAREN) with true. cbn iota.
      rewrite (removeAll_sign_digits a) by assumption.
      change (removeAll isSignMark [RPAREN]) with (@nil codeunit).
      rewrite app_nil_r.
      change (includes LPAREN (LPAREN :: a ++ [RPAREN]))
        with (true || includes LPAREN (a ++ [RPAREN])).
      now rewrite orb_true_r. }
    rewrite (parseMoney_from_parts t a str_00 true);
      [ | rewrite (trim_solid t (plainEnds_solid t Pe)); discriminate
        | now rewrite (trim_solid t (plainEnds_solid t Pe)), plainEnds_clean
        | assumption | reflexivity ].
    rewrite Two. cbn [fst snd]. now rewrite Amount, toNumber_opp.
  - destruct a as [|a0 a']; [vm_compute; reflexivity|].
    set (a := a0 :: a') in *.
    pose proof (parseMoney_numeral
                  {| negative := true; whole := a; fraction := None |}) as E.
    unfold text, hundredfold in E. cbn [negative whole fraction fractionDigits]
      in E.
    rewrite app_nil_r in E. cbn [app] in E. rewrite E.
    + apply f_equal, f_equal. change (digitsValue []) with 0. ring.
    + repeat split; auto; try discriminate; cbn; lia.
  - intros B. apply toNumber_exact. rewrite Z.abs_opp.
    pose proof (digitsValue_bounds a Da). lia.
  - set (t := LPAREN :: a ++ DOT :: f ++ [RPAREN]).
    assert (Pe : plainEnds t).
    { split; [exists LPAREN, (a ++ DOT :: f ++ [RPAREN])
             | exists (LPAREN :: a ++ DOT :: f), RPAREN];
        split; auto using plain_lparen, plain_rparen.
      subst t. cbn [app]. now rewrite <- app_assoc. }
    assert (P : amountParts t = (a, f ++ [RPAREN], true)).
    { rewrite amountParts_eq. cbv zeta.
      assert (PD : includes DOT (LPAREN :: a) = false).
      { change (includes DOT (LPAREN :: a)) with (false || includes DOT a).
        now rewrite NoSep. }
      assert (FD : includes DOT (f ++ [RPAREN]) = false).
      { rewrite includes_app, (includes_digits DOT f) by (reflexivity || assumption).
        reflexivity. }
      assert (IC : includes COMMA t = false).
      { subst t.
        change (includes COMMA (LPAREN :: a ++ DOT :: f ++ [RPAREN]))
          with (false || includes COMMA (a ++ DOT :: f ++ [RPAREN])).
        rewrite includes_app, NoSep by reflexivity.
        change (includes COMMA (DOT :: f ++ [RPAREN]))
          with (false || includes COMMA (f ++ [RPAREN])).
        rewrite includes_app, (includes_digits COMMA f)
          by (reflexivity || assumption).
        reflexivity. }
      assert (ID : includes DOT t = true).
      { subst t.
        change (LPAREN :: a ++ DOT :: f ++ [RPAREN])
          with ((LPAREN :: a) ++ DOT :: f ++ [RPAREN]).
        rewrite includes_app.
        change (includes DOT (DOT :: f ++ [RPAREN]))
          with (true || includes DOT (f ++ [RPAREN])).
        now rewrite orb_true_r. }
      rewrite (lone_dot_roles t IC ID). cbn [fst snd].
      unfold splitAmount. rewrite ID. subst t.
      change (LPAREN :: a ++ DOT :: f ++ [RPAREN])
        with ((LPAREN :: a) ++ DOT :: f ++ [RPAREN]).
      rewrite split_at, (split_absent DOT (f ++ [RPAREN])) by assumption.
      cbn [hd tl join List.concat removeThousands fst snd]. rewrite app_nil_r.
      rewrite (removeAll_cons (N.eqb COMMA)).
      change (COMMA =? LPAREN)%N with false. cbn iota.
      rewrite (removeAll_comma_digits a) by assumption.
      rewrite (removeAll_cons isWhiteSpace).
      change (isWhiteSpace LPAREN) with false. cbn iota.
      rewrite (removeAll_space_digits a) by assumption.
      rewrite (removeAll_cons isSignMark).
      change (isSignMark LPAREN) with true. cbn iota.
      rewrite (removeAll_sign_digits a) by assumption.
      rewrite removeAll_app, (removeAll_space_digits f) by assumption.
      change (removeAll isWhiteSpace [RPAREN]) with [RPAREN].
      change (includes LPAREN (LPAREN :: a)) with (true || includes LPAREN a).
      now rewrite orb_true_r. }
    unfold parseMoney. rewrite (trim_solid t (plainEnds_solid t Pe)).
    cbn [isEmpty]. subst t. cbn [isEmpty].
    rewrite plainEnds_clean by assumption. rewrite P, Da. cbn [negb].
    rewrite allDigits_app, Df. reflexivity.
Qed.

(** The theorem above at a concrete input. *)
Lemma parenthesized_amounts_witness :
  parseMoney (VString (utf16 "(500)")) = Return (Fin (-50000)) /\
  parseMoney (VString (utf16 "-500")) = Return (Fin (-50000)) /\
  (digitsValue (utf16 "500") * 100 <= 2 ^ 53 ->
   toNumber (- (digitsValue (utf16 "500") * 100)) =
   Fin (- (digitsValue (utf16 "500") * 100))) /\
  parseMoney (VString (utf16 "(500.25)"))
    = Throw (InvalidDecimalPart (utf16 "(500.25)")).
Proof.
  apply (parenthesized_amounts (utf16 "500") (utf16 "25")); reflexivity.
Defined.

(** * The decimal rendering *)

Import Doubles Display.

(** The rounded quotient is within a half of the exact one. *)
Lemma roundRatio_near n d :
  0 < d -> 2 * n - d <= 2 * d * roundRatio n d <= 2 * n + d.
Proof.
  intros D. unfold roundRatio.
  pose proof (Z.div_mod n d ltac:(lia)) as E.
  pose proof (Z.mod_pos_bound n d D) as B.
  set (q := n / d) in *. set (r := n mod d) in *.
  assert (Q : d * (q + 1) = d * q + d) by ring.
  destruct (2 * r <? d) eqn:E1; [apply Z.ltb_lt in E1; lia|].
  apply Z.ltb_ge in E1.
  destruct (d <? 2 * r) eqn:E2; [apply Z.ltb_lt in E2; lia|].
  apply Z.ltb_ge in E2.
  destruct (Z.even q); lia.
Qed.

(** Dividing an amount in minor units by 100 rounds, but never across an
    integer: the floor of the double is the integer quotient. *)
Lemma floor_ratio_hundred z :
  0 <= z <= 2 ^ 53 -> floor (ratio z 100) = Fin (z / 100).
Proof.
  intros H.
  destruct (Z.eq_dec z 0) as [->|N0]; [reflexivity|].
  destruct (Z.eq_dec z (2 ^ 53)) as [->|N1]; [now vm_compute|].
  unfold ratio. destruct (z =? 0) eqn:E0; [apply Z.eqb_eq in E0; lia|].
  rewrite Z.abs_eq by lia. unfold nearest.
  change (Z.log2 100) with 6.
  assert (L : 0 <= Z.log2 z < 53).
  { split; [apply Z.log2_nonneg | apply Z.log2_lt_pow2; lia]. }
  set (la := Z.log2 z) in *.
  unfold scaled at 1.
  destruct (la - 6 - 53 <? 0) eqn:E1; [|apply Z.ltb_ge in E1; lia].
  set (e1 := if 2 ^ 53 <=? _ then la - 6 - 53 + 1 else la - 6 - 53).
  assert (B : -59 <= e1 <= -6) by (subst e1; destruct (2 ^ 53 <=? _); lia).
  clearbody e1. rewrite Z.max_l by lia. unfold scaled.
  destruct (e1 <? 0) eqn:E2; [|apply Z.ltb_ge in E2; lia].
  destruct (0 <=? e1) eqn:E3; [apply Z.leb_le in E3; lia|].
  cbn [andb floor]. rewrite E2. apply f_equal.
  assert (S : 64 <= 2 ^ (- e1)).
  { change 64 with (2 ^ 6). apply Z.pow_le_mono_r; lia. }
  set (s := 2 ^ (- e1)) in *.
  pose proof (roundRatio_near (z * s) 100 ltac:(lia)) as R.
  set (m := roundRatio (z * s) 100) in *.
  replace (Z.sgn z) with 1 by (symmetry; apply Z.sgn_pos; lia).
  rewrite Z.mul_1_l.
  pose proof (Z.div_mod z 100 ltac:(lia)) as Ez.
  pose proof (Z.mod_pos_bound z 100 ltac:(lia)) as Bz.
  set (q := z / 100) in *. set (r := z mod 100) in *.
  assert (Zs : z * s = 100 * (q * s) + r * s) by (rewrite Ez; ring).
  assert (Rs : 0 <= r * s <= 99 * s) by nia.
  symmetry. apply (Z.div_unique m s q (m - s * q)); [|ring].
  left. replace (s * q) with (q * s) by ring. lia.
Qed.

(** The rendering of an amount in minor units is the numeral that writes it
    with two decimals. *)
Lemma formatted_text z :
  Z.abs z <= 2 ^ 53 ->
  exists d, formatted (Fin z) = text d /\ wellFormed d /\ hundredfold d = z.
Proof.
  intros H.
  pose proof (Z.div_mod (Z.abs z) 100 ltac:(lia)) as Ez.
  pose proof (Z.mod_pos_bound (Z.abs z) 100 ltac:(lia)) as Bz.
  assert (Q : 0 <= Z.abs z / 100 <= 2 ^ 53).
  { split; [apply Z.div_pos; lia|].
    apply Z.le_trans with (Z.abs z); [|exact H].
    apply Z.div_le_upper_bound; lia. }
  destruct (padStart_two (Z.abs z mod 100) Bz) as (L & D & V).
  destruct (digits_spec (Z.abs z / 100)) as (Dw & Nw & Vw); [lia|].
  exists {| negative := z <? 0; whole := digits (Z.abs z / 100);
            fraction := Some (padStart 2 ZERO (digits (Z.abs z mod 100))) |}.
  split; [|split].
  - unfold formatted, text. cbn [abs divide remainder negativeNumber
      negative whole fraction].
    rewrite floor_ratio_hundred by lia.
    rewrite Z.rem_mod_nonneg by lia.
    rewrite !numberToString_small
      by (change (2 ^ 53) with 9007199254740992 in *; lia).
    reflexivity.
  - unfold wellFormed, fractionDigits. cbn [whole fraction].
    rewrite L. repeat split; auto.
  - unfold hundredfold, fractionDigits. cbn [negative whole fraction].
    unfold strLength. rewrite L, V, Vw. change (10 ^ (2 - Z.of_nat 2)) with 1.
    destruct (z <? 0) eqn:E; [apply Z.ltb_lt in E | apply Z.ltb_ge in E]; lia.
Qed.

(** Rendering and parsing back: an amount in minor units within the exact
    integers of a Number is rendered as a text that [parseMoney] reads as
    the same amount. *)
Theorem formatted_round_trip (z : Z) :
  Z.abs z <= 2 ^ 53 ->
  parseMoney (VString (formatted (Fin z))) = Return (Fin z).
Proof.
  intros H. destruct (formatted_text z H) as (d & -> & WF & V).
  rewrite (parseMoney_numeral d WF), V. now rewrite toNumber_exact.
Qed.

(** The theorem above at a concrete input. *)
Lemma formatted_round_trip_witness :
  Z.abs (-50025) <= 2 ^ 53 /\
  formatted (Fin (-50025)) = utf16 "-500.25" /\
  parseMoney (VString (formatted (Fin (-50025)))) = Return (Fin (-50025)).
Proof.
  assert (H : Z.abs (-50025) <= 2 ^ 53) by (vm_compute; discriminate).
  split; [exact H|]. split; [vm_compute; reflexivity|].
  exact (formatted_round_trip (-50025) H).
Defined.

(** * The callers of [parseMoney] *)

(** ** Blank texts *)

Lemma dropWhile_nil p s : dropWhile p s = [] <-> forallb p s = true.
Proof.
  induction s as [|x s IH]; cbn; [tauto|].
  destruct (p x); cbn; [exact IH|]. split; discriminate.
Qed.

Lemma trim_blank s : trim s = [] <-> forallb isWhiteSpace s = true.
Proof.
  split; intros H.
  - apply dropWhile_nil. fold (trimStart s).
    destruct (trimStart s) as [|c r] eqn:E; [reflexivity|].
    destruct (trimStart_head s) as (c' & r' & E' & Hc); [now rewrite E|].
    rewrite E in E'. injection E' as <- <-.
    destruct (trimEnd_head c r Hc) as [r' E'].
    unfold trim in H. rewrite E, E' in H. discriminate.
  - unfold trim, trimStart. now rewrite dropWhile_all.
Qed.

Lemma trim_trim s : trim (trim s) = trim s.
Proof.
  destruct (trim s) as [|c r] eqn:E; [reflexivity|].
  rewrite <- E. apply trim_solid, trim_is_solid. now rewrite E.
Qed.

Lemma isEmpty_false s : isEmpty s = false <-> s <> [].
Proof. destruct s; cbn; split; congruence. Qed.

(** The argument's surrounding white space only shows in the input an error
    carries. *)
Lemma parseMoney_trimmed s :
  verdict (parseMoney (VString (trim s))) = verdict (parseMoney (VString s)).
Proof.
  unfold parseMoney. rewrite trim_trim. cbv zeta.
  destruct (isEmpty (trim s)); [reflexivity|].
  destruct (amountParts (cleanText (trim s))) as [[ip dp] n].
  destruct (negb (allDigits ip)); [reflexivity|].
  destruct (negb (allDigits dp)); [reflexivity|].
  now destruct (normalizeParts ip dp).
Qed.

(** ** The line handler *)

Import Console Interactive.

(** A line of input to the standalone script.  For a blank line the handler
    logs nothing and only prompts again.  For any other line it logs what
    [parseMoney] makes of the line as it was typed, and then prompts again:
    the value and its rendering, or one error; the error is never that of
    an empty text, and it quotes the line without its surrounding white
    space. *)
Theorem line_handler (userInput : jsstring) :
  (forallb isWhiteSpace userInput = true -> onLine userInput = [Prompt]) /\
  (forallb isWhiteSpace userInput = false ->
   match parseMoney (VString userInput) with
   | Return result =>
       onLine userInput =
       [ ConsoleLog (utf16 "  → Parsed value: " ++ numberToString result ++
                     utf16 " (in minor units/cents)");
         ConsoleLog (utf16 "  → Equivalent:   " ++ formatted result ++
                     [NEWLINE]);
         Prompt ]
   | Throw (InvalidIntegerPart _) =>
       onLine userInput =
       [ ConsoleLog (utf16 "  ✗ Error: Invalid characters in integer part: "
                     ++ trim userInput ++ [NEWLINE]);
         Prompt ]
   | Throw (InvalidDecimalPart _) =>
       onLine userInput =
       [ ConsoleLog (utf16 "  ✗ Error: Invalid characters in decimal part: "
                     ++ trim userInput ++ [NEWLINE]);
         Prompt ]
   | Throw _ => False
   end).
Proof.
  split; intros H.
  - apply trim_blank in H. unfold onLine. now rewrite H.
  - assert (N : trim userInput <> []).
    { intros E. apply trim_blank in E. congruence. }
    apply isEmpty_false in N. unfold onLine. rewrite N. cbn [negb].
    pose proof (parseMoney_trimmed userInput) as V.
    assert (E : forall e, parseMoney (VString userInput) = Throw e ->
                e <> InputMustBeString /\ e <> EmptyMoneyString).
    { unfold parseMoney. rewrite N. cbv zeta.
      destruct (amountParts _) as [[ip dp] n].
      destruct (negb (allDigits ip)); [intros e [= <-]; split; discriminate|].
      destruct (negb (allDigits dp)); [intros e [= <-]; split; discriminate|].
      destruct (normalizeParts ip dp). discriminate. }
    assert (T : forall e, parseMoney (VString (trim userInput)) = Throw e ->
                e = InvalidIntegerPart (trim userInput) \/
                e = InvalidDecimalPart (trim userInput)).
    { unfold parseMoney. rewrite trim_trim, N. cbv zeta.
      destruct (amountParts _) as [[ip dp] n].
      destruct (negb (allDigits ip)); [intros e [= <-]; now left|].
      destruct (negb (allDigits dp)); [intros e [= <-]; now right|].
      destruct (normalizeParts ip dp). discriminate. }
    destruct (parseMoney (VString userInput)) as [n|e] eqn:P.
    + apply verdict_return in V. rewrite V. reflexivity.
    + destruct (E e eq_refl) as [E1 E2].
      destruct (parseMoney (VString (trim userInput))) as [n'|e'] eqn:P'.
      * destruct e; discriminate V.
      * destruct (T e' eq_refl) as [->| ->];
          destruct e as [| |m|m]; try discriminate V; try congruence;
          unfold message; cbn [app];
          rewrite <- (app_assoc _ (trim userInput) [NEWLINE]), app_assoc;
          apply (f_equal (fun x =>
                   [ConsoleLog (x ++ trim userInput ++ [NEWLINE]); Prompt]));
          vm_compute; reflexivity.
Qed.

(** The theorem above at a concrete input. *)
Lemma line_handler_witness :
  forallb isWhiteSpace (utf16 "  ") = true /\
  onLine (utf16 "  ") = [Prompt] /\
  forallb isWhiteSpace (utf16 " 12x ") = false /\
  onLine (utf16 " 12x ") =
  [ ConsoleLog (utf16 "  ✗ Error: Invalid characters in integer part: " ++
                trim (utf16 " 12x ") ++ [NEWLINE]);
    Prompt ].
Proof.
  split; [reflexivity|].
  split; [exact (proj1 (line_handler (utf16 "  ")) eq_refl)|].
  split; [reflexivity|].
  exact (proj2 (line_handler (utf16 " 12x ")) eq_refl).
Defined.

(** ** The workflow node *)

Import Node.

Lemma sameString_eq a b : sameString a b = true <-> a = b.
Proof.
  revert b. induction a as [|x a IH]; intros [|y b]; cbn;
    try (split; [discriminate | congruence]); [tauto|].
  rewrite andb_true_iff, N.eqb_eq, IH. split; [intros [-> ->] | intros [= -> ->]];
    auto.
Qed.

Lemma sameString_refl a : sameString a a = true.
Proof. now apply sameString_eq. Qed.

(** Reading back the key just written. *)
Lemma get_set_same key v o : get key (set key v o) = v.
Proof.
  induction o as [|[k x] o IH]; cbn [set get].
  - now rewrite sameString_refl.
  - destruct (sameString k key) eqn:E; cbn [get]; now rewrite E.
Qed.

(** Writing a key leaves the others as they were. *)
Lemma get_set_other key key' v o :
  sameString key key' = false -> get key' (set key v o) = get key' o.
Proof.
  intros H. induction o as [|[k x] o IH]; cbn [set get].
  - now rewrite H.
  - destruct (sameString k key) eqn:E; cbn [get].
    + apply sameString_eq in E. subst k. now rewrite H.
    + now rewrite IH.
Qed.

Lemma node_parseMoney v : N8n.parseMoney v = parseMoney v.
Proof.
  destruct v as [input|]; [|reflexivity].
  rewrite n8n_parseMoney_steps. unfold parseMoney, amountParts.
  cbv zeta. destruct (isEmpty (trim input)); [reflexivity|].
  destruct (separators (cleanText (trim input))) as [dec thou].
  destruct (splitAmount (cleanText (trim input)) dec) as [ip dp].
  reflexivity.
Qed.

(** The node by cases of the budget. *)
Lemma run_cases inputData :
  let budget := optionalProperty (get Answers inputData) Budget in
  let output :=
    set parseError JNull
      (set budgetFormatted JNull
        (set budgetParsed JNull
          (set budgetOriginal budget inputData))) in
  run inputData =
  if truthy budget then
    match parseMoney (argument budget) with
    | Return n =>
        set budgetFormatted (JString (formatted n))
          (set budgetParsed (JNumber (ofNumber n)) output)
    | Throw e => set parseError (JString (message e)) output
    end
  else set parseError (JString missingOrEmpty) output.
Proof. unfold run. now rewrite node_parseMoney. Qed.

Ltac read_key :=
  repeat first
    [ rewrite get_set_same
    | rewrite get_set_other by (vm_compute; reflexivity)
    | rewrite get_set_other by assumption ].

(** The item the node returns.  Every key other than the four it writes
    reads as in the input item; [budgetOriginal] is [Answers?.Budget]; and
    either [parseError] is null while [budgetParsed] is the number
    [parseMoney] returns for the budget and [budgetFormatted] its rendering,
    or [parseError] is a message while both are null. *)
Theorem node_output (inputData : object) :
  let budget := optionalProperty (get Answers inputData) Budget in
  let output := run inputData in
  (forall key, reserved key = false -> get key output = get key inputData) /\
  get budgetOriginal output = budget /\
  match get parseError output with
  | JNull =>
      exists n, N8n.parseMoney (argument budget) = Return n /\
        get budgetParsed output = JNumber (ofNumber n) /\
        get budgetFormatted output = JString (formatted n)
  | JString _ =>
      get budgetParsed output = JNull /\ get budgetFormatted output = JNull
  | _ => False
  end.
Proof.
  intros budget output. subst output. rewrite run_cases. fold budget.
  rewrite node_parseMoney.
  split; [|split].
  - intros key R. unfold reserved in R.
    apply orb_false_iff in R. destruct R as [R R4].
    apply orb_false_iff in R. destruct R as [R R3].
    apply orb_false_iff in R. destruct R as [R1 R2].
    destruct (truthy budget); [destruct (parseMoney (argument budget))|];
      now read_key.
  - destruct (truthy budget); [destruct (parseMoney (argument budget))|];
      now read_key.
  - destruct (truthy budget); [destruct (parseMoney (argument budget)) as [n|e]|];
      read_key; [exists n | |]; now read_key.
Qed.

(** The theorem above at a concrete input. *)
Lemma node_output_witness :
  let inputData :=
    [ (utf16 "id", JString (utf16 "7"));
      (Answers, JObject [(Budget, JString (utf16 "$1,234.56"))]) ] in
  reserved (utf16 "id") = false /\
  get (utf16 "id") (run inputData) = JString (utf16 "7") /\
  get budgetOriginal (run inputData) = JString (utf16 "$1,234.56").
Proof.
  intros inputData.
  destruct (node_output inputData) as (K & O & _).
  split; [reflexivity|]. split; [|exact O].
  exact (K (utf16 "id") eq_refl).
Defined.

(** What the node has written, by cases of the budget. *)
Lemma run_written inputData :
  let budget := optionalProperty (get Answers inputData) Budget in
  let output := run inputData in
  (get parseError output, get budgetParsed output, get budgetFormatted output) =
  if truthy budget then
    match parseMoney (argument budget) with
    | Return n => (JNull, JNumber (ofNumber n), JString (formatted n))
    | Throw e => (JString (message e), JNull, JNull)
    end
  else (JString missingOrEmpty, JNull, JNull).
Proof.
  intros budget output. subst output. rewrite run_cases. fold budget.
  destruct (truthy budget); [destruct (parseMoney (argument budget))|];
    now read_key.
Qed.

Lemma message_not_missing e : message e <> missingOrEmpty.
Proof. destruct e; intros H; vm_compute in H; discriminate H. Qed.

Lemma message_not_a_string e :
  message e = message InputMustBeString -> e = InputMustBeString.
Proof.
  destruct e; intros H; [reflexivity| | |]; vm_compute in H; discriminate H.
Qed.

Lemma message_empty e :
  message e = message EmptyMoneyString -> e = EmptyMoneyString.
Proof.
  destruct e; intros H; [|reflexivity| |]; vm_compute in H; discriminate H.
Qed.

Lemma parseMoney_not_a_string v :
  parseMoney v = Throw InputMustBeString <-> v = VOther.
Proof.
  split; [|now intros ->]. destruct v as [s|]; [|reflexivity].
  unfold parseMoney. cbv zeta. destruct (isEmpty (trim s)); [discriminate|].
  destruct (amountParts _) as [[ip dp] n].
  destruct (negb (allDigits ip)); [discriminate|].
  destruct (negb (allDigits dp)); [discriminate|].
  destruct (normalizeParts ip dp). discriminate.
Qed.

Lemma parseMoney_empty s :
  parseMoney (VString s) = Throw EmptyMoneyString <-> trim s = [].
Proof.
  unfold parseMoney. cbv zeta. split.
  - destruct (trim s) as [|c r]; [reflexivity|]. cbn [isEmpty].
    destruct (amountParts _) as [[ip dp] n].
    destruct (negb (allDigits ip)); [discriminate|].
    destruct (negb (allDigits dp)); [discriminate|].
    destruct (normalizeParts ip dp). discriminate.
  - now intros ->.
Qed.

(** The three errors of the node that are about the budget as a whole.  It
    reports 'Budget field is missing or empty' exactly when [Answers?.Budget]
    is falsy: absent, null, false, zero, NaN or the empty string.  It
    reports 'Input must be a string' exactly when the budget is a truthy
    value that is not a string; and 'Empty money string' exactly when it is
    a non-empty string of white space only. *)
Theorem node_parse_error (inputData : object) :
  let budget := optionalProperty (get Answers inputData) Budget in
  let reported := get parseError (run inputData) in
  (reported = JString missingOrEmpty <-> truthy budget = false) /\
  (reported = JString (message InputMustBeString) <->
   truthy budget = true /\ argument budget = VOther) /\
  (reported = JString (message EmptyMoneyString) <->
   exists s, budget = JString s /\ s <> [] /\
             forallb isWhiteSpace s = true).
Proof.
  intros budget reported.
  pose proof (run_written inputData) as W. cbv zeta in W.
  fold budget reported in W.
  destruct (truthy budget) eqn:T.
  - destruct (parseMoney (argument budget)) as [n|e] eqn:P;
      injection W as -> _ _.
    + split; [split; discriminate|]. split.
      * split; [discriminate|]. intros [_ A]. rewrite A in P. discriminate P.
      * split; [discriminate|]. intros (s & B & _ & S).
        rewrite B in P. apply trim_blank in S.
        apply parseMoney_empty in S. cbn [argument] in P. congruence.
    + split; [|split].
      * split; [|discriminate]. intros [= M]. now apply message_not_missing in M.
      * split.
        -- intros [= M]. apply message_not_a_string in M. subst e.
           split; [reflexivity|]. now apply parseMoney_not_a_string.
        -- intros [_ A]. apply parseMoney_not_a_string in A. congruence.
      * split.
        -- intros [= M]. apply message_empty in M. subst e.
           destruct budget as [| | | |s| |] eqn:B; try discriminate P.
           exists s. split; [reflexivity|]. split.
           ++ intros ->. discriminate T.
           ++ apply trim_blank. now apply parseMoney_empty.
        -- intros (s & B & _ & S). rewrite B in P. cbn [argument] in P.
           apply trim_blank in S. apply parseMoney_empty in S. congruence.
  - injection W as -> _ _. split; [split; reflexivity|]. split.
    + split; [intros H; vm_compute in H; discriminate H|].
      intros [H _]. discriminate H.
    + split; [intros H; vm_compute in H; discriminate H|].
      intros (s & B & N & _). rewrite B in T. cbn in T.
      destruct s; [now contradiction N | discriminate T].
Qed.

(** The theorem above at a concrete input. *)
Lemma node_parse_error_witness :
  truthy (optionalProperty (get Answers [(Answers, JObject [(Budget, JString [])])])
            Budget) = false /\
  get parseError (run [(Answers, JObject [(Budget, JString [])])]) =
  JString missingOrEmpty.
Proof.
  split; [reflexivity|].
  apply (proj1 (node_parse_error [(Answers, JObject [(Budget, JString [])])])).
  reflexivity.
Defined.

(** Whenever the node writes an integer within the exact integers of a
    Number to [budgetParsed], the text it writes to [budgetFormatted] is
    read back by [parseMoney] as that integer. *)
Theorem node_formatted_reads_back (inputData : object) (z : Z) :
  get budgetParsed (run inputData) = JNumber (Dyadic z 0) ->
  Z.abs z <= 2 ^ 53 ->
  exists t, get budgetFormatted (run inputData) = JString t /\
            N8n.parseMoney (VString t) = Return (Fin z).
Proof.
  intros H B.
  pose proof (run_written inputData) as W. cbv zeta in W.
  destruct (truthy _).
  - destruct (parseMoney _) as [n|e]; injection W as _ W2 W3.
    + rewrite W2 in H. injection H as H.
      destruct n as [x| |]; try discriminate H. injection H as ->.
      exists (formatted (Fin z)). split; [exact W3|].
      rewrite node_parseMoney.
      destruct (formatted_text z B) as (d & -> & WF & V).
      rewrite (parseMoney_numeral d WF), V. now rewrite toNumber_exact.
    + rewrite W2 in H. discriminate H.
  - injection W as _ W2 _. rewrite W2 in H. discriminate H.
Qed.

(** The theorem above at a concrete input. *)
Lemma node_formatted_reads_back_witness :
  let inputData := [(Answers, JObject [(Budget, JString (utf16 "€1.234,5"))])] in
  get budgetParsed (run inputData) = JNumber (Dyadic 123450 0) /\
  get budgetFormatted (run inputData) = JString (utf16 "1234.50") /\
  exists t, get budgetFormatted (run inputData) = JString t /\
            N8n.parseMoney (VString t) = Return (Fin 123450).
Proof.
  intros inputData.
  assert (H : get budgetParsed (run inputData) = JNumber (Dyadic 123450 0))
    by (vm_compute; reflexivity).
  split; [exact H|]. split; [vm_compute; reflexivity|].
  apply (node_formatted_reads_back inputData 123450 H).
  vm_compute. discriminate.
Defined.

(** * [parseBudget] *)

Import ParseBudget.

(** ** Rounding a quotient *)

Lemma half_up_core a m b s' t c :
  0 < b -> 0 < s' -> 0 < c ->
  2 * (a * (2 * s')) - b <= 2 * b * m <= 2 * (a * (2 * s')) + b ->
  b * (2 * t - 1) <= 2 * a -> 2 * a + c <= b * (2 * t + 1) ->
  b < c * (2 * s') ->
  (m + s') / (2 * s') = t.
Proof.
  intros B S C R L U W. symmetry.
  apply (Z.div_unique (m + s') (2 * s') t (m + s' - 2 * s' * t)); [|ring].
  left. split.
  - assert (2 * s' * (b * (2 * t - 1)) <= 2 * s' * (2 * a))
      by (apply Z.mul_le_mono_nonneg_l; lia).
    assert (E : 2 * b * (m + s' - 2 * s' * t) =
                2 * b * m - 2 * s' * (b * (2 * t - 1))) by ring.
    assert (0 <= 2 * b * (m + s' - 2 * s' * t) + b) by lia.
    nia.
  - assert (2 * s' * (2 * a + c) <= 2 * s' * (b * (2 * t + 1)))
      by (apply Z.mul_le_mono_nonneg_l; lia).
    assert (E : 2 * b * (m + s' - 2 * s' * t) =
                2 * b * m - 2 * s' * (b * (2 * t + 1)) + 2 * b * (2 * s'))
      by ring.
    assert (2 * b * (m + s' - 2 * s' * t) < 2 * b * (2 * s')) by nia.
    nia.
Qed.

(** The double nearest to a quotient that is not too large: its exponent
    is negative, and low enough for the divisor. *)
Lemma ratio_small a b :
  0 < a < 2 ^ 52 -> 0 < b -> Z.log2 b <= 6 ->
  exists e, -60 <= e <= -1 - Z.log2 b /\
    ratio a b = Dyadic (roundRatio (a * 2 ^ (- e)) b) e.
Proof.
  intros A B Lb. unfold ratio.
  destruct (a =? 0) eqn:E0; [apply Z.eqb_eq in E0; lia|].
  rewrite Z.abs_eq by lia. unfold nearest.
  assert (L : 0 <= Z.log2 a < 52).
  { split; [apply Z.log2_nonneg | apply Z.log2_lt_pow2; lia]. }
  pose proof (Z.log2_nonneg b) as Lb0.
  set (la := Z.log2 a) in *. set (lb := Z.log2 b) in *.
  unfold scaled at 1.
  destruct (la - lb - 53 <? 0) eqn:E1; [|apply Z.ltb_ge in E1; lia].
  set (e1 := if 2 ^ 53 <=? _ then la - lb - 53 + 1 else la - lb - 53).
  assert (Be : -60 <= e1 <= -1 - lb)
    by (subst e1; destruct (2 ^ 53 <=? _); lia).
  clearbody e1. rewrite Z.max_l by lia. unfold scaled.
  destruct (e1 <? 0) eqn:E2; [|apply Z.ltb_ge in E2; lia].
  destruct (0 <=? e1) eqn:E3; [apply Z.leb_le in E3; lia|].
  cbn [andb]. exists e1. split; [exact Be|].
  replace (Z.sgn a) with 1 by (symmetry; apply Z.sgn_pos; lia).
  now rewrite Z.mul_1_l.
Qed.

(** [Math.round] of the double for [a / b], for the divisors of a decimal
    with at most two fractional digits: the quotient rounded to the nearest
    integer, a half going up, as if no double stood in between. *)
Lemma round_ratio (negative : bool) a b :
  0 <= a < 2 ^ 52 -> b = 1 \/ b = 10 \/ b = 100 ->
  round (if negative then negate (ratio a b) else ratio a b) =
  Fin (halfUp (if negative then - a else a) b).
Proof.
  intros A B. unfold halfUp.
  destruct (Z.eq_dec a 0) as [->|N0].
  { destruct negative; destruct B as [->|[->| ->]]; reflexivity. }
  assert (Lb : 0 < b /\ Z.log2 b <= 6 /\
               exists c, 0 < c /\ b < c * 2 ^ (1 + Z.log2 b) /\
                 forall v, exists t, (2 * v + b) / (2 * b) = t /\
                   b * (2 * t - 1) <= 2 * v /\ 2 * v + c <= b * (2 * t + 1)).
  { destruct B as [->|[->| ->]].
    - split; [lia|]. split; [cbn; lia|]. exists 1. split; [lia|].
      split; [cbn; lia|]. intros v. exists v. split; [|lia].
      replace (2 * v + 1) with (1 + v * (2 * 1)) by ring.
      now rewrite Z.div_add by lia.
    - split; [lia|]. split; [cbn; lia|]. exists 2. split; [lia|].
      split; [cbn; lia|]. intros v. exists ((v + 5) / 10).
      replace (2 * v + 10) with (2 * (v + 5)) by ring.
      rewrite Z.div_mul_cancel_l by lia. split; [reflexivity|].
      pose proof (Z.div_mod (v + 5) 10 ltac:(lia)).
      pose proof (Z.mod_pos_bound (v + 5) 10 ltac:(lia)). lia.
    - split; [lia|]. split; [cbn; lia|]. exists 2. split; [lia|].
      split; [cbn; lia|]. intros v. exists ((v + 50) / 100).
      replace (2 * v + 100) with (2 * (v + 50)) by ring.
      rewrite Z.div_mul_cancel_l by lia. split; [reflexivity|].
      pose proof (Z.div_mod (v + 50) 100 ltac:(lia)).
      pose proof (Z.mod_pos_bound (v + 50) 100 ltac:(lia)). lia. }
  clear B. destruct Lb as (B & Lb & c & C & W & T).
  destruct (ratio_small a b) as (e & Be & ->); [lia | assumption | assumption |].
  pose proof (Z.log2_nonneg b) as Lb0.
  pose proof (roundRatio_near (a * 2 ^ (- e)) b B) as R.
  set (m := roundRatio (a * 2 ^ (- e)) b) in *. clearbody m.
  assert (S : 2 ^ (- e) = 2 * 2 ^ (- e - 1)).
  { replace (- e) with (Z.succ (- e - 1)) at 1 by lia.
    apply Z.pow_succ_r. lia. }
  assert (S1 : 2 ^ (1 + Z.log2 b) <= 2 ^ (- e))
    by (apply Z.pow_le_mono_r; lia).
  assert (S0 : 0 < 2 ^ (- e - 1)) by (apply Z.pow_pos_nonneg; lia).
  set (s' := 2 ^ (- e - 1)) in *. rewrite S in *.
  assert (Wc : b < c * (2 * s')).
  { apply Z.lt_le_trans with (c * 2 ^ (1 + Z.log2 b)); [exact W|].
    apply Z.mul_le_mono_nonneg_l; lia. }
  destruct negative.
  - destruct (T (- a)) as (t & -> & T1 & T2).
    cbn [negate round].
    destruct (e <? 0) eqn:E; [|apply Z.ltb_ge in E; lia].
    apply f_equal. fold s'. rewrite S.
    apply (half_up_core (- a) (- m) b s' t c); try assumption.
    replace (2 * (- a * (2 * s'))) with (- (2 * (a * (2 * s')))) by ring.
    replace (2 * b * - m) with (- (2 * b * m)) by ring. lia.
  - destruct (T a) as (t & -> & T1 & T2).
    cbn [round].
    destruct (e <? 0) eqn:E; [|apply Z.ltb_ge in E; lia].
    apply f_equal. fold s'. rewrite S.
    apply (half_up_core a m b s' t c); assumption.
Qed.

(** ** The steps of [parseBudget] *)

Lemma parseBudget_steps s :
  parseBudget (VString s) =
  if isEmpty (trim s) then Failure InvalidBudgetString
  else
    let value := parseFloat (resolved (filter kept s)) in
    if isNaN value then Failure CouldNotParseBudgetValue
    else Value (round value).
Proof. reflexivity. Qed.

Lemma kept_not_space c : kept c = true -> isWhiteSpace c = false.
Proof.
  unfold kept, isDigit, isWhiteSpace, DOT, COMMA, MINUS. intros H.
  bool_hyps; char_false.
Qed.

Lemma filter_kept_blank s : trim s = [] -> filter kept s = [].
Proof.
  intros H. apply trim_blank in H.
  induction s as [|c s IH]; [reflexivity|]. cbn in H |- *.
  apply andb_true_iff in H as [Hc Hs].
  destruct (kept c) eqn:K; [|now apply IH].
  apply kept_not_space in K. congruence.
Qed.

Lemma kept_not_blank s :
  forallb kept s = true -> s <> [] -> trim s <> [].
Proof.
  intros K N E. apply trim_blank in E. destruct s as [|c s]; [now apply N|].
  cbn in K, E. apply andb_true_iff in K as [K _].
  apply andb_true_iff in E as [E _]. apply kept_not_space in K. congruence.
Qed.

Lemma filter_forallb (p : codeunit -> bool) s : forallb p (filter p s) = true.
Proof.
  induction s as [|c s IH]; [reflexivity|]. cbn.
  destruct (p c) eqn:E; [cbn; now rewrite E|exact IH].
Qed.

Lemma filter_same (p : codeunit -> bool) s :
  forallb p s = true -> filter p s = s.
Proof.
  induction s as [|c s IH]; [reflexivity|]. cbn. intros H.
  apply andb_true_iff in H as [Hc Hs]. now rewrite Hc, IH.
Qed.

(** [parseBudget] in terms of the kept characters. *)
Lemma parseBudget_kept s :
  filter kept s <> [] ->
  parseBudget (VString s) =
  let value := parseFloat (resolved (filter kept s)) in
  if isNaN value then Failure CouldNotParseBudgetValue
  else Value (round value).
Proof.
  intros N. rewrite parseBudget_steps.
  destruct (trim s) eqn:E; [|reflexivity].
  now apply filter_kept_blank in E.
Qed.

(** Any character other than a digit, '.', ',' and '-' is passed over,
    wherever it stands: as long as one of these four is in the text,
    [parseBudget] makes of it what it makes of the text without the other
    characters. *)
Theorem budget_other_characters_ignored (s : jsstring) :
  filter kept s <> [] ->
  parseBudget (VString s) = parseBudget (VString (filter kept s)).
Proof.
  intros N. rewrite (parseBudget_kept s N).
  rewrite (parseBudget_kept (filter kept s));
    rewrite (filter_same kept (filter kept s) (filter_forallb kept s));
    [reflexivity | exact N].
Qed.

(** The theorem above at a concrete input. *)
Lemma budget_other_characters_ignored_witness :
  filter kept (utf16 "about (USD) 1,234.56!") = utf16 "1,234.56" /\
  parseBudget (VString (utf16 "about (USD) 1,234.56!")) =
  parseBudget (VString (utf16 "1,234.56")).
Proof.
  split; [reflexivity|].
  apply (budget_other_characters_ignored (utf16 "about (USD) 1,234.56!")).
  vm_compute. discriminate.
Defined.

(** ** [parseFloat] on a numeral *)

Lemma signed_not_space negative d r :
  isDigit d = true -> trimStart (signed negative (d :: r)) = signed negative (d :: r).
Proof.
  intros D. unfold trimStart, signed.
  destruct negative; cbn [app]; apply dropWhile_head;
    [reflexivity | now apply digit_not_space].
Qed.

Lemma signOf_signed negative d r :
  isDigit d = true -> signOf (signed negative (d :: r)) = (negative, d :: r).
Proof.
  intros D. unfold signed, signOf. destruct negative; [reflexivity|].
  cbn [app]. rewrite (N.eqb_sym d MINUS), (digit_not_minus d D).
  replace (d =? PLUS)%N with false; [reflexivity|].
  symmetry. unfold isDigit, PLUS in *. char_false.
Qed.

Lemma startsWith_Infinity_digit d r :
  isDigit d = true -> startsWith str_Infinity (d :: r) = false.
Proof.
  intros D. change str_Infinity with (73%N :: tl str_Infinity).
  cbn [startsWith]. replace (73 =? d)%N with false; [reflexivity|].
  symmetry. unfold isDigit in *. char_false.
Qed.

Lemma takeWhile_app_stop p a x r :
  forallb p a = true -> p x = false -> takeWhile p (a ++ x :: r) = a.
Proof.
  intros A X. induction a as [|y a IH]; cbn in *; [now rewrite X|].
  apply andb_true_iff in A as [Hy Ha]. now rewrite Hy, IH.
Qed.

(** Digits, optionally followed by '.' and digits: the double nearest to
    the numeral. *)
Lemma parseFloat_numeral (neg : bool) d (fr : option jsstring) :
  allDigits d = true -> d <> [] ->
  allDigits (fractionDigits
    {| negative := neg; whole := d; fraction := fr |}) = true ->
  let f := match fr with Some f => f | None => [] end in
  parseFloat (text {| negative := neg; whole := d; fraction := fr |}) =
  let x := decimal (digitsValue (d ++ f)) (0 - strLength f) in
  if neg then negate x else x.
Proof.
  intros D N F f. unfold fractionDigits in F. cbn [fraction] in F.
  fold f in F. unfold text.
  cbn [negative whole fraction].
  destruct d as [|c d]; [now contradiction N|].
  assert (C : isDigit c = true) by (cbn in D; now apply andb_true_iff in D).
  set (tail := match fr with Some f0 => DOT :: f0 | None => [] end).
  change ((if neg then [MINUS] else []) ++ (c :: d) ++ tail)
    with (signed neg (c :: d ++ tail)).
  unfold parseFloat.
  rewrite (signed_not_space neg c _ C), (signOf_signed neg c _ C).
  rewrite (startsWith_Infinity_digit c _ C).
  change (c :: d ++ tail) with ((c :: d) ++ tail).
  assert (W : takeWhile isDigit ((c :: d) ++ tail) = c :: d /\
              dropWhile isDigit ((c :: d) ++ tail) = tail).
  { subst tail. destruct fr as [f0|].
    - split; [now apply takeWhile_app_stop|].
      rewrite dropWhile_app by exact D. now apply dropWhile_head.
    - rewrite app_nil_r. split; [now apply takeWhile_all|].
      now apply dropWhile_all. }
  destruct W as [-> ->].
  subst tail f. destruct fr as [f0|]; cbv beta iota.
  - rewrite N.eqb_refl, (takeWhile_all _ _ F), (dropWhile_all _ _ F).
    reflexivity.
  - reflexivity.
Qed.

(** The nearest double of a numeral with at most two fractional digits,
    rounded: the numeral rounded, a half going up. *)
Lemma round_decimal (negative : bool) M k :
  0 <= M < 2 ^ 52 -> (k <= 2)%nat ->
  let x := decimal M (0 - Z.of_nat k) in
  isNaN (if negative then negate x else x) = false /\
  round (if negative then negate x else x) =
  Fin (halfUp (if negative then - M else M) (10 ^ Z.of_nat k)).
Proof.
  intros B K x. subst x.
  assert (E : decimal M (0 - Z.of_nat k) = ratio M (10 ^ Z.of_nat k)).
  { destruct k as [|[|[|k]]]; [| | |lia]; unfold decimal; cbn [Z.of_nat Z.sub Z.opp Z.ltb Z.compare Z.add];
      [|reflexivity|reflexivity].
    change (10 ^ 0) with 1. now rewrite Z.mul_1_r. }
  rewrite E. split.
  - unfold ratio. destruct (M =? 0); [now destruct negative|].
    destruct (nearest (Z.abs M) (10 ^ Z.of_nat k)) as [m e].
    destruct (_ && _); now destruct negative.
  - apply round_ratio; [exact B|].
    destruct k as [|[|[|k]]]; [now left | right; now left | right; now right | lia].
Qed.

(** ** The separators of a budget *)

Lemma lastIndexOf_last c p s :
  includes c s = false -> lastIndexOf c (p ++ c :: s) = strLength p.
Proof.
  intros H. apply lastIndexOf_absent in H.
  induction p as [|x p IH].
  - cbn [app]. rewrite lastIndexOf_cons, H, N.eqb_refl. reflexivity.
  - cbn [app]. rewrite lastIndexOf_cons, IH. unfold strLength. cbn [List.length].
    destruct (Z.of_nat (List.length p) <? 0) eqn:E; [apply Z.ltb_lt in E|]; lia.
Qed.

Lemma substring_after p x f : substring (p ++ x :: f) (strLength p + 1) = f.
Proof.
  unfold substring, strLength.
  replace (Z.to_nat (Z.of_nat (List.length p) + 1)) with (S (List.length p)) by lia.
  induction p as [|y p IH]; [reflexivity | exact IH].
Qed.

Lemma signed_app negative a b : signed negative (a ++ b) = signed negative a ++ b.
Proof. unfold signed. now rewrite app_assoc. Qed.

Lemma replaceFirst_app_absent c d p s :
  includes c p = false ->
  replaceFirst c d (p ++ c :: s) = p ++ d :: s.
Proof.
  intros H. induction p as [|x p IH]; cbn [app replaceFirst].
  - now rewrite N.eqb_refl.
  - unfold includes in H. cbn [existsb] in H. apply orb_false_iff in H as [Hx Hp].
    rewrite N.eqb_sym, Hx. now rewrite IH.
Qed.

Section Separator.

(** [sep] is one of '.' and ',', and [other] the other one. *)
Variables sep other : codeunit.
Hypothesis separators_pair :
  (sep = DOT /\ other = COMMA) \/ (sep = COMMA /\ other = DOT).

Lemma sep_not_digit x : isDigit x = true -> (sep =? x)%N = false /\ (other =? x)%N = false.
Proof.
  intros D. destruct separators_pair as [[-> ->]|[-> ->]]; split;
    auto using digit_not_dot, digit_not_comma.
Qed.

Lemma sep_not_other : (sep =? other)%N = false /\ (other =? sep)%N = false.
Proof. destruct separators_pair as [[-> ->]|[-> ->]]; split; reflexivity. Qed.

Lemma sep_not_minus : (sep =? MINUS)%N = false /\ (other =? MINUS)%N = false.
Proof. destruct separators_pair as [[-> ->]|[-> ->]]; split; reflexivity. Qed.

Lemma includes_signed c negative t :
  (c =? MINUS)%N = false -> includes c (signed negative t) = includes c t.
Proof.
  intros H. unfold signed. destruct negative; [|reflexivity].
  unfold includes. cbn [app existsb]. now rewrite H.
Qed.

Lemma removeAll_signed c negative t :
  (c =? MINUS)%N = false ->
  removeAll (N.eqb c) (signed negative t) = signed negative (removeAll (N.eqb c) t).
Proof.
  intros H. unfold signed. destruct negative; [|reflexivity].
  cbn [app]. now rewrite removeAll_cons, H.
Qed.

Lemma mixed_facts w :
  forallb (digitOr other) w = true ->
  includes sep w = false /\ removeAll (N.eqb other) w = filter isDigit w /\
  removeAll (N.eqb sep) w = w.
Proof.
  intros H. induction w as [|x w IH]; [now split|].
  cbn [forallb] in H. apply andb_true_iff in H as [Hx Hw].
  destruct (IH Hw) as (I & R & K).
  rewrite !removeAll_cons, R, K. unfold includes in *. cbn [existsb filter].
  rewrite I. unfold digitOr in Hx. destruct (isDigit x) eqn:D.
  - destruct (sep_not_digit x D) as [-> ->]. now split.
  - cbn [orb] in Hx. apply N.eqb_eq in Hx. subst x.
    destruct sep_not_other as [-> _]. rewrite N.eqb_refl. now split.
Qed.

Lemma grouped_facts w :
  forallb (digitOr sep) w = true ->
  includes other w = false /\ removeAll (N.eqb sep) w = filter isDigit w.
Proof.
  intros H. induction w as [|x w IH]; [now split|].
  cbn [forallb] in H. apply andb_true_iff in H as [Hx Hw].
  destruct (IH Hw) as (I & R).
  rewrite !removeAll_cons, R. unfold includes in *. cbn [existsb filter].
  rewrite I. unfold digitOr in Hx. destruct (isDigit x) eqn:D.
  - destruct (sep_not_digit x D) as [-> ->]. now split.
  - cbn [orb] in Hx. apply N.eqb_eq in Hx. subst x.
    destruct sep_not_other as [_ ->]. rewrite N.eqb_refl. now split.
Qed.

Lemma digits_facts f :
  allDigits f = true ->
  includes sep f = false /\ includes other f = false /\
  removeAll (N.eqb sep) f = f /\ removeAll (N.eqb other) f = f.
Proof.
  intros F. assert (S : isDigit sep = false /\ isDigit other = false)
    by (destruct separators_pair as [[-> ->]|[-> ->]]; now split).
  destruct S as [S O].
  repeat split; try (now apply includes_digits);
    apply removeAll_digits; auto; intros x D; now apply sep_not_digit.
Qed.

(** The last [sep] is followed by at most two digits, and only [other]
    stands among the digits before it: [sep] is taken for the decimal
    separator. *)
Lemma resolved_decimal negative w f :
  forallb (digitOr other) w = true -> allDigits f = true -> (List.length f <= 2)%nat ->
  resolved (signed negative (w ++ sep :: f)) =
  signed negative (filter isDigit w ++ DOT :: f).
Proof.
  intros W F L. destruct (mixed_facts w W) as (I & R & K).
  destruct (digits_facts f F) as (F1 & F2 & F3 & F4).
  destruct sep_not_minus as [M1 M2]. destruct sep_not_other as [N1 N2].
  set (p := signed negative w).
  assert (Ls : lastIndexOf sep (p ++ sep :: f) = strLength p)
    by now apply lastIndexOf_last.
  assert (Lo : lastIndexOf other (p ++ sep :: f) < strLength p).
  { rewrite lastIndexOf_app_absent; [apply lastIndexOf_bounds|].
    unfold includes in *. cbn [existsb]. now rewrite N2, F2. }
  assert (A : (strLength f <=? 2) = true) by (apply Z.leb_le; unfold strLength; lia).
  rewrite signed_app. fold p. unfold resolved.
  destruct separators_pair as [[-> ->]|[-> ->]].
  - rewrite Ls.
    destruct (strLength p <? lastIndexOf COMMA (p ++ DOT :: f)) eqn:E1;
      [apply Z.ltb_lt in E1; lia|].
    destruct (lastIndexOf COMMA (p ++ DOT :: f) <? strLength p) eqn:E2;
      [|apply Z.ltb_ge in E2; lia].
    rewrite substring_after, A. subst p.
    rewrite removeAll_app, (removeAll_signed COMMA) by reflexivity.
    rewrite R, removeAll_cons. change (COMMA =? DOT)%N with false. cbv iota.
    now rewrite F4, <- signed_app.
  - rewrite Ls.
    destruct (lastIndexOf DOT (p ++ COMMA :: f) <? strLength p) eqn:E1;
      [|apply Z.ltb_ge in E1; lia].
    rewrite substring_after, A. subst p.
    rewrite removeAll_app, (removeAll_signed DOT) by reflexivity.
    rewrite R, removeAll_cons. change (DOT =? COMMA)%N with false. cbv iota.
    rewrite F4, replaceFirst_app_absent; [now rewrite <- signed_app|].
    rewrite includes_signed by reflexivity.
    apply includes_digits; [reflexivity|apply filter_digits_allDigits].
Qed.

(** The last [sep] is followed by three digits or more, and [other] is not
    in the text: [sep] is taken for a thousands separator. *)
Lemma resolved_thousands negative w g :
  forallb (digitOr sep) w = true -> allDigits g = true -> (3 <= List.length g)%nat ->
  resolved (signed negative (w ++ sep :: g)) =
  signed negative (filter isDigit w ++ g).
Proof.
  intros W G L. destruct (grouped_facts w W) as (I & R).
  destruct (digits_facts g G) as (G1 & G2 & G3 & G4).
  destruct sep_not_minus as [M1 M2]. destruct sep_not_other as [N1 N2].
  set (p := signed negative w).
  assert (Ls : lastIndexOf sep (p ++ sep :: g) = strLength p)
    by now apply lastIndexOf_last.
  assert (Lo : lastIndexOf other (p ++ sep :: g) = -1).
  { apply lastIndexOf_absent. rewrite includes_app. subst p.
    rewrite includes_signed, I by assumption.
    unfold includes in *. cbn [existsb orb]. now rewrite N2, G2. }
  assert (P : 0 <= strLength p) by (unfold strLength; lia).
  assert (A : (strLength g <=? 2) = false) by (apply Z.leb_gt; unfold strLength; lia).
  rewrite signed_app. fold p. unfold resolved.
  destruct separators_pair as [[-> ->]|[-> ->]].
  - rewrite Ls, Lo.
    destruct (strLength p <? -1) eqn:E1; [apply Z.ltb_lt in E1; lia|].
    destruct (-1 <? strLength p) eqn:E2; [|apply Z.ltb_ge in E2; lia].
    rewrite substring_after, A. subst p.
    rewrite removeAll_app, (removeAll_signed DOT) by reflexivity.
    rewrite R, removeAll_cons, N.eqb_refl. cbv iota.
    now rewrite G3, <- signed_app.
  - rewrite Ls, Lo.
    destruct (-1 <? strLength p) eqn:E2; [|apply Z.ltb_ge in E2; lia].
    rewrite substring_after, A. subst p.
    rewrite removeAll_app, (removeAll_signed COMMA) by reflexivity.
    rewrite R, removeAll_cons, N.eqb_refl. cbv iota.
    now rewrite G3, <- signed_app.
Qed.

End Separator.

Lemma resolved_plain negative g :
  allDigits g = true -> resolved (signed negative g) = signed negative g.
Proof.
  intros G. unfold resolved.
  assert (D : lastIndexOf DOT (signed negative g) = -1).
  { apply lastIndexOf_absent. rewrite includes_signed by reflexivity.
    now apply includes_digits. }
  assert (C : lastIndexOf COMMA (signed negative g) = -1).
  { apply lastIndexOf_absent. rewrite includes_signed by reflexivity.
    now apply includes_digits. }
  rewrite D, C. reflexivity.
Qed.

Lemma signed_not_nil negative a x b : signed negative (a ++ x :: b) <> [].
Proof. unfold signed. destruct negative, a; cbn; discriminate. Qed.

Lemma exchange_signed negative t :
  exchange (signed negative t) = signed negative (exchange t).
Proof. unfold signed. now destruct negative. Qed.

Lemma exchange_grouped w :
  forallb digitOrComma w = true ->
  forallb (digitOr DOT) (exchange w) = true /\
  filter isDigit (exchange w) = filter isDigit w.
Proof.
  intros H. induction w as [|x w IH]; [now split|].
  cbn [forallb] in H. apply andb_true_iff in H as [Hx Hw].
  destruct (IH Hw) as [A B]. cbn [exchange map forallb filter].
  fold (exchange w). rewrite A, B.
  unfold digitOrComma in Hx. destruct (isDigit x) eqn:D.
  - assert (E : swapSeparator x = x).
    { unfold swapSeparator.
      now rewrite (N.eqb_sym x DOT), (digit_not_dot x D),
        (N.eqb_sym x COMMA), (digit_not_comma x D). }
    rewrite E. unfold digitOr at 1. rewrite D. now split.
  - cbn [orb] in Hx. apply N.eqb_eq in Hx. subst x. now split.
Qed.

Lemma signed_digits_text (neg : bool) d (fr : option jsstring) :
  text {| negative := neg; whole := d; fraction := fr |} =
  signed neg (d ++ match fr with Some f => DOT :: f | None => [] end).
Proof. reflexivity. Qed.

(** An amount with a decimal separator.  The kept characters are an
    optional '-', digits grouped by commas, a '.', and at most two digits,
    or the same with the roles of '.' and ',' exchanged; the digits, read
    as one integer, stay below 2^52.  Then [parseBudget] returns the amount
    rounded to the nearest integer, a half going up (towards +Infinity, for
    a negative amount as well). *)
Theorem budget_amount (neg : bool) (w f s : jsstring) :
  let amount := signed neg (w ++ DOT :: f) in
  filter kept s = amount \/ filter kept s = exchange amount ->
  forallb digitOrComma w = true -> filter isDigit w <> [] ->
  allDigits f = true -> (List.length f <= 2)%nat ->
  let scaledDigits := digitsValue (filter isDigit w ++ f) in
  scaledDigits < 2 ^ 52 ->
  parseBudget (VString s) =
  Value (Fin (halfUp (if neg then - scaledDigits else scaledDigits)
                     (10 ^ strLength f))).
Proof.
  intros amount K W N F L scaledDigits B.
  assert (NE : filter kept s <> []).
  { destruct K as [K|K]; rewrite K; subst amount; [apply signed_not_nil|].
    intros E. apply map_eq_nil in E. now apply signed_not_nil in E. }
  assert (R : resolved (filter kept s) =
              signed neg (filter isDigit w ++ DOT :: f)).
  { destruct K as [K|K]; rewrite K; subst amount.
    - apply (resolved_decimal DOT COMMA); auto.
    - rewrite exchange_signed. unfold exchange at 1. rewrite map_app.
      cbn [map]. fold (exchange w) (exchange f).
      rewrite (exchange_digits f F). change (swapSeparator DOT) with COMMA.
      destruct (exchange_grouped w W) as [W' <-].
      apply (resolved_decimal COMMA DOT); auto. }
  rewrite (parseBudget_kept s NE), R. cbv zeta.
  rewrite <- (signed_digits_text neg (filter isDigit w) (Some f)).
  rewrite parseFloat_numeral; auto using filter_digits_allDigits.
  cbv zeta. fold scaledDigits.
  assert (B0 : 0 <= scaledDigits < 2 ^ 52).
  { split; [|exact B]. apply digitsValue_bounds.
    now rewrite allDigits_app, filter_digits_allDigits, F. }
  pose proof (round_decimal neg scaledDigits (List.length f) B0 L) as RD.
  cbv zeta in RD. destruct RD as [NN RR].
  unfold strLength. now rewrite NN, RR.
Qed.

(** The theorem above at a concrete input. *)
Lemma budget_amount_witness :
  filter kept (utf16 "€ -1.234,5") = exchange (signed true (utf16 "1,234" ++ DOT :: utf16 "5")) /\
  parseBudget (VString (utf16 "€ -1.234,5")) = Value (Fin (-1234)) /\
  parseBudget (VString (utf16 "$1,234.56")) = Value (Fin 1235).
Proof.
  split; [reflexivity|]. split.
  - apply (budget_amount true (utf16 "1,234") (utf16 "5") (utf16 "€ -1.234,5"));
      [now right | reflexivity | discriminate | reflexivity | cbn; lia
      | vm_compute; reflexivity].
  - apply (budget_amount false (utf16 "1,234") (utf16 "56") (utf16 "$1,234.56"));
      [now left | reflexivity | discriminate | reflexivity | cbn; lia
      | vm_compute; reflexivity].
Defined.

Lemma halfUp_one v : halfUp v 1 = v.
Proof.
  unfold halfUp. replace (2 * v + 1) with (1 + v * (2 * 1)) by ring.
  now rewrite Z.div_add by lia.
Qed.

(** The kept characters resolve to an optional '-' and digits: the integer
    these write. *)
Lemma parseBudget_whole (neg : bool) (d s : jsstring) :
  filter kept s <> [] -> resolved (filter kept s) = signed neg d ->
  allDigits d = true -> d <> [] -> digitsValue d < 2 ^ 52 ->
  parseBudget (VString s) =
  Value (Fin (if neg then - digitsValue d else digitsValue d)).
Proof.
  intros NE R D N B. rewrite (parseBudget_kept s NE), R. cbv zeta.
  replace (signed neg d) with
    (text {| negative := neg; whole := d; fraction := None |})
    by (unfold text, signed; cbn; now rewrite app_nil_r).
  rewrite parseFloat_numeral; auto. cbv zeta. rewrite app_nil_r.
  assert (B0 : 0 <= digitsValue d < 2 ^ 52)
    by (split; [now apply digitsValue_bounds | exact B]).
  pose proof (round_decimal neg (digitsValue d) 0 B0 ltac:(lia)) as RD.
  cbv zeta in RD. destruct RD as [NN RR].
  change (strLength []) with (Z.of_nat 0). rewrite NN, RR.
  change (10 ^ Z.of_nat 0) with 1. now rewrite halfUp_one.
Qed.

(** A whole amount with thousands separators.  The kept characters are an
    optional '-', digits and commas, and after the last comma three digits
    or more, or the same with '.' for ','; the digits, read as one integer,
    stay below 2^52.  Then every separator is dropped and [parseBudget]
    returns the integer the digits write. *)
Theorem budget_thousands (neg : bool) (w g s : jsstring) :
  let amount := signed neg (w ++ COMMA :: g) in
  filter kept s = amount \/ filter kept s = exchange amount ->
  forallb digitOrComma w = true ->
  allDigits g = true -> (3 <= List.length g)%nat ->
  let whole := digitsValue (filter isDigit w ++ g) in
  whole < 2 ^ 52 ->
  parseBudget (VString s) = Value (Fin (if neg then - whole else whole)).
Proof.
  intros amount K W G L whole B.
  assert (NE : filter kept s <> []).
  { destruct K as [K|K]; rewrite K; subst amount; [apply signed_not_nil|].
    intros E. apply map_eq_nil in E. now apply signed_not_nil in E. }
  apply (parseBudget_whole neg (filter isDigit w ++ g) s); auto.
  - destruct K as [K|K]; rewrite K; subst amount.
    + apply (resolved_thousands COMMA DOT); auto.
    + rewrite exchange_signed. unfold exchange at 1. rewrite map_app.
      cbn [map]. fold (exchange w) (exchange g).
      rewrite (exchange_digits g G). change (swapSeparator COMMA) with DOT.
      destruct (exchange_grouped w W) as [W' <-].
      apply (resolved_thousands DOT COMMA); auto.
  - now rewrite allDigits_app, filter_digits_allDigits, G.
  - destruct g; [cbn in L; lia|]. now destruct (filter isDigit w).
Qed.

(** The theorem above at a concrete input. *)
Lemma budget_thousands_witness :
  parseBudget (VString (utf16 "£10,000,000")) = Value (Fin 10000000) /\
  parseBudget (VString (utf16 "-1.234 EUR")) = Value (Fin (-1234)).
Proof.
  split.
  - apply (budget_thousands false (utf16 "10,000") (utf16 "000")
             (utf16 "£10,000,000"));
      [now left | reflexivity | reflexivity | cbn; lia
      | vm_compute; reflexivity].
  - apply (budget_thousands true (utf16 "1") (utf16 "234")
             (utf16 "-1.234 EUR"));
      [now right | reflexivity | reflexivity | cbn; lia
      | vm_compute; reflexivity].
Defined.

(** A whole amount without separators.  The kept characters are an
    optional '-' and digits that write an integer below 2^52: [parseBudget]
    returns that integer, whatever stands around and between the digits. *)
Theorem budget_whole_number (neg : bool) (g s : jsstring) :
  filter kept s = signed neg g -> allDigits g = true -> g <> [] ->
  digitsValue g < 2 ^ 52 ->
  parseBudget (VString s) =
  Value (Fin (if neg then - digitsValue g else digitsValue g)).
Proof.
  intros K G N B. apply (parseBudget_whole neg g s); auto.
  - rewrite K. unfold signed. destruct neg, g; cbn; congruence.
  - rewrite K. now apply resolved_plain.
Qed.

(** The theorem above at a concrete input. *)
Lemma budget_whole_number_witness :
  parseBudget (VString (utf16 "50 EUR")) = Value (Fin 50) /\
  parseBudget (VString (utf16 "(500)")) = Value (Fin 500).
Proof.
  split.
  - apply (budget_whole_number false (utf16 "50") (utf16 "50 EUR"));
      [reflexivity | reflexivity | discriminate | vm_compute; reflexivity].
  - apply (budget_whole_number false (utf16 "500") (utf16 "(500)"));
      [reflexivity | reflexivity | discriminate | vm_compute; reflexivity].
Defined.

(** ** Failures of [parseBudget] *)

Lemma replaceFirst_marks t :
  forallb mark t = true -> forallb mark (replaceFirst COMMA DOT t) = true.
Proof.
  induction t as [|x t IH]; [reflexivity|]. cbn [forallb replaceFirst].
  intros H. apply andb_true_iff in H as [Hx Ht].
  destruct (x =? COMMA)%N; cbn [forallb]; [exact Ht|].
  now rewrite Hx, IH.
Qed.

Lemma removeAll_marks p t :
  forallb mark t = true -> forallb mark (removeAll p t) = true.
Proof.
  induction t as [|x t IH]; [reflexivity|]. cbn [forallb].
  intros H. apply andb_true_iff in H as [Hx Ht]. rewrite removeAll_cons.
  destruct (p x); cbn [forallb]; [now apply IH|]. now rewrite Hx, IH.
Qed.

Lemma resolved_marks t :
  forallb mark t = true -> forallb mark (resolved t) = true.
Proof.
  intros H. unfold resolved.
  repeat match goal with
  | |- context [if ?b then _ else _] => destruct b
  end; auto using replaceFirst_marks, removeAll_marks.
Qed.

Lemma mark_cases c :
  mark c = true ->
  isDigit c = false /\ isWhiteSpace c = false /\ (73 =? c)%N = false /\
  (c =? PLUS)%N = false.
Proof.
  unfold mark, isDigit, isWhiteSpace, DOT, COMMA, MINUS, PLUS. intros H.
  apply orb_true_iff in H as [H|H]; [apply orb_true_iff in H as [H|H]|];
    apply N.eqb_eq in H; subst c; now repeat split.
Qed.

(** A text of '.', ',' and '-' only holds no number. *)
Lemma parseFloat_marks t : forallb mark t = true -> parseFloat t = DNaN.
Proof.
  intros H. unfold parseFloat.
  assert (T : trimStart t = t).
  { destruct t as [|c t]; [reflexivity|]. cbn [forallb] in H.
    apply andb_true_iff in H as [Hc _].
    apply dropWhile_head. now apply mark_cases in Hc. }
  rewrite T.
  assert (S : exists negative u, signOf t = (negative, u) /\ forallb mark u = true).
  { destruct t as [|c t]; [now exists false, []|]. unfold signOf.
    cbn [forallb] in H. apply andb_true_iff in H as [Hc Ht].
    destruct (c =? MINUS)%N; [now exists true, t|].
    destruct (mark_cases c Hc) as (_ & _ & _ & ->).
    exists false, (c :: t). cbn [forallb]. now rewrite Hc, Ht. }
  destruct S as (negative & u & -> & U).
  match goal with
  | |- (if negative then negate ?m else ?m) = _ =>
      assert (M : m = DNaN); [|rewrite M; now destruct negative]
  end.
  { destruct u as [|c u]; [reflexivity|].
    cbn [forallb] in U. apply andb_true_iff in U as [Hc Hu].
    destruct (mark_cases c Hc) as (D & _ & I & _).
    change str_Infinity with (73%N :: tl str_Infinity).
    cbn [startsWith takeWhile dropWhile]. rewrite I, D. cbn [andb].
    cbv zeta. destruct (c =? DOT)%N; [|reflexivity].
    destruct u as [|c' u]; [reflexivity|].
    cbn [forallb] in Hu. apply andb_true_iff in Hu as [Hc' _].
    destruct (mark_cases c' Hc') as (D' & _).
    cbn [takeWhile]. now rewrite D'. }
Qed.

Lemma ratio_is_a_number a b : isNaN (ratio a b) = false.
Proof.
  unfold ratio. destruct (a =? 0); [reflexivity|].
  destruct (nearest (Z.abs a) b) as [m e]. now destruct (_ && _).
Qed.

(** A text that begins with a digit holds a number. *)
Lemma parseFloat_digit d r : isDigit d = true -> isNaN (parseFloat (d :: r)) = false.
Proof.
  intros D. unfold parseFloat.
  rewrite (signed_not_space false d r D : trimStart (d :: r) = d :: r).
  rewrite (signOf_signed false d r D : signOf (d :: r) = (false, d :: r)).
  rewrite (startsWith_Infinity_digit d r D).
  cbn [takeWhile dropWhile]. rewrite D. cbv zeta.
  destruct (match dropWhile isDigit r with
            | c :: r0 =>
                if (c =? DOT)%N
                then (takeWhile isDigit r0, dropWhile isDigit r0)
                else ([], dropWhile isDigit r)
            | [] => ([], dropWhile isDigit r)
            end) as [fraction rest].
  cbn [isEmpty andb]. unfold decimal.
  destruct (_ <? 0); apply ratio_is_a_number.
Qed.

Lemma resolved_digit d r :
  isDigit d = true -> exists r', resolved (d :: r) = d :: r'.
Proof.
  intros D. unfold resolved.
  assert (A : forall c, isDigit c = false ->
                removeAll (N.eqb c) (d :: r) = d :: removeAll (N.eqb c) r).
  { intros c C. rewrite removeAll_cons.
    destruct (c =? d)%N eqn:E; [|reflexivity].
    apply N.eqb_eq in E. congruence. }
  assert (R : forall t, replaceFirst COMMA DOT (d :: t) =
                        d :: replaceFirst COMMA DOT t).
  { intros t. cbn [replaceFirst].
    now rewrite (N.eqb_sym d COMMA), (digit_not_comma d D). }
  repeat match goal with
  | |- context [if ?b then _ else _] => destruct b
  end; rewrite ?A, ?R by reflexivity; eauto.
Qed.

Lemma round_is_a_number x : isNaN x = false -> round x <> NaN.
Proof. destruct x; cbn; congruence. Qed.

(** When [parseBudget] fails and when it cannot.  A text without any digit
    is rejected: as an invalid budget string when it is blank, otherwise as
    a value that could not be parsed.  A text whose first character among
    digits, '.', ',' and '-' is a digit always gives a number.  And a
    returned number is never NaN. *)
Theorem budget_failures (s : jsstring) :
  (filter isDigit s = [] ->
   parseBudget (VString s) =
   Failure (if isEmpty (trim s) then InvalidBudgetString
            else CouldNotParseBudgetValue)) /\
  (forall d r, filter kept s = d :: r -> isDigit d = true ->
   exists n, parseBudget (VString s) = Value n) /\
  (forall n, parseBudget (VString s) = Value n -> n <> NaN).
Proof.
  split; [|split].
  - intros H. rewrite parseBudget_steps.
    destruct (isEmpty (trim s)); [reflexivity|]. cbv zeta.
    rewrite parseFloat_marks; [reflexivity|].
    apply resolved_marks. induction s as [|c s IH]; [reflexivity|].
    cbn [filter] in H |- *. destruct (isDigit c) eqn:D; [discriminate H|].
    unfold kept at 1. rewrite D. cbn [orb]. fold (mark c).
    destruct (mark c) eqn:M; cbn [forallb]; [rewrite M|]; now apply IH.
  - intros d r K D. rewrite parseBudget_kept by (rewrite K; discriminate).
    rewrite K. destruct (resolved_digit d r D) as [r' ->]. cbv zeta.
    rewrite (parseFloat_digit d r' D). eauto.
  - intros n. rewrite parseBudget_steps.
    destruct (isEmpty (trim s)); [discriminate|]. cbv zeta.
    destruct (isNaN _) eqn:E; [discriminate|].
    intros [= <-]. now apply round_is_a_number.
Qed.

(** The theorem above at a concrete input. *)
Lemma budget_failures_witness :
  filter isDigit (utf16 "about -.-") = [] /\
  parseBudget (VString (utf16 "about -.-")) = Failure CouldNotParseBudgetValue /\
  exists n, parseBudget (VString (utf16 "$5-,.")) = Value n.
Proof.
  split; [reflexivity|]. split.
  - exact (proj1 (budget_failures (utf16 "about -.-")) eq_refl).
  - exact (proj1 (proj2 (budget_failures (utf16 "$5-,.")))
             53%N (utf16 "-,.") eq_refl eq_refl).
Defined.

(** * The callers of [parseBudget] *)

Lemma filter_kept_trimStart s : filter kept (trimStart s) = filter kept s.
Proof.
  unfold trimStart. induction s as [|c s IH]; [reflexivity|].
  cbn [dropWhile filter]. destruct (isWhiteSpace c) eqn:W; [|reflexivity].
  destruct (kept c) eqn:K; [|exact IH].
  apply kept_not_space in K. congruence.
Qed.

Lemma filter_reverse (p : codeunit -> bool) s :
  filter p (rev s) = rev (filter p s).
Proof.
  induction s as [|c s IH]; [reflexivity|]. cbn [rev filter].
  rewrite filter_app, IH. cbn [filter].
  destruct (p c); [reflexivity | now rewrite app_nil_r].
Qed.

Lemma filter_kept_trim s : filter kept (trim s) = filter kept s.
Proof.
  unfold trim, trimEnd.
  rewrite filter_reverse.
  change (dropWhile isWhiteSpace (rev (trimStart s)))
    with (trimStart (rev (trimStart s))).
  now rewrite filter_kept_trimStart, filter_reverse, rev_involutive,
    filter_kept_trimStart.
Qed.

Lemma parseBudget_trim s :
  parseBudget (VString (trim s)) = parseBudget (VString s).
Proof. now rewrite !parseBudget_steps, trim_trim, filter_kept_trim. Qed.

Lemma parseBudget_not_blank s e :
  trim s <> [] -> parseBudget (VString s) = Failure e ->
  e = CouldNotParseBudgetValue.
Proof.
  intros N. rewrite parseBudget_steps. apply isEmpty_false in N. rewrite N.
  cbv zeta. destruct (isNaN _); congruence.
Qed.

Lemma parseBudget_number v n : parseBudget v = Value n -> n <> NaN.
Proof.
  destruct v as [s|]; [|discriminate]. rewrite parseBudget_steps.
  destruct (isEmpty (trim s)); [discriminate|]. cbv zeta.
  destruct (isNaN _) eqn:E; [discriminate|].
  intros [= <-]. now apply round_is_a_number.
Qed.

(** A line of input to [parse_budget.js].  For a blank line the handler
    logs nothing and only prompts again.  For any other line it logs one
    text and then prompts again: the value [parseBudget] returns for the
    line as it was typed, or the error that the value could not be parsed;
    the error is never that of an invalid budget string. *)
Theorem budget_line_handler (userInput : jsstring) :
  (forallb isWhiteSpace userInput = true ->
   BudgetInteractive.onLine userInput = [Prompt]) /\
  (forallb isWhiteSpace userInput = false ->
   BudgetInteractive.onLine userInput =
   [ ConsoleLog
       match parseBudget (VString userInput) with
       | Value result =>
           utf16 "  → Parsed value: " ++ numberToString result ++ [NEWLINE]
       | Failure _ =>
           utf16 "  ✗ Error: Could not parse budget value" ++ [NEWLINE]
       end;
     Prompt ]).
Proof.
  unfold BudgetInteractive.onLine. split; intros H.
  - apply trim_blank in H. now rewrite H.
  - assert (N : trim userInput <> []).
    { intros E. apply trim_blank in E. congruence. }
    rewrite (proj2 (isEmpty_false _) N). cbn [negb].
    rewrite parseBudget_trim.
    destruct (parseBudget (VString userInput)) as [n|e] eqn:P; [reflexivity|].
    rewrite (parseBudget_not_blank userInput e N P).
    vm_compute. reflexivity.
Qed.

(** The theorem above at a concrete input. *)
Lemma budget_line_handler_witness :
  forallb isWhiteSpace (utf16 " about 1,5 ") = false /\
  BudgetInteractive.onLine (utf16 " about 1,5 ") =
  [ ConsoleLog (utf16 "  → Parsed value: 2" ++ [NEWLINE]); Prompt ].
Proof.
  split; [reflexivity|].
  exact (proj2 (budget_line_handler (utf16 " about 1,5 ")) eq_refl).
Defined.

(** The node by cases of the budget. *)
Lemma budget_node_written inputData :
  let budget := optionalProperty (get Answers inputData) Budget in
  let output := BudgetNode.run inputData in
  (forall key, sameString BudgetNode.budget_int key = false ->
     sameString parseError key = false ->
     get key output = get key inputData) /\
  (get parseError output, get BudgetNode.budget_int output) =
  if truthy budget then
    match parseBudget (argument budget) with
    | Value n => (JNull, JNumber (ofNumber n))
    | Failure e => (JString (message e), JNull)
    end
  else (JString missingOrEmpty, JNull).
Proof.
  intros budget output. subst output. unfold BudgetNode.run. fold budget.
  split.
  - intros key K1 K2.
    destruct (truthy budget); [destruct (parseBudget (argument budget))|];
      now read_key.
  - destruct (truthy budget); [destruct (parseBudget (argument budget))|];
      now read_key.
Qed.

(** The item the second node returns.  Every key other than [budget_int]
    and [parseError] reads as in the input item.  Either [parseError] is
    null and [budget_int] is the number [parseBudget] returns for the
    budget, which is not NaN; or [parseError] is a message and [budget_int]
    is null.  A budget that is not a string, a number for one, never gives
    a [budget_int]. *)
Theorem budget_node_output (inputData : object) :
  let budget := optionalProperty (get Answers inputData) Budget in
  let output := BudgetNode.run inputData in
  (forall key, sameString BudgetNode.budget_int key = false ->
     sameString parseError key = false ->
     get key output = get key inputData) /\
  match get parseError output with
  | JNull =>
      exists n, parseBudget (argument budget) = Value n /\ n <> NaN /\
        get BudgetNode.budget_int output = JNumber (ofNumber n)
  | JString _ => get BudgetNode.budget_int output = JNull
  | _ => False
  end /\
  ((forall s, budget <> JString s) ->
   get BudgetNode.budget_int output = JNull).
Proof.
  intros budget output.
  destruct (budget_node_written inputData) as [K W].
  fold budget output in K, W. split; [exact K|].
  destruct (truthy budget) eqn:T.
  - destruct (parseBudget (argument budget)) as [n|e] eqn:P;
      injection W as -> ->.
    + split; [exists n; split; [reflexivity|];
              split; [now apply (parseBudget_number _ _ P) | reflexivity]|].
      intros S. destruct budget; try discriminate P. now contradiction (S s).
    + now split.
  - injection W as -> ->. now split.
Qed.

(** The theorem above at a concrete input. *)
Lemma budget_node_output_witness :
  let inputData :=
    [ (utf16 "id", JString (utf16 "7"));
      (Answers, JObject [(Budget, JNumber (Dyadic 5000 0))]) ] in
  get (utf16 "id") (BudgetNode.run inputData) = JString (utf16 "7") /\
  get BudgetNode.budget_int (BudgetNode.run inputData) = JNull.
Proof.
  intros inputData.
  destruct (budget_node_output inputData) as (K & _ & N).
  split; [exact (K (utf16 "id") eq_refl eq_refl)|].
  apply N. intros s. discriminate.
Defined.
